(** * MuJoCo exporter of onshape-to-robot: a shallow embedding

    Source: [src/onshape_to_robot/exporter_mujoco.py], class
    [ExporterMuJoCo].  The exporter walks the link/joint tree of a robot and
    appends XML text to [self.xml]; it also accumulates the mesh files and the
    materials met on the way in [self.meshes] and [self.materials].

    Conventions of the embedding.
    - [self.xml] is kept as the list of the strings passed to [append], in
      order; the document returned by [build] is their concatenation.
    - Python exceptions are results: every method is a function from the
      exporter object to an outcome and the exporter object after the call
      (side effects done before an exception stay done).
    - Floating-point numbers, numpy matrices and the helpers imported from
      other modules ([xml_escape], [warning], [mat2quat]) are not part of
      this file of the repository; they are the fields of the class [Env]. *)

From Stdlib Require Import ZArith Ascii String DecimalString.
From stdpp Require Import base strings list gmap.

Local Open Scope string_scope.

(** ** Environment: numbers, matrices and imported helpers *)

Class Env := {
  (** Python/numpy floating-point numbers. *)
  float : Type;
  (** ["%.20g" % x] *)
  fmt_g20 : float → string;
  (** [str(x)], as used by an f-string [{x}] *)
  str_float : float → string;
  (** [bool(x)]: [x != 0.0] *)
  float_truth : float → bool;
  (** [x / 2] *)
  half : float → float;
  (** 4x4 numpy matrices. *)
  mat4 : Type;
  (** [np.eye(4)] *)
  np_eye4 : mat4;
  (** [np.linalg.inv(T)] *)
  np_linalg_inv : mat4 → mat4;
  (** [A @ B] *)
  matmul : mat4 → mat4 → mat4;
  (** [matrix[:3, 3]] *)
  mat_pos : mat4 → float * float * float;
  (** [mat2quat(matrix[:3, :3])] of transforms3d *)
  mat_quat : mat4 → float * float * float * float;
  (** [exporter_utils.xml_escape] *)
  xml_escape : string → string;
  (** [message.warning]: decorates a console message *)
  warning : string → string;
  (** Iteration order of [set(l)]: some enumeration without repetition of
      the elements of [l]. *)
  set_iter : list string → list string;
  set_iter_NoDup : ∀ l, NoDup (set_iter l);
  set_iter_elem : ∀ l x, x ∈ set_iter l ↔ x ∈ l
}.

(** ** Python strings *)

(** The double quote character, and a text between double quotes. *)
Definition dq : string := String "034"%char EmptyString.
Definition quoted (s : string) : string := dq +:+ s +:+ dq.

(** [s.split(c)] for a one-character separator. *)
Fixpoint split_on (c : ascii) (s : string) : list string :=
  match s with
  | EmptyString => [""]
  | String a s' =>
      if Ascii.eqb a c then "" :: split_on c s'
      else match split_on c s' with
           | [] => [String a ""]
           | w :: ws => String a w :: ws
           end
  end.

(** [os.path.basename(p)]: what follows the last slash. *)
Definition basename (p : string) : string :=
  List.last (split_on "/" p) "".

(** [".".join(mesh_file.split(".")[:-1])] *)
Definition strip_ext (mesh_file : string) : string :=
  String.concat "." (removelast (split_on "." mesh_file)).

(** [str(n)] for a Python integer. *)
Definition str_int (z : Z) : string := NilZero.string_of_int (Z.to_int z).

(** ** Outcomes of a call: a value or a Python exception *)

Inductive exn :=
| KeyError (key : string)
| TypeError
| RecursionError.

Inductive outcome (A : Type) :=
| Ok (a : A)
| Raise (e : exn).
Arguments Ok {A} a.
Arguments Raise {A} e.

Section Model.
Context `{Env}.

Definition vec3 : Type := float * float * float.

(** ** Property values of a joint: scalars and strings *)

Inductive pyval :=
| PNone
| PBool (b : bool)
| PInt (z : Z)
| PFloat (x : float)
| PStr (s : string).

(** [str(v)], the text an f-string puts for [{v}]. *)
Definition py_str (v : pyval) : string :=
  match v with
  | PNone => "None"
  | PBool true => "True"
  | PBool false => "False"
  | PInt z => str_int z
  | PFloat x => str_float x
  | PStr s => s
  end.

(** Truth value testing, [bool(v)]. *)
Definition py_truth (v : pyval) : bool :=
  match v with
  | PNone => false
  | PBool b => b
  | PInt z => negb (Z.eqb z 0)
  | PFloat x => float_truth x
  | PStr s => negb (String.eqb s "")
  end.

(** [v == "position"] and the like: a value equals a string literal only
    when it is that string. *)
Definition py_eq_str (v : pyval) (s : string) : bool :=
  match v with
  | PStr s' => String.eqb s' s
  | _ => false
  end.

(** ** The robot model ([robot.py], [shapes.py]) *)

(** Modelled from the spec: the shape classes of [shapes.py] are not in the
    sources at hand; the spec gives the closed set Box(size), Cylinder(radius,
    length), Sphere(radius), each with its transform relative to the part. *)
Inductive Shape :=
| Box (size : vec3) (T_part_shape : mat4)
| Cylinder (radius length : float) (T_part_shape : mat4)
| Sphere (radius : float) (T_part_shape : mat4).

Definition T_part_shape (s : Shape) : mat4 :=
  match s with
  | Box _ T | Cylinder _ _ T | Sphere _ T => T
  end.

(** Modelled from the spec: the class [Part] of [robot.py], with the
    attributes the exporter reads.  [mesh_file] and [shapes] may be [None]. *)
Record Part := mkPart {
  part_name : string;
  mesh_file : option string;
  shapes : option (list Shape);
  color : vec3;
  T_world_part : mat4
}.

(** Modelled from the spec: the class [Link] of [robot.py].  A link is a
    Python object: [link_id] stands for its identity, which is what
    [joint.parent == link] compares.  [frames] is a dict, kept as the list of
    its items in order; [get_dynamics] gives mass, center of mass and inertia
    tensor. *)
Record Link := mkLink {
  link_id : nat;
  link_name : string;
  parts : list Part;
  frames : list (string * mat4);
  get_dynamics : mat4 → float * vec3 * (nat → nat → float)
}.

(** Modelled from the spec: the joint types of [robot.py]. *)
Inductive JointType := REVOLUTE | PRISMATIC | FIXED.

(** Modelled from the spec: the class [Joint] of [robot.py]; [properties] is
    a dict from names to scalars or strings, [limits] the optional pair of
    motion limits. *)
Record Joint := mkJoint {
  joint_name : string;
  joint_type : JointType;
  parent : Link;
  child : Link;
  T_world_joint : mat4;
  properties : gmap string pyval;
  limits : option (float * float)
}.

(** Modelled from the spec: the class [Robot] of [robot.py]; [get_base_link]
    is the result of the method of that name. *)
Record Robot := mkRobot {
  robot_name : string;
  links : list Link;
  joints : list Joint;
  get_base_link : Link
}.

(** Modelled from the spec: [Robot.get_link_joints] is not in the sources at
    hand; per the spec it gives the joints whose parent is the link, in the
    order of the robot's joint list. *)
Definition get_link_joints (robot : Robot) (link : Link) : list Joint :=
  filter (λ j, link_id (parent j) = link_id link) (joints robot).

(** ** Configuration and exporter object *)

(** Modelled from the spec: what [__init__] reads of a [Config] object
    ([config.py]). *)
Record Config := mkConfig {
  cfg_no_dynamics : bool;
  cfg_collision_shapes_only : bool;
  cfg_drawCollisions : bool;
  (** contents of the file named by [additionalXML], empty when unset *)
  cfg_additionalXML : string;
  printable_version : string
}.

Record ExporterMuJoCo := mkExporter {
  config : option Config;
  draw_collisions : bool;
  no_dynamics : bool;
  additional_xml : string;
  meshes : list string;
  materials : list (string * vec3);
  collision_shapes_only : bool;
  xml : list string;
  (** what [print] has written so far *)
  stdout : list string
}.

Definition set_xml (v : list string) (self : ExporterMuJoCo) :=
  mkExporter (config self) (draw_collisions self) (no_dynamics self)
    (additional_xml self) (meshes self) (materials self)
    (collision_shapes_only self) v (stdout self).

Definition set_meshes (v : list string) (self : ExporterMuJoCo) :=
  mkExporter (config self) (draw_collisions self) (no_dynamics self)
    (additional_xml self) v (materials self)
    (collision_shapes_only self) (xml self) (stdout self).

Definition set_materials (v : list (string * vec3)) (self : ExporterMuJoCo) :=
  mkExporter (config self) (draw_collisions self) (no_dynamics self)
    (additional_xml self) (meshes self) v
    (collision_shapes_only self) (xml self) (stdout self).

Definition set_stdout (v : list string) (self : ExporterMuJoCo) :=
  mkExporter (config self) (draw_collisions self) (no_dynamics self)
    (additional_xml self) (meshes self) (materials self)
    (collision_shapes_only self) (xml self) v.

(** [d[k] = v] on a Python dict: a key already there keeps its place. *)
Fixpoint dict_set {V} (k : string) (v : V) (d : list (string * V)) : list (string * V) :=
  match d with
  | [] => [(k, v)]
  | (k', v') :: d' =>
      if String.eqb k' k then (k, v) :: d' else (k', v') :: dict_set k v d'
  end.

(** [ExporterMuJoCo.__init__] *)
Definition init (cfg : option Config) : ExporterMuJoCo :=
  match cfg with
  | None => mkExporter None false false "" [] [] false [] []
  | Some c =>
      mkExporter (Some c) (cfg_drawCollisions c) (cfg_no_dynamics c)
        (cfg_additionalXML c) [] [] (cfg_collision_shapes_only c) [] []
  end.

(** ** Methods as state transformers that may raise *)

Definition M (A : Type) : Type := ExporterMuJoCo → outcome A * ExporterMuJoCo.

Definition ret {A} (a : A) : M A := λ self, (Ok a, self).
Definition raise {A} (e : exn) : M A := λ self, (Raise e, self).
Definition bind {A B} (m : M A) (k : A → M B) : M B :=
  λ self, match m self with
          | (Ok a, self') => k a self'
          | (Raise e, self') => (Raise e, self')
          end.
Definition get_self : M ExporterMuJoCo := λ self, (Ok self, self).
Definition modify (f : ExporterMuJoCo → ExporterMuJoCo) : M unit :=
  λ self, (Ok tt, f self).
Definition lift {A} (o : outcome A) : M A := λ self, (o, self).

Notation "'let*' x ':=' m 'in' k" := (bind m (λ x, k))
  (at level 10, x name, m at level 100, k at level 200).
Notation "m '>>' k" := (bind m (λ _, k))
  (at level 100, k at level 200, right associativity).

(** [for x in l: body(x)] *)
Fixpoint for_each {A} (l : list A) (body : A → M unit) : M unit :=
  match l with
  | [] => ret tt
  | x :: l' => body x >> for_each l' body
  end.

(** [self.append(line)] *)
Definition append (line : string) : M unit :=
  modify (λ self, set_xml (xml self ++ [line])%list self).

(** [print(line)] *)
Definition print (line : string) : M unit :=
  modify (λ self, set_stdout (stdout self ++ [line])%list self).

(** [pos_quat] *)
Definition pos_quat (matrix : mat4) : string :=
  let '(px, py, pz) := mat_pos matrix in
  let '(qw, qx, qy, qz) := mat_quat matrix in
  "pos=" +:+ quoted (fmt_g20 px +:+ " " +:+ fmt_g20 py +:+ " " +:+ fmt_g20 pz)
  +:+ " quat=" +:+ quoted (fmt_g20 qw +:+ " " +:+ fmt_g20 qx +:+ " "
                           +:+ fmt_g20 qy +:+ " " +:+ fmt_g20 qz).

(** *** [add_actuators] *)

(** One pass of the loop over [class], [kp], [kd], [ki]. *)
Definition actuator_gain (props : gmap string pyval) (key : string) : string :=
  match props !! key with
  | Some v => key +:+ "=" +:+ quoted (py_str v) +:+ " "
  | None => ""
  end.

Definition actuator_forcerange (props : gmap string pyval) : string :=
  match props !! "effort" with
  | Some e => "forcerange=" +:+ quoted ("-" +:+ py_str e +:+ " " +:+ py_str e) +:+ " "
  | None => ""
  end.

Definition actuator_ctrlrange (joint : Joint) (type : pyval) : string :=
  match limits joint with
  | Some (lo, hi) =>
      if py_eq_str type "position"
      then "ctrlrange=" +:+ quoted (str_float lo +:+ " " +:+ str_float hi) +:+ " "
      else ""
  | None => ""
  end.

(** The text built in [actuator] for one actuated joint. *)
Definition actuator_element (joint : Joint) : string :=
  let props := properties joint in
  let type := default (PStr "position") (props !! "type") in
  let actuator :=
    "<" +:+ py_str type +:+ " name=" +:+ quoted (joint_name joint)
    +:+ " joint=" +:+ quoted (joint_name joint) +:+ " " in
  let actuator :=
    fold_left (λ acc key, acc +:+ actuator_gain props key)
              ["class"; "kp"; "kd"; "ki"] actuator in
  let actuator := actuator +:+ actuator_forcerange props in
  let actuator := actuator +:+ actuator_ctrlrange joint type in
  actuator +:+ "/>".

(** Body of the loop of [add_actuators]. *)
Definition add_actuator (joint : Joint) : M unit :=
  if py_truth (default (PBool true) (properties joint !! "actuated"))
  then append (actuator_element joint)
  else ret tt.

Definition add_actuators (robot : Robot) : M unit :=
  append "<actuator>" >>
  for_each (joints robot) add_actuator >>
  append "</actuator>".

(** *** [add_inertial] *)

Definition add_inertial (mass : float) (com : vec3) (inertia : nat → nat → float) : M unit :=
  let '(cx, cy, cz) := com in
  let inertial := "<inertial " in
  let inertial := inertial +:+ "pos="
    +:+ quoted (fmt_g20 cx +:+ " " +:+ fmt_g20 cy +:+ " " +:+ fmt_g20 cz) +:+ " " in
  let inertial := inertial +:+ "mass=" +:+ quoted (fmt_g20 mass) +:+ " " in
  let inertial := inertial +:+ "fullinertia="
    +:+ quoted (fmt_g20 (inertia 0 0) +:+ " " +:+ fmt_g20 (inertia 1 1) +:+ " "
                +:+ fmt_g20 (inertia 2 2) +:+ " " +:+ fmt_g20 (inertia 0 1) +:+ " "
                +:+ fmt_g20 (inertia 0 2) +:+ " " +:+ fmt_g20 (inertia 1 2))
    +:+ " " in
  let inertial := inertial +:+ " />" in
  append inertial.

(** *** [add_mesh] *)

Definition add_mesh (part : Part) (class_ : string) (T_world_link : mat4) : M unit :=
  match mesh_file part with
  | None => raise TypeError
  | Some path =>
      let mesh_file := basename path in
      let mesh_file_no_ext := strip_ext mesh_file in
      let material_name := mesh_file_no_ext +:+ "_material" in
      let T_link_part := matmul (np_linalg_inv T_world_link) (T_world_part part) in
      append ("<!-- Mesh " +:+ part_name part +:+ " -->") >>
      let geom := "<geom type=" +:+ quoted "mesh" +:+ " class=" +:+ quoted class_ +:+ " " in
      let geom := geom +:+ pos_quat T_link_part +:+ " " in
      let geom := geom +:+ "mesh=" +:+ quoted (xml_escape mesh_file_no_ext) +:+ " " in
      let geom := geom +:+ "material=" +:+ quoted (xml_escape material_name) +:+ " " in
      let geom := geom +:+ " />" in
      modify (λ self, set_meshes (meshes self ++ [mesh_file])%list self) >>
      modify (λ self, set_materials (dict_set material_name (color part) (materials self)) self) >>
      append geom
  end.

(** *** [add_shapes] *)

(** The [type=... size=...] attributes of a primitive shape. *)
Definition shape_type_size (shape : Shape) : string :=
  match shape with
  | Box (sx, sy, sz) _ =>
      "type=" +:+ quoted "box" +:+ " size="
      +:+ quoted (fmt_g20 (half sx) +:+ " " +:+ fmt_g20 (half sy) +:+ " "
                  +:+ fmt_g20 (half sz)) +:+ " "
  | Cylinder radius length _ =>
      "type=" +:+ quoted "cylinder" +:+ " size="
      +:+ quoted (fmt_g20 radius +:+ " " +:+ fmt_g20 (half length)) +:+ " "
  | Sphere radius _ =>
      "type=" +:+ quoted "sphere" +:+ " size=" +:+ quoted (fmt_g20 radius) +:+ " "
  end.

(** Body of the loop of [add_shapes]. *)
Definition add_shape (part : Part) (class_ : string) (T_world_link : mat4)
    (shape : Shape) : M unit :=
  let geom := "<geom class=" +:+ quoted class_ +:+ " " in
  let T_link_shape :=
    matmul (matmul (np_linalg_inv T_world_link) (T_world_part part))
           (T_part_shape shape) in
  let geom := geom +:+ pos_quat T_link_shape +:+ " " in
  let geom := geom +:+ shape_type_size shape in
  if String.eqb class_ "visual" then
    let material_name := part_name part +:+ "_material" in
    modify (λ self, set_materials (dict_set material_name (color part) (materials self)) self) >>
    append (geom +:+ "material=" +:+ quoted (xml_escape material_name) +:+ " " +:+ " />")
  else
    append (geom +:+ " />").

Definition add_shapes (part : Part) (class_ : string) (T_world_link : mat4) : M unit :=
  match shapes part with
  | None => raise TypeError
  | Some l => for_each l (add_shape part class_ T_world_link)
  end.

(** *** [add_geometries] *)

(** Truth value of [part.mesh_file]. *)
Definition has_mesh (part : Part) : bool :=
  match mesh_file part with
  | Some f => negb (String.eqb f "")
  | None => false
  end.

Definition add_geometries (part : Part) (T_world_link : mat4)
    (class_ what : string) : M unit :=
  let* self := get_self in
  if String.eqb what "collision" && bool_decide (shapes part ≠ None) then
    add_shapes part class_ T_world_link
  else if has_mesh part
          && (String.eqb what "visual" || negb (collision_shapes_only self)) then
    add_mesh part class_ T_world_link
  else ret tt.

(** *** [add_joint] *)

(** One pass of the loop over the pass-through properties: the text added
    to [joint_xml], or the [KeyError] of [joint.properties[key]]. *)
Definition joint_attr (props : gmap string pyval) (key : string) : outcome string :=
  match props !! key with
  | None => Ok ""
  | Some _ =>
      let key := if String.eqb key "friction" then "frictionloss" else key in
      match props !! key with
      | Some v => Ok (key +:+ "=" +:+ quoted (py_str v) +:+ " ")
      | None => Raise (KeyError key)
      end
  end.

Fixpoint joint_attrs (props : gmap string pyval) (keys : list string)
    (joint_xml : string) : outcome string :=
  match keys with
  | [] => Ok joint_xml
  | key :: keys' =>
      match joint_attr props key with
      | Ok a => joint_attrs props keys' (joint_xml +:+ a)
      | Raise e => Raise e
      end
  end.

Definition joint_keys : list string :=
  ["class"; "friction"; "frictionloss"; "armature"; "damping"; "stiffness"].

Definition add_joint (joint : Joint) : M unit :=
  append ("<!-- Joint from " +:+ link_name (parent joint) +:+ " to "
          +:+ link_name (child joint) +:+ " -->") >>
  let joint_xml := "<joint " in
  let joint_xml := joint_xml +:+ "name=" +:+ quoted (joint_name joint) +:+ " " in
  let* joint_xml :=
    match joint_type joint with
    | REVOLUTE => ret (joint_xml +:+ "type=" +:+ quoted "hinge" +:+ " ")
    | PRISMATIC => ret (joint_xml +:+ "type=" +:+ quoted "slide" +:+ " ")
    | FIXED =>
        print (warning "Joint type is not supported in MuJoCo: fixed") >>
        ret (joint_xml +:+ "type=" +:+ quoted "free" +:+ " ")
    end in
  let* joint_xml := lift (joint_attrs (properties joint) joint_keys joint_xml) in
  append (joint_xml +:+ " />").

(** *** [add_frame] *)

Definition add_frame (link : Link) (frame : string)
    (T_world_link T_world_frame : mat4) : M unit :=
  append ("<!-- Frame " +:+ frame +:+ " (dummy link + fixed joint) -->") >>
  let T_link_frame := matmul (np_linalg_inv T_world_link) T_world_frame in
  let site := "<site name=" +:+ quoted frame +:+ " " in
  let site := site +:+ pos_quat T_link_frame +:+ " " in
  let site := site +:+ " />" in
  append site.

(** *** [add_link] *)

(** Body of the loop over [link.parts]. *)
Definition add_part (part : Part) (T_world_link : mat4) : M unit :=
  append ("<!-- Part " +:+ part_name part +:+ " -->") >>
  let* self := get_self in
  add_geometries part T_world_link "visual"
    (if draw_collisions self then "collision" else "visual") >>
  add_geometries part T_world_link "collision" "collision".

(** The opening tag of a body. *)
Definition body_open (link : Link) (T_parent_link : mat4) : string :=
  "<body name=" +:+ quoted (link_name link) +:+ " " +:+ pos_quat T_parent_link +:+ " >".

(** [depth] bounds the nesting of calls, as the interpreter's recursion limit
    does; a robot whose joints form a cycle ends in [RecursionError]. *)
Fixpoint add_link (depth : nat) (robot : Robot) (link : Link)
    (parent_joint : option Joint) (T_world_parent : mat4) : M unit :=
  match depth with
  | O => raise RecursionError
  | S depth' =>
      let T_world_link :=
        match parent_joint with
        | None => np_eye4
        | Some j => T_world_joint j
        end in
      append ("<!-- Link " +:+ link_name link +:+ " -->") >>
      let T_parent_link := matmul (np_linalg_inv T_world_parent) T_world_link in
      append (body_open link T_parent_link) >>
      match parent_joint with
      | None => append ("<freejoint name=" +:+ quoted "root" +:+ " />")
      | Some j => add_joint j
      end >>
      let '(mass, com, inertia) := get_dynamics link T_world_link in
      add_inertial mass com inertia >>
      for_each (parts link) (λ part, add_part part T_world_link) >>
      for_each (frames link)
        (λ '(frame, T_world_frame), add_frame link frame T_world_link T_world_frame) >>
      for_each (get_link_joints robot link)
        (λ joint, add_link depth' robot (child joint) (Some joint) T_world_link) >>
      append "</body>"
  end.

(** *** [build] *)

(** The [<asset>] section: a mesh per element of [set(self.meshes)], then a
    material per entry of [self.materials]. *)
Definition mesh_decl (mesh_file : string) : string :=
  "<mesh file=" +:+ quoted mesh_file +:+ " />".

Definition material_decl (m : string * vec3) : string :=
  let '(material_name, (r, g, b)) := m in
  let color_str := fmt_g20 r +:+ " " +:+ fmt_g20 g +:+ " " +:+ fmt_g20 b +:+ " 1" in
  "<material name=" +:+ quoted material_name +:+ " rgba=" +:+ quoted color_str +:+ " />".

Definition add_assets : M unit :=
  append "<asset>" >>
  let* self := get_self in
  for_each (set_iter (meshes self)) (λ mesh_file, append (mesh_decl mesh_file)) >>
  let* self := get_self in
  for_each (materials self) (λ m, append (material_decl m)) >>
  append "</asset>".

Definition boilerplate : list string :=
  [ "<default>";
    "<joint frictionloss=" +:+ quoted "0.1" +:+ " armature=" +:+ quoted "0.005" +:+ "/>";
    "<position kp=" +:+ quoted "50" +:+ " kv=" +:+ quoted "5" +:+ "/>";
    "<default class=" +:+ quoted "visual" +:+ ">";
    "<geom type=" +:+ quoted "mesh" +:+ " contype=" +:+ quoted "0"
      +:+ " conaffinity=" +:+ quoted "0" +:+ " group=" +:+ quoted "2" +:+ "/>";
    "</default>";
    "<default class=" +:+ quoted "collision" +:+ ">";
    "<geom group=" +:+ quoted "3" +:+ "/>";
    "</default>";
    "</default>" ].

Definition build (depth : nat) (robot : Robot) : M string :=
  modify (set_xml []) >>
  append ("<?xml version=" +:+ quoted "1.0" +:+ " ?>") >>
  append "<!-- Generated using onshape-to-robot -->" >>
  let* self := get_self in
  match config self with
  | Some c => append ("<!-- OnShape " +:+ printable_version c +:+ " -->")
  | None => ret tt
  end >>
  append ("<mujoco model=" +:+ quoted (robot_name robot) +:+ ">") >>
  append ("<compiler angle=" +:+ quoted "radian" +:+ " meshdir=" +:+ quoted "." +:+ " />") >>
  append ("<option noslip_iterations=" +:+ quoted "1" +:+ "></option>") >>
  (if negb (String.eqb (additional_xml self) "")
   then append (additional_xml self) else ret tt) >>
  for_each boilerplate append >>
  append "<worldbody>" >>
  add_link depth robot (get_base_link robot) None np_eye4 >>
  append "</worldbody>" >>
  add_assets >>
  add_actuators robot >>
  append "</mujoco>" >>
  let* self := get_self in
  ret (String.concat "" (xml self)).

(** The lines of the document before the bodies. *)
Definition header (robot : Robot) (self : ExporterMuJoCo) : list string :=
  ([ "<?xml version=" +:+ quoted "1.0" +:+ " ?>";
     "<!-- Generated using onshape-to-robot -->" ]
   ++ match config self with
      | Some c => [ "<!-- OnShape " +:+ printable_version c +:+ " -->" ]
      | None => []
      end
   ++ [ "<mujoco model=" +:+ quoted (robot_name robot) +:+ ">";
        "<compiler angle=" +:+ quoted "radian" +:+ " meshdir=" +:+ quoted "." +:+ " />";
        "<option noslip_iterations=" +:+ quoted "1" +:+ "></option>" ]
   ++ (if negb (String.eqb (additional_xml self) "") then [additional_xml self] else [])
   ++ boilerplate)%list.

(** The lines of the document after the bodies: the asset section for
    the meshes and materials of [self], and the actuator section. *)
Definition footer (robot : Robot) (self : ExporterMuJoCo) : list string :=
  ("<asset>" :: (mesh_decl <$> set_iter (meshes self))
   ++ (material_decl <$> materials self) ++ ["</asset>"]
   ++ "<actuator>"
      :: (joints robot
          ≫= λ joint,
               if py_truth (default (PBool true) (properties joint !! "actuated"))
               then [actuator_element joint] else [])
   ++ ["</actuator>"; "</mujoco>"])%list.

(** ** Reading the emitted lines back

    What the statements below say about the document is said on the lines
    passed to [append]: a body opens with a line that starts with [<body ]
    and closes with the line [</body>]. *)

Definition is_body_open (line : string) : bool := String.prefix "<body " line.
Definition is_body_close (line : string) : bool := String.eqb line "</body>".

(** The opening lines of bodies with their nesting depth, reading [lines]
    from nesting depth [k]. *)
Fixpoint body_depths (k : nat) (lines : list string) : list (string * nat) :=
  match lines with
  | [] => []
  | line :: lines' =>
      if is_body_open line then (line, k) :: body_depths (S k) lines'
      else if is_body_close line then body_depths (pred k) lines'
      else body_depths k lines'
  end.

(** The nesting depth after [lines]. *)
Fixpoint end_depth (k : nat) (lines : list string) : nat :=
  match lines with
  | [] => k
  | line :: lines' =>
      if is_body_open line then end_depth (S k) lines'
      else if is_body_close line then end_depth (pred k) lines'
      else end_depth k lines'
  end.

(** A line that neither opens nor closes a body. *)
Definition neutral (line : string) : Prop :=
  is_body_open line = false ∧ is_body_close line = false.

(** A computation that, whatever its outcome, only appends neutral lines. *)
Definition quiet {A} (m : M A) : Prop :=
  ∀ self, ∃ out, xml (snd (m self)) = (xml self ++ out)%list ∧ Forall neutral out.

(** A computation that raises nothing but exceptions in [E]. *)
Definition raises_only {A} (E : exn → Prop) (m : M A) : Prop :=
  ∀ self e self', m self = (Raise e, self') → E e.

(** How many of [lines] are the line [line]. *)
Definition count_line (line : string) (lines : list string) : nat :=
  length (filter (λ l, l = line) lines).

(** A geometry node of a given class, from [add_mesh] or from [add_shapes]. *)
Definition is_geom_of_class (class_ : string) (line : string) : bool :=
  String.prefix ("<geom type=" +:+ quoted "mesh" +:+ " class=" +:+ quoted class_) line
  || String.prefix ("<geom class=" +:+ quoted class_) line.

(** ** Robots whose joints form a tree

    [d] gives the depth of each link.  The links are distinct objects, the
    joints connect links of the robot, every link but the base link is the
    child of exactly one joint, and a joint goes one level down. *)
Record is_tree (robot : Robot) (d : Link → nat) : Prop := {
  tree_ids : NoDup (map link_id (links robot));
  tree_base : get_base_link robot ∈ links robot;
  tree_parent : ∀ j, j ∈ joints robot → parent j ∈ links robot;
  tree_child : ∀ j, j ∈ joints robot → child j ∈ links robot;
  tree_some_joint :
    ∀ l, l ∈ links robot → l ≠ get_base_link robot →
         ∃ j, j ∈ joints robot ∧ child j = l;
  tree_one_joint : NoDup (map child (joints robot));
  tree_depth_base : d (get_base_link robot) = 0;
  tree_depth_joint : ∀ j, j ∈ joints robot → d (child j) = S (d (parent j))
}.

(** The joint that leads to a link, if any. *)
Definition incoming (robot : Robot) (link : Link) : option Joint :=
  List.find (λ j, Nat.eqb (link_id (child j)) (link_id link)) (joints robot).

(** The world transform of a body reached through [parent_joint]. *)
Definition T_world_of (parent_joint : option Joint) : mat4 :=
  match parent_joint with
  | None => np_eye4
  | Some j => T_world_joint j
  end.

(** The world transform of the parent body of a link; for the base link,
    the default value of the argument [T_world_parent]. *)
Definition T_world_parent_of (robot : Robot) (link : Link) : mat4 :=
  match incoming robot link with
  | None => np_eye4
  | Some j => T_world_of (incoming robot (parent j))
  end.

(** The calls of [add_link] made from one call, in order: link, incoming
    joint, [T_world_parent] and depth of nesting of the call. *)
Record visit := mkVisit {
  v_link : Link;
  v_joint : option Joint;
  v_T_world_parent : mat4;
  v_depth : nat
}.

Fixpoint visits (depth : nat) (robot : Robot) (link : Link)
    (parent_joint : option Joint) (T_world_parent : mat4) (k : nat) : list visit :=
  match depth with
  | O => []
  | S depth' =>
      mkVisit link parent_joint T_world_parent k
      :: (get_link_joints robot link
          ≫= λ j, visits depth' robot (child j) (Some j)
                         (T_world_of parent_joint) (S k))
  end.

(** The opening line of the body of a visit. *)
Definition visit_body (v : visit) : string :=
  body_open (v_link v)
    (matmul (np_linalg_inv (v_T_world_parent v)) (T_world_of (v_joint v))).

(** The property lookups of [add_joint] succeed on a joint: a joint with a
    [friction] property also has a [frictionloss] property. *)
Definition joint_lookups_ok (j : Joint) : Prop :=
  properties j !! "friction" ≠ None → properties j !! "frictionloss" ≠ None.

End Model.

Notation "'let*' x ':=' m 'in' k" := (bind m (λ x, k))
  (at level 10, x name, m at level 100, k at level 200).
Notation "m '>>' k" := (bind m (λ _, k))
  (at level 100, k at level 200, right associativity).

(** ** A concrete environment for running the exporter

    Floats are the integer-valued ones (for which ["%.20g"] prints the integer
    and [str] prints it with [.0]); transforms are the pure translations,
    given by their offset, whose quaternion is the identity (1, 0, 0, 0);
    [set] enumerates in order of first occurrence. *)

Definition run_env : Env :=
  {| float := Z;
     fmt_g20 := str_int;
     str_float := λ z, str_int z +:+ ".0";
     float_truth := λ z, negb (Z.eqb z 0);
     half := λ z, (z / 2)%Z;
     mat4 := Z * Z * Z;
     np_eye4 := (0, 0, 0)%Z;
     np_linalg_inv := λ '(x, y, z), (- x, - y, - z)%Z;
     matmul := λ '(a, b, c) '(x, y, z), (a + x, b + y, c + z)%Z;
     mat_pos := λ t, t;
     mat_quat := λ _, (1, 0, 0, 0)%Z;
     xml_escape := λ s, s;
     warning := λ s, "WARNING: " +:+ s;
     set_iter := remove_dups;
     set_iter_NoDup := NoDup_remove_dups;
     set_iter_elem := elem_of_remove_dups |}.

Definition no_dyn : @mat4 run_env → Z * (Z * Z * Z) * (nat → nat → Z) :=
  λ _, (0, (0, 0, 0), λ _ _, 0)%Z.

(** A part with a mesh and no primitive shape. *)
Definition mesh_part : @Part run_env :=
  @mkPart run_env "arm" (Some "assets/arm.stl") None (1, 0, 0)%Z (0, 0, 1)%Z.

Definition L0 : @Link run_env := @mkLink run_env 0 "L0" [] [] no_dyn.
Definition L0m : @Link run_env := @mkLink run_env 0 "L0" [mesh_part] [] no_dyn.
Definition robot_mesh : @Robot run_env := @mkRobot run_env "r" [L0m] [] L0m.
Definition robot_bare : @Robot run_env := @mkRobot run_env "r" [L0] [] L0.

Definition cfg_shapes_only : Config :=
  mkConfig false true false "" "v1".


(** ** Concrete robots for running the exporter *)

(** A part with one box of size (2, 2, 2) and no mesh. *)
Definition box_part : @Part run_env :=
  @mkPart run_env "box" None
    (Some [@Box run_env (2, 2, 2)%Z (0, 0, 0)%Z]) (0, 1, 0)%Z (0, 0, 0)%Z.

(** Another part with a mesh file of the same base name as [mesh_part]. *)
Definition mesh_part2 : @Part run_env :=
  @mkPart run_env "arm2" (Some "other/arm.stl") None (0, 0, 1)%Z (0, 0, 2)%Z.

Definition L1 : @Link run_env := @mkLink run_env 1 "L1" [box_part] [] no_dyn.

(** A revolute joint from [L0] to [L1], one unit up. *)
Definition J1 : @Joint run_env :=
  @mkJoint run_env "J1" REVOLUTE L0 L1 (0, 0, 1)%Z ∅ None.

(** The base link [L0] and its child [L1]. *)
Definition robot2 : @Robot run_env := @mkRobot run_env "r2" [L0; L1] [J1] L0.

(** A fixed joint whose only property is [friction]. *)
Definition J_fixed_friction : @Joint run_env :=
  @mkJoint run_env "J1" FIXED L0 L1 (0, 0, 1)%Z
    {[ "friction" := @PInt run_env 1 ]} None.

Definition robot_fixed : @Robot run_env :=
  @mkRobot run_env "r3" [L0; L1] [J_fixed_friction] L0.

(** An actuated joint with an effort limit of 10 and motion limits. *)
Definition J_effort : @Joint run_env :=
  @mkJoint run_env "J1" REVOLUTE L0 L1 (0, 0, 1)%Z
    {[ "effort" := @PInt run_env 10 ]} (Some (- 1, 1)%Z).

(** A joint that is not actuated. *)
Definition J_passive : @Joint run_env :=
  @mkJoint run_env "J2" REVOLUTE L0 L1 (0, 0, 1)%Z
    {[ "actuated" := @PBool run_env false ]} None.

Definition robot_actuated : @Robot run_env :=
  @mkRobot run_env "r4" [L0; L1] [J_effort; J_passive] L0.

(** A revolute joint whose only property is [friction]. *)
Definition J_friction : @Joint run_env :=
  @mkJoint run_env "J1" REVOLUTE L0 L1 (0, 0, 1)%Z
    {[ "friction" := @PInt run_env 1 ]} None.

(** A symmetric inertia tensor with diagonal (1, 2, 3) and off-diagonal
    entries xy = 4, xz = 5, yz = 6. *)
Definition inertia_123_456 (i j : nat) : Z :=
  match i, j with
  | 0, 0 => 1%Z | 1, 1 => 2%Z | 2, 2 => 3%Z
  | 0, 1 | 1, 0 => 4%Z
  | 0, 2 | 2, 0 => 5%Z
  | 1, 2 | 2, 1 => 6%Z
  | _, _ => 0%Z
  end.

(** ** More readings of the exporter and of its lines *)

Section Readings.
Context `{Env}.

(** The exporter [self'] extends [self]: same configuration, and the
    lines, the mesh files, the material names and the console of [self] are
    the beginning of those of [self']. *)
Definition extends (self self' : ExporterMuJoCo) : Prop :=
  config self' = config self
  ∧ draw_collisions self' = draw_collisions self
  ∧ no_dynamics self' = no_dynamics self
  ∧ additional_xml self' = additional_xml self
  ∧ collision_shapes_only self' = collision_shapes_only self
  ∧ xml self `prefix_of` xml self'
  ∧ meshes self `prefix_of` meshes self'
  ∧ (materials self).*1 `prefix_of` (materials self').*1
  ∧ stdout self `prefix_of` stdout self'.

(** A computation after which the exporter extends the one before,
    whatever the outcome. *)
Definition extending {A} (m : M A) : Prop := ∀ self, extends self (snd (m self)).

(** The nesting depth after [lines], read from depth [k]; [None] when a
    body is closed that was not opened. *)
Fixpoint nesting (k : nat) (lines : list string) : option nat :=
  match lines with
  | [] => Some k
  | line :: lines' =>
      if is_body_open line then nesting (S k) lines'
      else if is_body_close line then
        match k with
        | O => None
        | S k' => nesting k' lines'
        end
      else nesting k lines'
  end.


(** A string without the character [c]. *)
Fixpoint without (c : ascii) (s : string) : bool :=
  match s with
  | EmptyString => true
  | String a s' => negb (Ascii.eqb a c) && without c s'
  end.

(** The geometry node that [add_mesh] writes for a part with mesh file
    [path]. *)
Definition mesh_geom (part : Part) (path : string) (class_ : string)
    (T_world_link : mat4) : string :=
  "<geom type=" +:+ quoted "mesh" +:+ " class=" +:+ quoted class_ +:+ " "
  +:+ pos_quat (matmul (np_linalg_inv T_world_link) (T_world_part part)) +:+ " "
  +:+ "mesh=" +:+ quoted (xml_escape (strip_ext (basename path))) +:+ " "
  +:+ "material="
  +:+ quoted (xml_escape (strip_ext (basename path) +:+ "_material")) +:+ " "
  +:+ " />".


(** The start of a line up to its first space: the tag of an element,
    [<!--] for a comment. *)
Fixpoint tag (s : string) : string :=
  match s with
  | EmptyString => EmptyString
  | String a s' => if Ascii.eqb a " " then EmptyString else String a (tag s')
  end.

(** How many of [lines] have the tag [t]. *)
Definition count_tag (t : string) (lines : list string) : nat :=
  length (List.filter (λ line, String.eqb (tag line) t) lines).

(** A computation that, whatever its outcome, only appends lines that
    satisfy [Q]. *)
Definition writes {A} (Q : string → Prop) (m : M A) : Prop :=
  ∀ self, ∃ out, xml (snd (m self)) = (xml self ++ out)%list ∧ Forall Q out.

(** What a call does to the exporter: the lines it appends, the mesh files
    it registers, the materials it assigns, in order, and what it prints. *)
Record effect := mkEffect {
  e_lines : list string;
  e_meshes : list string;
  e_materials : list (string * vec3);
  e_prints : list string
}.

(** [self.materials[name] = color] for each entry of [ops], in order. *)
Definition write_materials (ops : list (string * vec3))
    (d : list (string * vec3)) : list (string * vec3) :=
  foldl (λ d '(name, color), dict_set name color d) d ops.

Definition apply_effect (ef : effect) (self : ExporterMuJoCo) : ExporterMuJoCo :=
  mkExporter (config self) (draw_collisions self) (no_dynamics self)
    (additional_xml self) (meshes self ++ e_meshes ef)
    (write_materials (e_materials ef) (materials self))
    (collision_shapes_only self) (xml self ++ e_lines ef)
    (stdout self ++ e_prints ef).

(** A computation whose outcome and effect are the same on every exporter
    with the settings [drawCollisions = d] and [collision_shapes_only = o]. *)
Definition uniform {A} (d o : bool) (m : M A) : Prop :=
  ∃ res ef, ∀ self,
    draw_collisions self = d → collision_shapes_only self = o →
    m self = (res, apply_effect ef self).

End Readings.

(** ** Writing the files ([write_xml])

    [write_xml] reads the scene template that comes with the package, calls
    the method of the same name of the base class [Exporter], and writes the
    template as [scene.xml] beside the file of the robot.  The file system is
    a map from paths to contents.  The base class is not part of this file of
    the repository: its [write_xml], the directory of the module
    ([os.path.dirname(os.path.realpath(__file__))]), [success] of the module
    [message] and whether a file can be opened for writing are the variables
    of the section. *)

(** [s[:s.rfind(c) + 1]]: [s] up to its last [c], included. *)
Fixpoint upto_last (c : ascii) (s : string) : string :=
  match s with
  | EmptyString => EmptyString
  | String a s' =>
      match upto_last c s' with
      | EmptyString => if Ascii.eqb a c then String a EmptyString else EmptyString
      | r => String a r
      end
  end.

(** [s.rstrip(c)] *)
Fixpoint rstrip (c : ascii) (s : string) : string :=
  match s with
  | EmptyString => EmptyString
  | String a s' =>
      match rstrip c s' with
      | EmptyString => if Ascii.eqb a c then EmptyString else String a EmptyString
      | r => String a r
      end
  end.

(** [c * n] *)
Fixpoint times (c : ascii) (n : nat) : string :=
  match n with
  | O => EmptyString
  | S n' => String c (times c n')
  end.

(** [os.path.dirname(p)] of [posixpath]. *)
Definition dirname (p : string) : string :=
  let head := upto_last "/" p in
  if negb (String.eqb head "") && negb (String.eqb head (times "/" (String.length head)))
  then rstrip "/" head
  else head.

(** What [write_xml] raises: the [OSError] of a file that cannot be opened,
    or an exception of the base class. *)
Inductive write_exn (super_exn : Type) :=
| OSError (path : string)
| SuperRaised (e : super_exn).
Arguments OSError {super_exn} path.
Arguments SuperRaised {super_exn} e.

Section WriteXml.
Context `{Env}.

(** The exporter object and the files. *)
Record World := mkWorld {
  exporter : ExporterMuJoCo;
  files : gmap string string
}.

Variable module_dir : string.
Variable success : string → string.
Variable super_exn : Type.
Variable super_write_xml : Robot → string → World → option super_exn * World.
Variable can_write : World → string → bool.

(** [None] when the call returns. *)
Definition write_xml (robot : Robot) (filename : string) (w : World)
    : option (write_exn super_exn) * World :=
  let scene_xml := module_dir +:+ "/assets/scene.xml" in
  match files w !! scene_xml with
  | None => (Some (OSError scene_xml), w)
  | Some scene_xml =>
      match super_write_xml robot filename w with
      | (Some e, w1) => (Some (SuperRaised e), w1)
      | (None, w1) =>
          let dirname := dirname filename in
          if can_write w1 (dirname +:+ "/scene.xml") then
            (None,
             mkWorld
               (snd (print (success ("* Writing " +:+ dirname +:+ "/scene.xml"))
                       (exporter w1)))
               (<[dirname +:+ "/scene.xml" := scene_xml]> (files w1)))
          else (Some (OSError (dirname +:+ "/scene.xml")), w1)
      end
  end.

End WriteXml.

(** ** More concrete robots and files *)

(** A joint from [L1] back to [L0]: with [J1], a cycle. *)
Definition J_back : @Joint run_env :=
  @mkJoint run_env "J_back" REVOLUTE L1 L0 (0, 0, 0)%Z ∅ None.

Definition robot_cycle : @Robot run_env :=
  @mkRobot run_env "cycle" [L0; L1] [J1; J_back] L0.

(** A second joint from [L0] to [L1]: [L1] is reached twice. *)
Definition J1b : @Joint run_env :=
  @mkJoint run_env "J1b" PRISMATIC L0 L1 (0, 1, 0)%Z ∅ None.

Definition robot_double : @Robot run_env :=
  @mkRobot run_env "double" [L0; L1] [J1; J1b] L0.

(** A part whose mesh file has no extension. *)
Definition raw_part : @Part run_env :=
  @mkPart run_env "raw" (Some "meshes/arm") None (0, 0, 1)%Z (0, 0, 0)%Z.

(** A base link with two frames, and its child [L1]. *)
Definition L0f : @Link run_env :=
  @mkLink run_env 0 "L0" [mesh_part]
    [("tip", (0, 0, 2)%Z); ("foot", (0, 0, -1)%Z)] no_dyn.

Definition J1f : @Joint run_env :=
  @mkJoint run_env "J1" REVOLUTE L0f L1 (0, 0, 1)%Z ∅ None.

Definition robot_frames : @Robot run_env :=
  @mkRobot run_env "frames" [L0f; L1] [J1f] L0f.

(** A file system with the scene template of the package, and a base class
    whose [write_xml] writes the document that [build] returns. *)
Definition world0 : @World run_env :=
  @mkWorld run_env (@init run_env None) {[ "/pkg/assets/scene.xml" := "<scene/>" ]}.

Definition exporter_write_xml (robot : @Robot run_env) (filename : string)
    (w : @World run_env) : option exn * @World run_env :=
  match @build run_env 100 robot (@exporter run_env w) with
  | (Ok doc, self') => (None, @mkWorld run_env self' (<[filename := doc]> (@files run_env w)))
  | (Raise e, self') => (Some e, @mkWorld run_env self' (@files run_env w))
  end.

(** A joint with a negative effort limit. *)
Definition J_neg_effort : @Joint run_env :=
  @mkJoint run_env "J1" REVOLUTE L0 L1 (0, 0, 1)%Z
    {[ "effort" := @PInt run_env (-5) ]} None.

Definition robot_neg_effort : @Robot run_env :=
  @mkRobot run_env "r5" [L0; L1] [J_neg_effort] L0.
(** * Properties *)

(** ** Strings *)

Lemma append_cons (x : ascii) (a b : string) :
  String x a +:+ b = String x (a +:+ b).
Proof. reflexivity. Qed.

Lemma append_nil_l (b : string) : "" +:+ b = b.
Proof. reflexivity. Qed.

Lemma append_assoc (a b c : string) : (a +:+ b) +:+ c = a +:+ (b +:+ c).
Proof.
  induction a as [|x a IH]; [done|]. rewrite !append_cons. by f_equal.
Qed.

Lemma append_nil_r (a : string) : a +:+ "" = a.
Proof.
  induction a as [|x a IH]; [done|]. rewrite append_cons. by f_equal.
Qed.

Create Rewrite HintDb str.
#[export] Hint Rewrite append_assoc append_cons append_nil_l append_nil_r : str.

Section Properties.
Context `{Env}.

(** ** Running the monad *)

Lemma bind_Ok {A B} (m : M A) (k : A → M B) self a self' :
  m self = (Ok a, self') → bind m k self = k a self'.
Proof. intros E. unfold bind. by rewrite E. Qed.

Lemma bind_Raise {A B} (m : M A) (k : A → M B) self e self' :
  m self = (Raise e, self') → bind m k self = (Raise e, self').
Proof. intros E. unfold bind. by rewrite E. Qed.

Lemma bind_Ok_inv {A B} (m : M A) (k : A → M B) self b self' :
  bind m k self = (Ok b, self') →
  ∃ a self1, m self = (Ok a, self1) ∧ k a self1 = (Ok b, self').
Proof.
  unfold bind. destruct (m self) as [[a|e] self1]; intros E.
  - by exists a, self1.
  - discriminate.
Qed.

Lemma append_run line self :
  append line self = (Ok tt, set_xml (xml self ++ [line]) self).
Proof. reflexivity. Qed.

Lemma set_xml_same self : set_xml (xml self) self = self.
Proof. by destruct self. Qed.

Lemma set_xml_twice v w self : set_xml v (set_xml w self) = set_xml v self.
Proof. reflexivity. Qed.

(** A loop whose body only appends one line per element. *)
Lemma for_each_append {A} (l : list A) (f : A → string) self :
  for_each l (λ x, append (f x)) self
  = (Ok tt, set_xml (xml self ++ map f l) self).
Proof.
  revert self. induction l as [|x l IH]; intros self; simpl.
  - unfold ret. by rewrite app_nil_r, set_xml_same.
  - erewrite bind_Ok by apply append_run. rewrite IH, set_xml_twice.
    simpl. by rewrite <- app_assoc.
Qed.

(** ** Inertial node (add_inertial) *)

(** C7. The inertial node carries the position, the mass and the six
    independent entries of the inertia tensor in the order xx, yy, zz, xy, xz,
    yz: [add_inertial] appends exactly one line, whose [fullinertia]
    attribute lists [inertia[0,0]], [inertia[1,1]], [inertia[2,2]],
    [inertia[0,1]], [inertia[0,2]], [inertia[1,2]] in that order, and it
    touches nothing else of the exporter. *)
Theorem add_inertial_order (mass cx cy cz : float) (inertia : nat → nat → float)
    (self : ExporterMuJoCo) :
  let node :=
    "<inertial pos="
    +:+ quoted (fmt_g20 cx +:+ " " +:+ fmt_g20 cy +:+ " " +:+ fmt_g20 cz)
    +:+ " mass=" +:+ quoted (fmt_g20 mass)
    +:+ " fullinertia="
    +:+ quoted (fmt_g20 (inertia 0 0) +:+ " " +:+ fmt_g20 (inertia 1 1) +:+ " "
                +:+ fmt_g20 (inertia 2 2) +:+ " " +:+ fmt_g20 (inertia 0 1) +:+ " "
                +:+ fmt_g20 (inertia 0 2) +:+ " " +:+ fmt_g20 (inertia 1 2))
    +:+ "  />" in
  add_inertial mass (cx, cy, cz) inertia self
  = (Ok tt, set_xml (xml self ++ [node]) self).
Proof.
  intros node. unfold add_inertial. rewrite append_run. do 3 f_equal.
  unfold node, quoted, dq. by autorewrite with str.
Qed.

(** ** Primitive shapes (add_shapes) *)

(** C9. Every geometry node emitted for a primitive shape carries, as size,
    the half-extents [size / 2] for a box, the radius and the half-length
    [length / 2] for a cylinder, and the radius for a sphere: for a part with
    a list of shapes, [add_shapes] appends one node per shape, in order, of
    the form given by [node]. *)
Theorem add_shapes_sizes (part : Part) (class_ : string) (T_world_link : mat4)
    (l : list Shape) (self : ExporterMuJoCo) :
  shapes part = Some l →
  let kind shape :=
    match shape with
    | Box _ _ => "box" | Cylinder _ _ _ => "cylinder" | Sphere _ _ => "sphere"
    end in
  let size shape :=
    match shape with
    | Box (sx, sy, sz) _ =>
        fmt_g20 (half sx) +:+ " " +:+ fmt_g20 (half sy) +:+ " " +:+ fmt_g20 (half sz)
    | Cylinder radius length _ => fmt_g20 radius +:+ " " +:+ fmt_g20 (half length)
    | Sphere radius _ => fmt_g20 radius
    end in
  let material :=
    if String.eqb class_ "visual"
    then "material=" +:+ quoted (xml_escape (part_name part +:+ "_material")) +:+ " "
    else "" in
  let node shape :=
    "<geom class=" +:+ quoted class_ +:+ " "
    +:+ pos_quat (matmul (matmul (np_linalg_inv T_world_link) (T_world_part part))
                         (T_part_shape shape))
    +:+ " type=" +:+ quoted (kind shape) +:+ " size=" +:+ quoted (size shape)
    +:+ " " +:+ material +:+ " />" in
  ∃ self', add_shapes part class_ T_world_link self = (Ok tt, self')
           ∧ xml self' = (xml self ++ map node l)%list.
Proof.
  intros Hl kind size material node. unfold add_shapes. rewrite Hl. clear Hl.
  revert self. induction l as [|shape l IH]; intros self; simpl.
  - exists self. by rewrite app_nil_r.
  - assert (∃ self1, add_shape part class_ T_world_link shape self = (Ok tt, self1)
                     ∧ xml self1 = (xml self ++ [node shape])%list) as (self1 & E1 & X1).
    { unfold add_shape, node, material.
      destruct (String.eqb class_ "visual").
      - eexists. split; [reflexivity|]. simpl. do 2 f_equal.
        destruct shape as [[[sx sy] sz] T|r len T|r T]; unfold shape_type_size; simpl;
          by autorewrite with str.
      - eexists. split; [reflexivity|]. simpl. do 2 f_equal.
        destruct shape as [[[sx sy] sz] T|r len T|r T]; unfold shape_type_size; simpl;
          by autorewrite with str. }
    erewrite bind_Ok by exact E1.
    destruct (IH self1) as (self' & E & X). exists self'. split; [done|].
    rewrite X, X1, <- app_assoc. reflexivity.
Qed.

(** ** Actuators (add_actuators) *)

(** C4, as the code has it. The actuator section holds, for the joints in
    the order of the robot's joint list, one element per joint whose
    [actuated] property is absent or true (Python truth value: [False],
    [None], zero and the empty string are false), and none for the others.
    The element is named after the text of the [type] property ([position]
    when absent); the gains [class], [kp], [kd], [ki] are copied; an [effort]
    property [e] gives [forcerange] a minus sign before the text of [e], a
    space and the text of [e]; motion limits are copied as [ctrlrange] when
    the type is the string [position].  The lower bound written is the text
    of [-e], so the range is the symmetric one from [-e] to [e], when [e] is
    a positive integer; it is not for an integer [e] that is zero or
    negative. *)
Theorem add_actuators_elements (robot : Robot) (self : ExporterMuJoCo) :
  let text v :=
    match v with
    | PNone => "None"
    | PBool true => "True"
    | PBool false => "False"
    | PInt z => NilZero.string_of_int (Z.to_int z)
    | PFloat x => str_float x
    | PStr s => s
    end in
  let actuated joint :=
    match properties joint !! "actuated" with
    | None => true
    | Some PNone => false
    | Some (PBool b) => b
    | Some (PInt z) => negb (Z.eqb z 0)
    | Some (PFloat x) => float_truth x
    | Some (PStr s) => negb (String.eqb s "")
    end in
  let type joint :=
    match properties joint !! "type" with
    | Some v => v
    | None => PStr "position"
    end in
  let gain joint key :=
    match properties joint !! key with
    | Some v => key +:+ "=" +:+ quoted (text v) +:+ " "
    | None => ""
    end in
  let forcerange joint :=
    match properties joint !! "effort" with
    | Some e => "forcerange=" +:+ quoted ("-" +:+ text e +:+ " " +:+ text e) +:+ " "
    | None => ""
    end in
  let ctrlrange joint :=
    match limits joint, type joint with
    | Some (lo, hi), PStr s =>
        if String.eqb s "position"
        then "ctrlrange=" +:+ quoted (str_float lo +:+ " " +:+ str_float hi) +:+ " "
        else ""
    | _, _ => ""
    end in
  let element joint :=
    "<" +:+ text (type joint) +:+ " name=" +:+ quoted (joint_name joint)
    +:+ " joint=" +:+ quoted (joint_name joint) +:+ " "
    +:+ gain joint "class" +:+ gain joint "kp" +:+ gain joint "kd" +:+ gain joint "ki"
    +:+ forcerange joint +:+ ctrlrange joint +:+ "/>" in
  add_actuators robot self
  = (Ok tt,
     set_xml (xml self
              ++ "<actuator>"
                 :: flat_map (λ joint, if actuated joint then [element joint] else [])
                             (joints robot)
              ++ ["</actuator>"]) self)
  ∧ (∀ z, (0 < z)%Z → "-" +:+ text (PInt z) = text (PInt (- z)))
  ∧ (∀ z, (z ≤ 0)%Z → "-" +:+ text (PInt z) ≠ text (PInt (- z))).
Proof.
  intros text actuated type gain forcerange ctrlrange element.
  split; [|split].
  2: { intros [|p|p] Hz; [lia | reflexivity | lia]. }
  2: { intros [|p|p] Hz; [|lia|].
       - intros E. vm_compute in E. discriminate E.
       - unfold text. change (- Z.neg p)%Z with (Z.pos p).
         cbn [Z.to_int NilZero.string_of_int]. rewrite append_cons.
         unfold NilZero.string_of_uint. destruct (Pos.to_uint p); discriminate. }
  assert (∀ v, py_str v = text v) as Htext by (by intros [| [] | | |]).
  assert (∀ j, py_truth (default (PBool true) (properties j !! "actuated")) = actuated j)
    as Hact.
  { intros j. unfold actuated. by destruct (properties j !! "actuated") as [[]|]. }
  assert (∀ j, default (PStr "position") (properties j !! "type") = type j) as Htype.
  { intros j. unfold type. by destruct (properties j !! "type"). }
  assert (∀ j, actuator_element j = element j) as Helem.
  { intros j. unfold actuator_element, element, actuator_gain, actuator_forcerange,
      actuator_ctrlrange, gain, forcerange, ctrlrange. cbn [fold_left].
    rewrite Htype, !Htext.
    assert (match limits j with
            | Some (lo, hi) =>
                if py_eq_str (type j) "position"
                then "ctrlrange=" +:+ quoted (str_float lo +:+ " " +:+ str_float hi) +:+ " "
                else ""
            | None => ""
            end
            = match limits j, type j with
              | Some (lo, hi), PStr s =>
                  if String.eqb s "position"
                  then "ctrlrange=" +:+ quoted (str_float lo +:+ " " +:+ str_float hi)
                       +:+ " "
                  else ""
              | _, _ => ""
              end) as ->.
    { destruct (limits j) as [[lo hi]|]; [|done]. by destruct (type j). }
    assert (∀ key,
      match properties j !! key with
      | Some v => key +:+ "=" +:+ quoted (py_str v) +:+ " "
      | None => ""
      end
      = match properties j !! key with
        | Some v => key +:+ "=" +:+ quoted (text v) +:+ " "
        | None => ""
        end) as Hgain.
    { intros key. destruct (properties j !! key); [by rewrite Htext | done]. }
    rewrite !Hgain.
    assert (match properties j !! "effort" with
            | Some e => "forcerange=" +:+ quoted ("-" +:+ py_str e +:+ " " +:+ py_str e)
                        +:+ " "
            | None => ""
            end
            = match properties j !! "effort" with
              | Some e => "forcerange=" +:+ quoted ("-" +:+ text e +:+ " " +:+ text e)
                          +:+ " "
              | None => ""
              end) as ->.
    { destruct (properties j !! "effort"); [by rewrite !Htext | done]. }
    by rewrite !append_assoc. }
  unfold add_actuators. erewrite bind_Ok by apply append_run.
  assert (∀ js self0,
    for_each js add_actuator self0
    = (Ok tt, set_xml (xml self0 ++ flat_map
         (λ joint, if actuated joint then [element joint] else []) js) self0)) as Hloop.
  { induction js as [|j js IH]; intros self0; simpl.
    - unfold ret. by rewrite app_nil_r, set_xml_same.
    - assert (add_actuator j self0
              = (Ok tt, set_xml (xml self0 ++ (if actuated j then [element j] else [])) self0))
        as Ej.
      { unfold add_actuator. rewrite Hact, Helem. destruct (actuated j).
        - by rewrite append_run.
        - unfold ret. by rewrite app_nil_r, set_xml_same. }
      erewrite bind_Ok by exact Ej. rewrite IH, set_xml_twice. simpl.
      by rewrite <- app_assoc. }
  erewrite bind_Ok by apply Hloop. rewrite append_run, !set_xml_twice. simpl.
  do 2 f_equal. rewrite <- !app_assoc. reflexivity.
Qed.

(** ** Lines that leave the nesting of bodies alone *)

Lemma quiet_ret {A} (a : A) : quiet (ret a).
Proof. intros self. exists []. by rewrite app_nil_r. Qed.

Lemma quiet_raise {A} e : quiet (raise (A:=A) e).
Proof. intros self. exists []. by rewrite app_nil_r. Qed.

Lemma quiet_lift {A} (o : outcome A) : quiet (lift o).
Proof. intros self. exists []. by rewrite app_nil_r. Qed.

Lemma quiet_get_self : quiet get_self.
Proof. intros self. exists []. by rewrite app_nil_r. Qed.

Lemma quiet_modify f : (∀ self, xml (f self) = xml self) → quiet (modify f).
Proof. intros Hf self. exists []. simpl. by rewrite Hf, app_nil_r. Qed.

Lemma quiet_print line : quiet (print line).
Proof. by apply quiet_modify. Qed.

Lemma quiet_append line : neutral line → quiet (append line).
Proof. intros Hn self. exists [line]. split; [done|]. by constructor. Qed.

Lemma quiet_bind {A B} (m : M A) (k : A → M B) :
  quiet m → (∀ a, quiet (k a)) → quiet (bind m k).
Proof.
  intros Hm Hk self. destruct (Hm self) as (out1 & X1 & N1).
  unfold bind. destruct (m self) as [[a|e] self1]; simpl in *.
  - destruct (Hk a self1) as (out2 & X2 & N2). exists (out1 ++ out2)%list.
    split; [by rewrite X2, X1, app_assoc | by apply Forall_app].
  - by exists out1.
Qed.

Lemma quiet_for_each {A} (l : list A) (body : A → M unit) :
  (∀ x, x ∈ l → quiet (body x)) → quiet (for_each l body).
Proof.
  induction l as [|x l IH]; intros Hb; simpl.
  - apply quiet_ret.
  - apply quiet_bind.
    + apply Hb. by left.
    + intros _. apply IH. intros y Hy. apply Hb. by right.
Qed.

Ltac neutral_line := split; reflexivity.

Lemma joint_attrs_prefix props keys acc x :
  joint_attrs props keys acc = Ok x → ∃ suffix, x = acc +:+ suffix.
Proof.
  revert acc. induction keys as [|key keys IH]; intros acc; simpl.
  - intros [= <-]. exists "". by rewrite append_nil_r.
  - destruct (joint_attr props key) as [a|e]; [|done].
    intros E. destruct (IH _ E) as (suffix & ->).
    exists (a +:+ suffix). by rewrite append_assoc.
Qed.

Lemma quiet_bind_post {A B} (P : A → Prop) (m : M A) (k : A → M B) :
  (∀ self a self', m self = (Ok a, self') → P a) →
  quiet m → (∀ a, P a → quiet (k a)) → quiet (bind m k).
Proof.
  intros HP Hm Hk self. destruct (Hm self) as (out1 & X1 & N1).
  unfold bind. destruct (m self) as [[a|e] self1] eqn:E; simpl in *.
  - destruct (Hk a (HP _ _ _ E) self1) as (out2 & X2 & N2).
    exists (out1 ++ out2)%list.
    split; [by rewrite X2, X1, app_assoc | by apply Forall_app].
  - by exists out1.
Qed.

Lemma quiet_add_joint joint : quiet (add_joint joint).
Proof.
  unfold add_joint. apply quiet_bind; [apply quiet_append; neutral_line|].
  intros _.
  apply (quiet_bind_post (λ a, ∃ rest, a = "<joint " +:+ rest)).
  - intros self a self'. destruct (joint_type joint); simpl.
    + intros [= <- _]. eexists. by rewrite !append_assoc.
    + intros [= <- _]. eexists. by rewrite !append_assoc.
    + intros [= <- _]. eexists. by rewrite !append_assoc.
  - destruct (joint_type joint); try apply quiet_ret.
    apply quiet_bind; [apply quiet_print|]. intros _. apply quiet_ret.
  - intros a (rest & ->).
    apply (quiet_bind_post (λ x, ∃ rest, x = "<joint " +:+ rest)).
    + intros self x self'. unfold lift. intros E.
      pose proof (f_equal fst E) as E1. cbn [fst] in E1.
      apply joint_attrs_prefix in E1 as (suffix & ->).
      eexists. by rewrite append_assoc.
    + apply quiet_lift.
    + intros x (rest' & ->). apply quiet_append. neutral_line.
Qed.

Lemma quiet_add_inertial mass com inertia : quiet (add_inertial mass com inertia).
Proof.
  unfold add_inertial. destruct com as [[cx cy] cz].
  apply quiet_append. neutral_line.
Qed.

Lemma quiet_add_mesh part class_ T : quiet (add_mesh part class_ T).
Proof.
  unfold add_mesh. destruct (mesh_file part); [|apply quiet_raise].
  apply quiet_bind; [apply quiet_append; neutral_line|]. intros _.
  apply quiet_bind; [by apply quiet_modify|]. intros _.
  apply quiet_bind; [by apply quiet_modify|]. intros _.
  apply quiet_append. neutral_line.
Qed.

Lemma quiet_add_shape part class_ T shape : quiet (add_shape part class_ T shape).
Proof.
  unfold add_shape. destruct (String.eqb class_ "visual").
  - apply quiet_bind; [by apply quiet_modify|]. intros _.
    apply quiet_append. neutral_line.
  - apply quiet_append. neutral_line.
Qed.

Lemma quiet_add_geometries part T class_ what :
  quiet (add_geometries part T class_ what).
Proof.
  unfold add_geometries. apply quiet_bind; [apply quiet_get_self|]. intros self.
  destruct (_ && _).
  - unfold add_shapes. destruct (shapes part); [|apply quiet_raise].
    apply quiet_for_each. intros. apply quiet_add_shape.
  - destruct (_ && _); [apply quiet_add_mesh | apply quiet_ret].
Qed.

Lemma quiet_add_part part T : quiet (add_part part T).
Proof.
  unfold add_part. apply quiet_bind; [apply quiet_append; neutral_line|]. intros _.
  apply quiet_bind; [apply quiet_get_self|]. intros self.
  apply quiet_bind; [apply quiet_add_geometries|]. intros _.
  apply quiet_add_geometries.
Qed.

Lemma quiet_add_frame link frame T Tf : quiet (add_frame link frame T Tf).
Proof.
  unfold add_frame. apply quiet_bind; [apply quiet_append; neutral_line|].
  intros _. apply quiet_append. neutral_line.
Qed.

(** ** Nesting of bodies in the lines of [add_link] *)

Lemma body_depths_app k a b :
  body_depths k (a ++ b) = (body_depths k a ++ body_depths (end_depth k a) b)%list.
Proof.
  revert k. induction a as [|line a IH]; intros k; simpl; [done|].
  destruct (is_body_open line); simpl; [by rewrite IH|].
  destruct (is_body_close line); by rewrite IH.
Qed.

Lemma end_depth_app k a b :
  end_depth k (a ++ b) = end_depth (end_depth k a) b.
Proof.
  revert k. induction a as [|line a IH]; intros k; simpl; [done|].
  destruct (is_body_open line); [by rewrite IH|].
  destruct (is_body_close line); by rewrite IH.
Qed.

Lemma neutral_depths k out :
  Forall neutral out → body_depths k out = [] ∧ end_depth k out = k.
Proof.
  induction 1 as [|line out [Ho Hc] _ IH]; simpl; [done|].
  by rewrite Ho, Hc.
Qed.

Lemma quiet_Ok {A} (m : M A) self a self' :
  quiet m → m self = (Ok a, self') →
  ∃ out, xml self' = (xml self ++ out)%list ∧ Forall neutral out.
Proof. intros Hq E. specialize (Hq self). by rewrite E in Hq. Qed.

Lemma is_body_open_body_open link T : is_body_open (body_open link T) = true.
Proof. reflexivity. Qed.

(** The shape of the lines appended by a run of [add_link] that returns:
    they leave the nesting depth where it was, and the bodies they open are
    those of the calls listed by [visits], each at the depth of its call. *)
Definition link_lines (n : nat) (robot : Robot) (link : Link)
    (pj : option Joint) (Twp : mat4) (out : list string) : Prop :=
  ∀ k, end_depth k out = k
       ∧ body_depths k out
         = map (λ v, (visit_body v, v_depth v)) (visits n robot link pj Twp k).

Lemma add_link_children_lines n robot T js :
  (∀ j self self', add_link n robot (child j) (Some j) T self = (Ok tt, self') →
     ∃ out, xml self' = (xml self ++ out)%list
            ∧ link_lines n robot (child j) (Some j) T out) →
  ∀ self self',
    for_each js (λ j, add_link n robot (child j) (Some j) T) self = (Ok tt, self') →
    ∃ out, xml self' = (xml self ++ out)%list
           ∧ ∀ k, end_depth k out = k
                  ∧ body_depths k out
                    = js ≫= λ j, (λ v, (visit_body v, v_depth v))
                                    <$> visits n robot (child j) (Some j) T k.
Proof.
  intros IH. induction js as [|j js IHjs]; intros self self'; simpl.
  - intros [= <-]. exists []. by rewrite app_nil_r.
  - intros E. apply bind_Ok_inv in E as ([] & self1 & E1 & E2).
    apply IH in E1 as (out1 & X1 & L1).
    apply IHjs in E2 as (out2 & X2 & L2).
    exists (out1 ++ out2)%list. split; [by rewrite X2, X1, app_assoc|].
    intros k. destruct (L1 k) as [D1 B1]. destruct (L2 k) as [D2 B2].
    rewrite end_depth_app, body_depths_app, D1, D2, B1, B2. done.
Qed.

Lemma add_link_lines n robot link pj Twp self self' :
  add_link n robot link pj Twp self = (Ok tt, self') →
  ∃ out, xml self' = (xml self ++ out)%list ∧ link_lines n robot link pj Twp out.
Proof.
  revert link pj Twp self self'.
  induction n as [|n IH]; intros link pj Twp self self'; [done|].
  cbn [add_link]. intros E.
  apply bind_Ok_inv in E as ([] & s1 & E1 & E). rewrite append_run in E1.
  apply bind_Ok_inv in E as ([] & s2 & E2 & E). rewrite append_run in E2.
  apply bind_Ok_inv in E as ([] & s3 & E3 & E).
  destruct (get_dynamics link _) as [[mass com] inertia].
  apply bind_Ok_inv in E as ([] & s4 & E4 & E).
  apply bind_Ok_inv in E as ([] & s5 & E5 & E).
  apply bind_Ok_inv in E as ([] & s6 & E6 & E).
  apply bind_Ok_inv in E as ([] & s7 & E7 & E). rewrite append_run in E.
  injection E1 as <-. injection E2 as <-. injection E as <-.
  assert (quiet (match pj with
                 | None => append ("<freejoint name=" +:+ quoted "root" +:+ " />")
                 | Some j => add_joint j
                 end)) as Q3.
  { destruct pj; [apply quiet_add_joint | apply quiet_append; neutral_line]. }
  destruct (quiet_Ok _ _ _ _ Q3 E3) as (o3 & X3 & N3).
  destruct (quiet_Ok _ _ _ _ (quiet_add_inertial _ _ _) E4) as (o4 & X4 & N4).
  assert (quiet (for_each (parts link)
                   (λ part, add_part part (T_world_of pj)))) as Q5.
  { apply quiet_for_each. intros. apply quiet_add_part. }
  destruct (quiet_Ok _ _ _ _ Q5 E5) as (o5 & X5 & N5).
  assert (quiet (for_each (frames link)
                   (λ '(frame, T_world_frame),
                      add_frame link frame (T_world_of pj) T_world_frame))) as Q6.
  { apply quiet_for_each. intros [frame Tf] _. apply quiet_add_frame. }
  destruct (quiet_Ok _ _ _ _ Q6 E6) as (o6 & X6 & N6).
  apply (add_link_children_lines n robot (T_world_of pj)) in E7
    as (o7 & X7 & L7); [|exact (λ j, IH (child j) (Some j) (T_world_of pj))].
  exists ([ "<!-- Link " +:+ link_name link +:+ " -->";
            body_open link (matmul (np_linalg_inv Twp) (T_world_of pj)) ]
          ++ (o3 ++ o4 ++ o5 ++ o6) ++ o7 ++ ["</body>"])%list.
  split.
  - simpl. rewrite X7, X6, X5, X4, X3. simpl.
    rewrite <- !app_assoc. reflexivity.
  - assert (N : Forall neutral (o3 ++ o4 ++ o5 ++ o6)%list)
      by (rewrite !Forall_app; done).
    intros k. destruct (L7 (S k)) as [D7 B7].
    destruct (neutral_depths (S k) _ N) as [B D].
    cbn [app end_depth body_depths visits].
    rewrite is_body_open_body_open.
    change (is_body_open ("<!-- Link " +:+ link_name link +:+ " -->")) with false.
    change (is_body_close ("<!-- Link " +:+ link_name link +:+ " -->")) with false.
    cbn iota.
    rewrite end_depth_app, body_depths_app, D, B, end_depth_app, body_depths_app, D7, B7.
    cbn. split; [done|]. f_equal.
    rewrite app_nil_r. clear. induction (get_link_joints robot link) as [|j js IHj]; [done|].
    cbn. by rewrite fmap_app, IHj.
Qed.

(** ** Tree-shaped robots *)

Lemma NoDup_fmap_eq {A B} (f : A → B) (l : list A) x y :
  NoDup (f <$> l) → x ∈ l → y ∈ l → f x = f y → x = y.
Proof.
  induction l as [|a l IH]; cbn; [by intros _ ?%elem_of_nil|].
  intros [Ha Hl]%NoDup_cons [->|Hx]%elem_of_cons [->|Hy]%elem_of_cons Hf.
  - done.
  - exfalso. apply Ha. rewrite Hf. by apply list_elem_of_fmap_2.
  - exfalso. apply Ha. rewrite <- Hf. by apply list_elem_of_fmap_2.
  - by apply IH.
Qed.

Lemma fmap_of_bind {A B C} (f : B → C) (g : A → list B) (l : list A) :
  f <$> (l ≫= g) = l ≫= λ x, f <$> g x.
Proof.
  induction l as [|x l IH]; [done|]. cbn. by rewrite fmap_app, IH.
Qed.

Section Tree.
Variable robot : Robot.
Variable d : Link → nat.
Hypothesis Htree : is_tree robot d.

Lemma link_eq l1 l2 :
  l1 ∈ links robot → l2 ∈ links robot → link_id l1 = link_id l2 → l1 = l2.
Proof. apply NoDup_fmap_eq, Htree. Qed.

Lemma links_NoDup : NoDup (links robot).
Proof. eapply NoDup_fmap_1, Htree. Qed.

Lemma joints_NoDup : NoDup (joints robot).
Proof. eapply NoDup_fmap_1, Htree. Qed.

Lemma joint_eq j1 j2 :
  j1 ∈ joints robot → j2 ∈ joints robot → child j1 = child j2 → j1 = j2.
Proof. apply NoDup_fmap_eq, Htree. Qed.

Lemma elem_of_get_link_joints j link :
  link ∈ links robot →
  j ∈ get_link_joints robot link ↔ j ∈ joints robot ∧ parent j = link.
Proof.
  intros Hl. unfold get_link_joints. rewrite list_elem_of_filter. split.
  - intros [Hid Hj]. split; [done|]. apply link_eq; [|done..].
    by apply (tree_parent _ _ Htree).
  - intros [Hj <-]. done.
Qed.

Lemma base_not_child j : j ∈ joints robot → child j ≠ get_base_link robot.
Proof.
  intros Hj E. pose proof (tree_depth_joint _ _ Htree j Hj) as D.
  rewrite E, (tree_depth_base _ _ Htree) in D. done.
Qed.

Lemma incoming_child j : j ∈ joints robot → incoming robot (child j) = Some j.
Proof.
  intros Hj. unfold incoming.
  destruct (List.find _ _) as [j'|] eqn:F.
  - apply find_some in F as [Hj' E%Nat.eqb_eq]. apply list_elem_of_In in Hj'.
    f_equal. apply joint_eq; [done..|].
    apply link_eq; [by apply (tree_child _ _ Htree)..|done].
  - apply find_none with (x := j) in F; [|by apply list_elem_of_In].
    by rewrite Nat.eqb_refl in F.
Qed.

Lemma incoming_base : incoming robot (get_base_link robot) = None.
Proof.
  unfold incoming. destruct (List.find _ _) as [j|] eqn:F; [|done].
  apply find_some in F as [Hj E%Nat.eqb_eq]. apply list_elem_of_In in Hj.
  exfalso. apply (base_not_child j Hj).
  apply link_eq; [by apply (tree_child _ _ Htree) | apply Htree | done].
Qed.

(** A link other than the base link is the child of a joint. *)
Lemma link_cases l :
  l ∈ links robot →
  l = get_base_link robot ∨ ∃ j, j ∈ joints robot ∧ child j = l.
Proof.
  intros Hl. destruct (decide (link_id l = link_id (get_base_link robot))) as [E|N].
  - left. apply link_eq; [done | apply Htree | done].
  - right. apply (tree_some_joint _ _ Htree); [done|]. by intros ->.
Qed.

(** What holds of every call of the traversal of a tree. *)
Definition visit_ok (v : visit) : Prop :=
  v_link v ∈ links robot
  ∧ v_joint v = incoming robot (v_link v)
  ∧ v_T_world_parent v = T_world_parent_of robot (v_link v)
  ∧ v_depth v = d (v_link v).

Lemma visits_ok n link :
  link ∈ links robot →
  Forall visit_ok
    (visits n robot link (incoming robot link) (T_world_parent_of robot link) (d link)).
Proof.
  revert link. induction n as [|n IH]; intros link Hl; cbn [visits]; [done|].
  constructor; [done|].
  apply Forall_bind, Forall_forall. intros j [Hj Hp]%elem_of_get_link_joints; [|done].
  assert (Hc := tree_child _ _ Htree j Hj).
  specialize (IH (child j) Hc).
  rewrite (incoming_child j Hj) in IH.
  unfold T_world_parent_of in IH at 1. rewrite (incoming_child j Hj), Hp in IH.
  rewrite (tree_depth_joint _ _ Htree j Hj), Hp in IH. exact IH.
Qed.

(** The parent link, and the base link for itself. *)
Definition up (l : Link) : Link :=
  match incoming robot l with
  | Some j => parent j
  | None => l
  end.

Lemma visits_ancestor n link pj Twp k v :
  link ∈ links robot →
  v ∈ visits n robot link pj Twp k →
  (d link ≤ d (v_link v))%nat ∧ Nat.iter (d (v_link v) - d link) up (v_link v) = link.
Proof.
  revert link pj Twp k. induction n as [|n IH]; intros link pj Twp k Hl; cbn [visits].
  - by intros ?%elem_of_nil.
  - intros [->|Hv]%elem_of_cons.
    + cbn. by rewrite Nat.sub_diag.
    + apply list_elem_of_bind in Hv as (j & Hv & [Hj Hp]%elem_of_get_link_joints); [|done].
      apply IH in Hv as [Hd Hi]; [|by apply (tree_child _ _ Htree)].
      pose proof (tree_depth_joint _ _ Htree j Hj) as D. rewrite Hp in D.
      split; [lia|].
      replace (d (v_link v) - d link) with (S (d (v_link v) - d (child j))) by lia.
      rewrite Nat.iter_succ, Hi. unfold up. by rewrite (incoming_child j Hj).
Qed.

Lemma visits_NoDup n link pj Twp k :
  link ∈ links robot → NoDup (v_link <$> visits n robot link pj Twp k).
Proof.
  revert link pj Twp k. induction n as [|n IH]; intros link pj Twp k Hl; cbn [visits].
  - constructor.
  - rewrite fmap_cons. apply NoDup_cons. split.
    + intros (v & E & Hv)%list_elem_of_fmap. cbn in E.
      apply list_elem_of_bind in Hv as (j & Hv & [Hj Hp]%elem_of_get_link_joints); [|done].
      apply visits_ancestor in Hv as [Hd _]; [|by apply (tree_child _ _ Htree)].
      pose proof (tree_depth_joint _ _ Htree j Hj) as D. rewrite Hp in D.
      rewrite <- E in Hd. lia.
    + rewrite fmap_of_bind. apply NoDup_bind.
      * intros j1 j2 l [Hj1 Hp1]%elem_of_get_link_joints
          [Hj2 Hp2]%elem_of_get_link_joints; [|done..].
        intros (v1 & -> & Hv1)%list_elem_of_fmap (v2 & E & Hv2)%list_elem_of_fmap.
        apply visits_ancestor in Hv1 as [_ A1]; [|by apply (tree_child _ _ Htree)].
        apply visits_ancestor in Hv2 as [_ A2]; [|by apply (tree_child _ _ Htree)].
        apply joint_eq; [done..|]. rewrite <- A1, <- A2, E.
        by rewrite !(tree_depth_joint _ _ Htree), Hp1, Hp2.
      * intros j [Hj Hp]%elem_of_get_link_joints; [|done].
        apply IH. by apply (tree_child _ _ Htree).
      * apply NoDup_filter, joints_NoDup.
Qed.

Lemma visits_step n link pj Twp k j :
  link ∈ links robot → j ∈ joints robot →
  parent j ∈ v_link <$> visits n robot link pj Twp k →
  child j ∈ v_link <$> visits (S n) robot link pj Twp k.
Proof.
  revert link pj Twp k. induction n as [|n IH]; intros link pj Twp k Hl Hj.
  - by intros ?%elem_of_nil.
  - intros (v & E & Hv)%list_elem_of_fmap. cbn [visits] in Hv.
    change (visits (S (S n)) robot link pj Twp k)
      with (mkVisit link pj Twp k
            :: (get_link_joints robot link
                ≫= λ j, visits (S n) robot (child j) (Some j) (T_world_of pj) (S k))).
    rewrite fmap_cons. apply elem_of_cons. right.
    rewrite fmap_of_bind. apply list_elem_of_bind.
    apply elem_of_cons in Hv as [->|Hv].
    + exists j. split; [|by apply elem_of_get_link_joints]. cbn. by left.
    + apply list_elem_of_bind in Hv as (j' & Hv & Hj').
      exists j'. split; [|done].
      apply elem_of_get_link_joints in Hj' as [Hj' _]; [|done].
      apply IH; [by apply (tree_child _ _ Htree) | done |].
      rewrite E. by apply list_elem_of_fmap_2.
Qed.

Lemma visits_mono n link pj Twp k l :
  l ∈ v_link <$> visits n robot link pj Twp k →
  l ∈ v_link <$> visits (S n) robot link pj Twp k.
Proof.
  revert link pj Twp k. induction n as [|n IH]; intros link pj Twp k.
  - by intros ?%elem_of_nil.
  - change (visits (S (S n)) robot link pj Twp k)
      with (mkVisit link pj Twp k
            :: (get_link_joints robot link
                ≫= λ j, visits (S n) robot (child j) (Some j) (T_world_of pj) (S k))).
    cbn [visits]. rewrite !fmap_cons, !elem_of_cons, !fmap_of_bind.
    intros [->|Hv]; [by left|right].
    apply list_elem_of_bind in Hv as (j' & Hv & Hj').
    apply list_elem_of_bind. exists j'. split; [|done]. by apply IH.
Qed.

Lemma visits_cover m l n pj Twp k :
  l ∈ links robot → d l = m → m < n →
  l ∈ v_link <$> visits n robot (get_base_link robot) pj Twp k.
Proof.
  revert l n. induction m as [|m IH]; intros l n Hl Hd Hn.
  - destruct n as [|n]; [lia|].
    destruct (link_cases l Hl) as [->|(j & Hj & <-)].
    + cbn. by left.
    + rewrite (tree_depth_joint _ _ Htree j Hj) in Hd. done.
  - destruct n as [|n]; [lia|].
    destruct (link_cases l Hl) as [->|(j & Hj & <-)].
    + by rewrite (tree_depth_base _ _ Htree) in Hd.
    + rewrite (tree_depth_joint _ _ Htree j Hj) in Hd.
      apply visits_step; [apply Htree | done |].
      apply IH; [by apply (tree_parent _ _ Htree) | lia | lia].
Qed.

(** The depths of the links fill an initial segment of the integers, so
    the deepest link is less deep than there are links. *)
Lemma depth_levels m l i :
  l ∈ links robot → d l = m → (i ≤ m)%nat → ∃ l', l' ∈ links robot ∧ d l' = i.
Proof.
  revert l. induction m as [|m IH]; intros l Hl Hd Hi.
  - exists l. split; [done | lia].
  - destruct (decide (i = S m)) as [->|Hne]; [by exists l|].
    destruct (link_cases l Hl) as [->|(j & Hj & <-)].
    + by rewrite (tree_depth_base _ _ Htree) in Hd.
    + rewrite (tree_depth_joint _ _ Htree j Hj) in Hd.
      apply (IH (parent j)); [by apply (tree_parent _ _ Htree) | lia | lia].
Qed.

Lemma depth_lt_links l : l ∈ links robot → d l < length (links robot).
Proof.
  intros Hl.
  assert (seq 0 (S (d l)) ⊆+ d <$> links robot) as Hsub.
  { apply NoDup_submseteq; [apply NoDup_seq|].
    intros i [_ Hi]%elem_of_seq.
    destruct (depth_levels (d l) l i) as (l' & Hl' & <-); [done | done | lia |].
    by apply list_elem_of_fmap_2. }
  apply submseteq_length in Hsub. rewrite length_seq, length_fmap in Hsub. lia.
Qed.

(** The calls of the traversal from the base link: one per link. *)
Lemma visits_links n :
  (length (links robot) ≤ n)%nat →
  v_link <$> visits n robot (get_base_link robot) None np_eye4 0 ≡ₚ links robot.
Proof.
  intros Hn. apply NoDup_Permutation.
  - apply visits_NoDup, Htree.
  - apply links_NoDup.
  - intros l. split.
    + intros (v & -> & Hv)%list_elem_of_fmap.
      pose proof (visits_ok n (get_base_link robot) (tree_base _ _ Htree)) as Hok.
      rewrite incoming_base in Hok. unfold T_world_parent_of in Hok.
      rewrite incoming_base, (tree_depth_base _ _ Htree) in Hok.
      rewrite Forall_forall in Hok. by apply Hok in Hv as [? _].
    + intros Hl. apply (visits_cover (d l)); [done | done |].
      pose proof (depth_lt_links l Hl). lia.
Qed.

End Tree.

(** ** Which exceptions the methods raise *)

Lemma raises_ret {A} E (a : A) : raises_only E (ret a).
Proof. by intros self e self'. Qed.

Lemma raises_get_self E : raises_only E get_self.
Proof. by intros self e self'. Qed.

Lemma raises_modify E f : raises_only E (modify f).
Proof. by intros self e self'. Qed.

Lemma raises_append E line : raises_only E (append line).
Proof. by intros self e self'. Qed.

Lemma raises_bind {A B} E (m : M A) (k : A → M B) :
  raises_only E m → (∀ a, raises_only E (k a)) → raises_only E (bind m k).
Proof.
  intros Hm Hk self e self'. unfold bind.
  destruct (m self) as [[a|e1] self1] eqn:E1.
  - apply Hk.
  - intros [= <- <-]. by eapply Hm.
Qed.

Lemma raises_for_each {A} E (l : list A) (body : A → M unit) :
  (∀ x, x ∈ l → raises_only E (body x)) → raises_only E (for_each l body).
Proof.
  induction l as [|x l IH]; intros Hb; simpl.
  - apply raises_ret.
  - apply raises_bind.
    + apply Hb. by left.
    + intros _. apply IH. intros y Hy. apply Hb. by right.
Qed.

Lemma raises_weaken {A} (E E' : exn → Prop) (m : M A) :
  (∀ e, E e → E' e) → raises_only E m → raises_only E' m.
Proof. intros HE Hm self e self' Hr. eapply HE, Hm, Hr. Qed.

(** A computation that raises nothing returns. *)
Lemma raises_none_Ok {A} (m : M A) self :
  raises_only (λ _, False) m → ∃ a self', m self = (Ok a, self').
Proof.
  intros Hm. destruct (m self) as [[a|e] self'] eqn:E; [by eauto|].
  destruct (Hm _ _ _ E).
Qed.

(** The only exception of the property loop of [add_joint] is the
    [KeyError] of the lookup of [frictionloss], for a joint that has a
    [friction] property and no [frictionloss] property. *)
Lemma joint_attr_plain props key :
  String.eqb key "friction" = false →
  joint_attr props key
  = Ok (match props !! key with
        | Some v => key +:+ "=" +:+ quoted (py_str v) +:+ " "
        | None => ""
        end).
Proof.
  intros Hk. unfold joint_attr. destruct (props !! key) eqn:E; [|done].
  rewrite Hk. cbn zeta. by rewrite E.
Qed.

Lemma joint_attr_friction props :
  joint_attr props "friction"
  = match props !! "friction" with
    | None => Ok ""
    | Some _ =>
        match props !! "frictionloss" with
        | Some v => Ok ("frictionloss" +:+ "=" +:+ quoted (py_str v) +:+ " ")
        | None => Raise (KeyError "frictionloss")
        end
    end.
Proof. reflexivity. Qed.

Lemma joint_attrs_Raise props acc e :
  joint_attrs props joint_keys acc = Raise e →
  e = KeyError "frictionloss"
  ∧ props !! "friction" ≠ None ∧ props !! "frictionloss" = None.
Proof.
  unfold joint_keys. cbn [joint_attrs].
  rewrite joint_attr_friction, !joint_attr_plain by reflexivity.
  destruct (props !! "friction"); [|done].
  destruct (props !! "frictionloss"); [done|].
  by intros [= <-].
Qed.

Lemma joint_attrs_Ok props acc :
  (props !! "friction" ≠ None → props !! "frictionloss" ≠ None) →
  ∃ x, joint_attrs props joint_keys acc = Ok x.
Proof.
  intros Hok. destruct (joint_attrs props joint_keys acc) as [x|e] eqn:E; [by eauto|].
  apply joint_attrs_Raise in E as (_ & Hf & Hl). by destruct (Hok Hf).
Qed.

Lemma raises_add_joint joint :
  raises_only (λ e, e = KeyError "frictionloss" ∧ ¬ joint_lookups_ok joint)
              (add_joint joint).
Proof.
  unfold add_joint. apply raises_bind; [apply raises_append|]. intros _.
  apply raises_bind.
  - destruct (joint_type joint); try apply raises_ret.
    apply raises_bind; [apply raises_modify|]. intros _. apply raises_ret.
  - intros a. apply raises_bind; [|intros; apply raises_append].
    intros self e self'. unfold lift. intros E.
    pose proof (f_equal fst E) as E1. cbn [fst] in E1.
    apply joint_attrs_Raise in E1 as (-> & Hf & Hl). split; [done|].
    intros Hok. by apply Hok.
Qed.

Lemma raises_add_geometries E part T class_ what :
  raises_only E (add_geometries part T class_ what).
Proof.
  unfold add_geometries. apply raises_bind; [apply raises_get_self|]. intros self.
  destruct (String.eqb what "collision" && _) eqn:C1.
  - apply andb_true_iff in C1 as [_ Hs%bool_decide_eq_true].
    unfold add_shapes. destruct (shapes part) as [l|]; [|done].
    apply raises_for_each. intros shape _. unfold add_shape.
    destruct (String.eqb class_ "visual").
    + apply raises_bind; [apply raises_modify|]. intros _. apply raises_append.
    + apply raises_append.
  - destruct (has_mesh part && _) eqn:C2; [|apply raises_ret].
    apply andb_true_iff in C2 as [Hm _]. unfold has_mesh in Hm.
    unfold add_mesh. destruct (mesh_file part); [|done].
    apply raises_bind; [apply raises_append|]. intros _.
    apply raises_bind; [apply raises_modify|]. intros _.
    apply raises_bind; [apply raises_modify|]. intros _. apply raises_append.
Qed.

Lemma raises_add_part E part T : raises_only E (add_part part T).
Proof.
  unfold add_part. apply raises_bind; [apply raises_append|]. intros _.
  apply raises_bind; [apply raises_get_self|]. intros self.
  apply raises_bind; [apply raises_add_geometries|]. intros _.
  apply raises_add_geometries.
Qed.

Lemma raises_add_inertial E mass com inertia :
  raises_only E (add_inertial mass com inertia).
Proof. unfold add_inertial. destruct com as [[cx cy] cz]. apply raises_append. Qed.

Lemma raises_add_frame E link frame T Tf :
  raises_only E (add_frame link frame T Tf).
Proof.
  unfold add_frame. apply raises_bind; [apply raises_append|]. intros _.
  apply raises_append.
Qed.

(** On a tree, with a recursion limit above the depth of every link, the
    traversal raises nothing but the [KeyError] of a joint whose property
    lookups fail. *)
Lemma raises_add_link robot d n link pj Twp :
  is_tree robot d →
  link ∈ links robot →
  (∀ l, l ∈ links robot → d l < d link + n) →
  (∀ j, pj = Some j → j ∈ joints robot) →
  raises_only
    (λ e, e = KeyError "frictionloss"
          ∧ ∃ j, j ∈ joints robot ∧ ¬ joint_lookups_ok j)
    (add_link n robot link pj Twp).
Proof.
  intros Htree. revert link pj Twp.
  induction n as [|n IH]; intros link pj Twp Hl Hn Hpj.
  - specialize (Hn link Hl). lia.
  - cbn [add_link].
    apply raises_bind; [apply raises_append|]. intros _.
    apply raises_bind; [apply raises_append|]. intros _.
    apply raises_bind.
    { destruct pj as [j|]; [|apply raises_append].
      eapply raises_weaken; [|apply raises_add_joint].
      intros e [-> Hno]. split; [done|]. exists j. split; [by apply Hpj | done]. }
    intros _. destruct (get_dynamics link _) as [[mass com] inertia].
    apply raises_bind; [apply raises_add_inertial|]. intros _.
    apply raises_bind.
    { apply raises_for_each. intros. apply raises_add_part. }
    intros _. apply raises_bind.
    { apply raises_for_each. intros [frame Tf] _. apply raises_add_frame. }
    intros _. apply raises_bind; [|intros; apply raises_append].
    apply raises_for_each.
    intros j [Hj Hp]%(elem_of_get_link_joints robot d Htree); [|done].
    apply IH.
    + by apply (tree_child _ _ Htree).
    + intros l Hl'. rewrite (tree_depth_joint _ _ Htree j Hj), Hp.
      specialize (Hn l Hl'). lia.
    + by intros ? [= <-].
Qed.

(** ** The asset section and the assembly of the document *)

Lemma add_assets_run self :
  add_assets self
  = (Ok tt,
     set_xml (xml self ++ "<asset>" :: (mesh_decl <$> set_iter (meshes self))
              ++ (material_decl <$> materials self) ++ ["</asset>"]) self).
Proof.
  unfold add_assets. erewrite bind_Ok by apply append_run.
  erewrite bind_Ok by reflexivity.
  erewrite bind_Ok by apply for_each_append.
  erewrite bind_Ok by reflexivity.
  erewrite bind_Ok by apply for_each_append.
  rewrite append_run. cbn. rewrite <- !app_assoc. reflexivity.
Qed.

Lemma add_actuators_run robot self :
  add_actuators robot self
  = (Ok tt,
     set_xml (xml self ++ "<actuator>"
              :: (joints robot
                  ≫= λ joint,
                       if py_truth (default (PBool true) (properties joint !! "actuated"))
                       then [actuator_element joint] else [])
              ++ ["</actuator>"]) self).
Proof.
  unfold add_actuators. erewrite bind_Ok by apply append_run.
  assert (∀ js self0,
    for_each js add_actuator self0
    = (Ok tt, set_xml (xml self0 ++ (js ≫= λ joint,
         if py_truth (default (PBool true) (properties joint !! "actuated"))
         then [actuator_element joint] else [])) self0)) as Hloop.
  { induction js as [|j js IH]; intros self0; simpl.
    - unfold ret. by rewrite app_nil_r, set_xml_same.
    - unfold add_actuator at 1.
      destruct (py_truth _).
      + erewrite bind_Ok by apply append_run. rewrite IH, set_xml_twice. cbn.
        by rewrite <- app_assoc.
      + erewrite bind_Ok by reflexivity. by rewrite IH. }
  erewrite bind_Ok by apply Hloop. rewrite append_run, !set_xml_twice. cbn.
  do 2 f_equal. rewrite <- !app_assoc. reflexivity.
Qed.

Lemma for_each_append_lines (l : list string) self :
  for_each l append self = (Ok tt, set_xml (xml self ++ l) self).
Proof.
  revert self. induction l as [|x l IH]; intros self; simpl.
  - unfold ret. by rewrite app_nil_r, set_xml_same.
  - erewrite bind_Ok by apply append_run. rewrite IH, set_xml_twice.
    simpl. by rewrite <- app_assoc.
Qed.

(** Steps of a run from a state [set_xml v self]. *)
Lemma step_append {A} line (k : unit → M A) v self :
  bind (append line) k (set_xml v self) = k tt (set_xml (v ++ [line]) self).
Proof. reflexivity. Qed.

Lemma step_lines {A} l (k : unit → M A) v self :
  bind (for_each l append) k (set_xml v self) = k tt (set_xml (v ++ l) self).
Proof. erewrite bind_Ok by apply for_each_append_lines. reflexivity. Qed.

Lemma step_ret {A B} (a : A) (k : A → M B) self : bind (ret a) k self = k a self.
Proof. reflexivity. Qed.

Lemma step_get_self {A} (k : ExporterMuJoCo → M A) self :
  bind get_self k self = k self self.
Proof. reflexivity. Qed.

Lemma step_assets {A} (k : unit → M A) v self :
  bind add_assets k (set_xml v self)
  = k tt (set_xml (v ++ "<asset>" :: (mesh_decl <$> set_iter (meshes self))
                   ++ (material_decl <$> materials self) ++ ["</asset>"]) self).
Proof. erewrite bind_Ok by apply add_assets_run. reflexivity. Qed.

Lemma step_actuators {A} robot (k : unit → M A) v self :
  bind (add_actuators robot) k (set_xml v self)
  = k tt (set_xml (v ++ "<actuator>"
              :: (joints robot
                  ≫= λ joint,
                       if py_truth (default (PBool true) (properties joint !! "actuated"))
                       then [actuator_element joint] else [])
              ++ ["</actuator>"]) self).
Proof. erewrite bind_Ok by apply add_actuators_run. reflexivity. Qed.

Lemma build_unfold n robot self :
  build n robot self
  = match add_link n robot (get_base_link robot) None np_eye4
            (set_xml (header robot self ++ ["<worldbody>"]) self) with
    | (Ok _, self2) =>
        let lines := (xml self2 ++ "</worldbody>" :: footer robot self2)%list in
        (Ok (String.concat "" lines), set_xml lines self2)
    | (Raise e, self2) => (Raise e, self2)
    end.
Proof.
  unfold build, header.
  change (bind (modify (set_xml [])) ?k self) with (k tt (set_xml [] self)).
  cbv beta. rewrite !step_append, step_get_self.
  change (config (set_xml ?v self)) with (config self).
  change (additional_xml (set_xml ?v self)) with (additional_xml self).
  assert (∀ (v : list string) (k : unit → M string),
    bind (match config self with
          | Some c => append ("<!-- OnShape " +:+ printable_version c +:+ " -->")
          | None => ret tt
          end) k (set_xml v self)
    = k tt (set_xml (v ++ match config self with
                          | Some c => ["<!-- OnShape " +:+ printable_version c +:+ " -->"]
                          | None => []
                          end) self)) as ->.
  { intros v k. destruct (config self); [done|]. by rewrite app_nil_r. }
  rewrite !step_append.
  assert (∀ (v : list string) (k : unit → M string),
    bind (if negb (String.eqb (additional_xml self) "")
          then append (additional_xml self) else ret tt) k (set_xml v self)
    = k tt (set_xml (v ++ (if negb (String.eqb (additional_xml self) "")
                           then [additional_xml self] else [])) self)) as ->.
  { intros v k. destruct (negb _); [done|]. by rewrite app_nil_r. }
  rewrite step_lines, step_append.
  rewrite <- !app_assoc. cbn [app].
  unfold bind at 1.
  destruct (add_link _ _ _ _ _ _) as [[[]|e] self2]; [|done].
  rewrite <- (set_xml_same self2) at 1.
  rewrite step_append, step_assets, step_actuators, step_append, step_get_self.
  cbv zeta. unfold ret, footer. cbn [xml set_xml].
  repeat (rewrite <- ?app_assoc; cbn [app]). reflexivity.
Qed.

(** ** The bodies of the document of a tree-shaped robot *)

Lemma build_tree_run robot d n self :
  is_tree robot d → (length (links robot) ≤ n)%nat →
  let self1 := set_xml (header robot self ++ ["<worldbody>"]) self in
  raises_only
    (λ e, e = KeyError "frictionloss"
          ∧ ∃ j, j ∈ joints robot ∧ ¬ joint_lookups_ok j)
    (add_link n robot (get_base_link robot) None np_eye4)
  ∧ ∀ self2,
      add_link n robot (get_base_link robot) None np_eye4 self1 = (Ok tt, self2) →
      ∃ out vs,
        xml self2 = (header robot self ++ "<worldbody>" :: out)%list
        ∧ v_link <$> vs ≡ₚ links robot
        ∧ Forall (visit_ok robot d) vs
        ∧ body_depths 0 out = (λ v, (visit_body v, v_depth v)) <$> vs.
Proof.
  intros Htree Hn self1. split.
  - apply (raises_add_link robot d); [done | apply Htree | | done].
    intros l Hl. pose proof (depth_lt_links robot d Htree l Hl). lia.
  - intros self2 E. apply add_link_lines in E as (out & X & L).
    exists out, (visits n robot (get_base_link robot) None np_eye4 0).
    split; [|split; [|split]].
    + rewrite X. cbn. by rewrite <- app_assoc.
    + by apply (visits_links robot d).
    + pose proof (visits_ok robot d Htree n _ (tree_base _ _ Htree)) as Hok.
      rewrite (incoming_base robot d Htree) in Hok.
      unfold T_world_parent_of in Hok.
      by rewrite (incoming_base robot d Htree), (tree_depth_base _ _ Htree) in Hok.
    + apply L.
Qed.

(** The calls of [add_link] made below a call: each is made for a joint of
    the robot whose parent is the link of another call, with the world
    transform of that call as [T_world_parent]. *)
Lemma visits_parent n robot link pj Twp k v :
  v ∈ (get_link_joints robot link
       ≫= λ j, visits n robot (child j) (Some j) (T_world_of pj) (S k)) →
  ∃ u j,
    u ∈ visits (S n) robot link pj Twp k
    ∧ j ∈ joints robot
    ∧ link_id (parent j) = link_id (v_link u)
    ∧ v_joint v = Some j
    ∧ v_link v = child j
    ∧ v_T_world_parent v = T_world_of (v_joint u).
Proof.
  revert link pj Twp k v. induction n as [|n IH]; intros link pj Twp k v Hv.
  - apply list_elem_of_bind in Hv as (j & Hv & _). by apply elem_of_nil in Hv.
  - apply list_elem_of_bind in Hv as (j & Hv & Hj).
    cbn [visits] in Hv. apply elem_of_cons in Hv as [->|Hv].
    + exists (mkVisit link pj Twp k), j. cbn [v_link v_joint v_T_world_parent].
      unfold get_link_joints in Hj. apply list_elem_of_filter in Hj as [Hp Hj].
      split; [by left|]. done.
    + destruct (IH _ _ (T_world_of pj) _ _ Hv) as (u & j' & Hu & R).
      exists u, j'. split; [|done].
      change (visits (S (S n)) robot link pj Twp k)
        with (mkVisit link pj Twp k
              :: (get_link_joints robot link
                  ≫= λ j, visits (S n) robot (child j) (Some j) (T_world_of pj) (S k))).
      apply elem_of_cons. right. apply list_elem_of_bind. by exists j.
Qed.

(** C5. For a robot whose joints form a tree rooted at the base link, with
    K links, the export (with a recursion limit of at least K) never runs
    into the recursion limit, returns a document whenever the property
    lookups of the joints succeed, and in every document it returns the
    lines between [<worldbody>] and [</worldbody>] open exactly K bodies,
    one for each link and named after it, each at the nesting depth that is
    the depth of its link in the tree. *)
Theorem build_tree_coverage (robot : Robot) (d : Link → nat) (n : nat)
    (self : ExporterMuJoCo) :
  is_tree robot d →
  (length (links robot) ≤ n)%nat →
  fst (build n robot self) ≠ Raise RecursionError
  ∧ ((∀ j, j ∈ joints robot → joint_lookups_ok j) →
     ∃ doc, fst (build n robot self) = Ok doc)
  ∧ ∀ doc, fst (build n robot self) = Ok doc →
      ∃ out ls,
        doc = String.concat "" (xml (snd (build n robot self)))
        ∧ xml (snd (build n robot self))
          = (header robot self ++ "<worldbody>" :: out
             ++ "</worldbody>" :: footer robot (snd (build n robot self)))%list
        ∧ ls ≡ₚ links robot
        ∧ length (body_depths 0 out) = length (links robot)
        ∧ Forall2 (λ l b,
                     (∃ attrs,
                        b.1 = "<body name=" +:+ quoted (link_name l) +:+ " "
                              +:+ attrs +:+ " >")
                     ∧ b.2 = d l)
                  ls (body_depths 0 out).
Proof.
  intros Htree Hn.
  destruct (build_tree_run robot d n self Htree Hn) as [Hraise Hok].
  rewrite build_unfold.
  destruct (add_link _ _ _ _ _ _) as [[[]|e] self2] eqn:E.
  - split; [done|]. split; [by eauto|]. intros doc [= <-].
    destruct (Hok self2 eq_refl) as (out & vs & X & P & V & B).
    exists out, (v_link <$> vs). cbn [fst snd xml set_xml].
    split; [done|]. split; [by rewrite X, <- app_assoc|]. split; [done|].
    rewrite B. split.
    + by rewrite length_fmap, <- (length_fmap v_link), P.
    + clear -V. induction V as [|v vs (_ & _ & _ & Hd) _ IH]; cbn; constructor; [|done].
      split; [|done]. by eexists.
  - apply Hraise in E as [-> (j & Hj & Hno)].
    split; [done|]. split; [|done]. intros Hall. destruct (Hno (Hall j Hj)).
Qed.

(** C6. The pose of every body written.  For any robot, in a document that
    [build] returns, the bodies are those of the calls of [add_link], in
    order.  The first is the base link, with the identity as world transform
    and as [T_world_parent]; every other is the child of a joint of the
    robot, with the transform of that joint as world transform and the world
    transform of the body of the joint's parent as [T_world_parent].  The
    opening line of each body carries, as [pos] and [quat], the translation
    column and the quaternion of the rotation block of
    [invert(T_world_parent) @ T_world_body], printed with [%.20g].  For a
    robot whose joints form a tree these are the bodies of the links, one
    each, and a document is returned whenever the property lookups of the
    joints succeed. *)
Theorem build_body_poses (robot : Robot) (n : nat) (self : ExporterMuJoCo) :
  let pose (M : mat4) :=
    let '(px, py, pz) := mat_pos M in
    let '(qw, qx, qy, qz) := mat_quat M in
    "pos=" +:+ quoted (fmt_g20 px +:+ " " +:+ fmt_g20 py +:+ " " +:+ fmt_g20 pz)
    +:+ " quat=" +:+ quoted (fmt_g20 qw +:+ " " +:+ fmt_g20 qx +:+ " "
                             +:+ fmt_g20 qy +:+ " " +:+ fmt_g20 qz) in
  let T_world_body (incoming_joint : option Joint) :=
    match incoming_joint with
    | None => np_eye4
    | Some j => T_world_joint j
    end in
  let body (l : Link) (T_world_parent T_world_link : mat4) :=
    "<body name=" +:+ quoted (link_name l) +:+ " "
    +:+ pose (matmul (np_linalg_inv T_world_parent) T_world_link) +:+ " >" in
  let vs := visits n robot (get_base_link robot) None np_eye4 0 in
  (∀ d, is_tree robot d → (length (links robot) ≤ n)%nat →
        (∀ j, j ∈ joints robot → joint_lookups_ok j) →
        ∃ doc, fst (build n robot self) = Ok doc)
  ∧ ∀ doc, fst (build n robot self) = Ok doc →
      ∃ out rest,
        xml (snd (build n robot self))
        = (header robot self ++ "<worldbody>" :: out
           ++ "</worldbody>" :: footer robot (snd (build n robot self)))%list
        ∧ (body_depths 0 out).*1
          = (λ v, body (v_link v) (v_T_world_parent v) (T_world_body (v_joint v)))
              <$> vs
        ∧ vs = mkVisit (get_base_link robot) None np_eye4 0 :: rest
        ∧ Forall (λ v, ∃ u j,
                    u ∈ vs
                    ∧ j ∈ joints robot
                    ∧ link_id (parent j) = link_id (v_link u)
                    ∧ v_joint v = Some j
                    ∧ v_link v = child j
                    ∧ v_T_world_parent v = T_world_body (v_joint u))
                 rest
        ∧ ∀ d, is_tree robot d → (length (links robot) ≤ n)%nat →
            incoming robot (get_base_link robot) = None
            ∧ (∀ j, j ∈ joints robot → incoming robot (child j) = Some j)
            ∧ ∃ ls,
                ls ≡ₚ links robot
                ∧ (body_depths 0 out).*1
                  = (λ l, body l (T_world_parent_of robot l)
                               (T_world_body (incoming robot l))) <$> ls.
Proof.
  intros pose T_world_body body vs. split.
  - intros d Htree Hn Hall.
    destruct (build_tree_run robot d n self Htree Hn) as [Hraise _].
    rewrite build_unfold.
    destruct (add_link _ _ _ _ _ _) as [[[]|e] self2] eqn:E; [by eauto|].
    apply Hraise in E as [-> (j & Hj & Hno)]. destruct (Hno (Hall j Hj)).
  - rewrite build_unfold.
    destruct (add_link _ _ _ _ _ _) as [[[]|e] self2] eqn:E; [|done].
    intros doc _. cbn [fst snd xml set_xml].
    destruct n as [|n]; [discriminate E|].
    destruct (add_link_lines _ _ _ _ _ _ _ E) as (out & X & L).
    exists out, (get_link_joints robot (get_base_link robot)
                 ≫= λ j, visits n robot (child j) (Some j) (T_world_of None) 1).
    split; [rewrite X; cbn [xml set_xml]; by rewrite <- !app_assoc|].
    assert ((body_depths 0 out).*1
            = (λ v, body (v_link v) (v_T_world_parent v) (T_world_body (v_joint v)))
                <$> vs) as B.
    { rewrite (proj2 (L 0)). change map with (@fmap list _).
      rewrite <- list_fmap_compose. reflexivity. }
    split; [exact B|]. split; [reflexivity|]. split.
    + apply Forall_forall. intros v Hv.
      destruct (visits_parent _ _ _ None np_eye4 0 v Hv) as (u & j & R).
      by exists u, j.
    + intros d Htree Hn.
      split; [by apply (incoming_base robot d)|].
      split; [by apply (incoming_child robot d)|].
      exists (v_link <$> vs). split; [by apply (visits_links robot d)|].
      rewrite B, <- list_fmap_compose.
      pose proof (visits_ok robot d Htree (S n) _ (tree_base _ _ Htree)) as Hok.
      rewrite (incoming_base robot d Htree) in Hok.
      unfold T_world_parent_of in Hok at 1.
      rewrite (incoming_base robot d Htree), (tree_depth_base _ _ Htree) in Hok.
      fold vs in Hok. clear -Hok.
      induction Hok as [|v l (_ & Hj & HT & _) _ IH]; [done|].
      cbn [fmap list_fmap]. rewrite IH. f_equal. cbn. by rewrite <- Hj, <- HT.
Qed.

(** ** Asset registration *)

Lemma append_length (a b : string) :
  String.length (a +:+ b) = String.length a + String.length b.
Proof. induction a as [|x a IH]; [done|]. rewrite append_cons. cbn. by rewrite IH. Qed.

Lemma append_inj_r (a b s : string) : a +:+ s = b +:+ s → a = b.
Proof.
  revert b. induction a as [|x a IH]; intros [|y b] E.
  - done.
  - apply (f_equal String.length) in E. rewrite !append_length in E. cbn in E. lia.
  - apply (f_equal String.length) in E. rewrite !append_length in E. cbn in E. lia.
  - rewrite !append_cons in E. injection E as -> E. f_equal. by apply IH.
Qed.

Lemma mesh_decl_inj f1 f2 : mesh_decl f1 = mesh_decl f2 → f1 = f2.
Proof.
  unfold mesh_decl, quoted. intros E.
  apply String.app_inj, append_inj_r, String.app_inj in E.
  by apply append_inj_r in E.
Qed.

Lemma material_decl_not_mesh m f : material_decl m ≠ mesh_decl f.
Proof.
  destruct m as [name [[r g] b]]. intros E.
  apply (f_equal (String.prefix "<me")) in E. discriminate E.
Qed.

Lemma count_line_app line a b :
  count_line line (a ++ b) = count_line line a + count_line line b.
Proof. unfold count_line. by rewrite filter_app, length_app. Qed.

Lemma count_line_cons line l lines :
  count_line line (l :: lines)
  = (if decide (l = line) then 1 else 0) + count_line line lines.
Proof.
  unfold count_line. destruct (decide (l = line)).
  - by rewrite filter_cons_True.
  - by rewrite filter_cons_False.
Qed.

Lemma count_line_none line lines : line ∉ lines → count_line line lines = 0.
Proof.
  induction lines as [|l lines IH]; [done|].
  intros [Hne Hn]%not_elem_of_cons. rewrite count_line_cons, IH by done.
  by rewrite decide_False.
Qed.

Lemma count_line_fmap_NoDup (f : string → string) (l : list string) x :
  (∀ a b, f a = f b → a = b) → NoDup l → x ∈ l → count_line (f x) (f <$> l) = 1.
Proof.
  intros Hinj. induction 1 as [|a l Ha Hl IH]; [by intros ?%elem_of_nil|].
  rewrite fmap_cons, count_line_cons. intros [->|Hx]%elem_of_cons.
  - rewrite decide_True by done. rewrite count_line_none; [done|].
    intros (b & E%Hinj & Hb)%list_elem_of_fmap. by subst.
  - rewrite decide_False, IH; [done..|]. intros E%Hinj. by subst.
Qed.

(** The asset section has exactly one declaration for a registered mesh. *)
Lemma add_assets_one_decl file self :
  file ∈ meshes self →
  ∃ out, add_assets self = (Ok tt, set_xml (xml self ++ out) self)
         ∧ count_line (mesh_decl file) out = 1.
Proof.
  intros Hin. eexists. split; [apply add_assets_run|].
  change (?x :: ?l) with ([x] ++ l)%list.
  rewrite !count_line_app.
  rewrite (count_line_none _ ["<asset>"]), (count_line_none _ ["</asset>"]).
  - rewrite (count_line_fmap_NoDup mesh_decl).
    + rewrite count_line_none; [done|].
      intros (m & E & _)%list_elem_of_fmap. by apply (material_decl_not_mesh m file).
    + apply mesh_decl_inj.
    + apply set_iter_NoDup.
    + by apply set_iter_elem.
  - by intros [=]%list_elem_of_singleton.
  - by intros [=]%list_elem_of_singleton.
Qed.

(** What [add_mesh] does to the exporter, for a part with a mesh file. *)
Lemma add_mesh_run part class_ T path self :
  mesh_file part = Some path →
  ∃ self', add_mesh part class_ T self = (Ok tt, self')
           ∧ meshes self' = (meshes self ++ [basename path])%list.
Proof. intros Hp. unfold add_mesh. rewrite Hp. eexists. split; reflexivity. Qed.

(** C8. Registering the same mesh identifier N times, N at least 1, gives
    exactly one mesh declaration for it in the asset section: after
    [add_mesh] has run for each of a non-empty list of parts whose mesh files
    have the same base name, whatever was registered before, [add_assets]
    appends exactly one line [<mesh file=... />] for that name. *)
Theorem mesh_registration_idempotent (ps : list Part) (class_ : string)
    (T_world_link : mat4) (file : string) (self : ExporterMuJoCo) :
  ps ≠ [] →
  (∀ p, p ∈ ps → ∃ path, mesh_file p = Some path ∧ basename path = file) →
  ∃ self1 out,
    for_each ps (λ p, add_mesh p class_ T_world_link) self = (Ok tt, self1)
    ∧ count_occ String.eq_dec (meshes self1) file
      = count_occ String.eq_dec (meshes self) file + length ps
    ∧ add_assets self1 = (Ok tt, set_xml (xml self1 ++ out) self1)
    ∧ count_line (mesh_decl file) out = 1.
Proof.
  intros Hne Hps.
  assert (∃ self1,
    for_each ps (λ p, add_mesh p class_ T_world_link) self = (Ok tt, self1)
    ∧ meshes self1 = (meshes self ++ replicate (length ps) file)%list)
    as (self1 & E1 & M1).
  { clear Hne. revert self. induction ps as [|p ps IH]; intros self.
    - exists self. by rewrite app_nil_r.
    - destruct (Hps p) as (path & Hp & Hb); [by left|].
      destruct (add_mesh_run p class_ T_world_link path self Hp) as (s1 & E & Hm).
      destruct (IH (λ q Hq, Hps q (proj2 (elem_of_cons _ _ _) (or_intror Hq))) s1)
        as (s2 & E2 & Hm2).
      exists s2. cbn [for_each]. erewrite bind_Ok by exact E.
      split; [done|]. rewrite Hm2, Hm, Hb, <- app_assoc. done. }
  destruct (add_assets_one_decl file self1) as (out & E2 & C).
  { rewrite M1. apply elem_of_app. right. destruct ps; [done|]. by left. }
  exists self1, out. split; [done|]. split; [|done].
  rewrite M1, count_occ_app. f_equal.
  clear. induction (length ps) as [|n IH]; [done|]. cbn.
  destruct (String.eq_dec file file); [by rewrite IH | done].
Qed.

(** ** Joints: the property loop *)

(** C10. The lookup of the [friction] property: [add_joint] renames the key
    before it reads the value, so a joint with a [friction] property and no
    [frictionloss] property ends in [KeyError('frictionloss')]; with both
    properties the element carries the value of [frictionloss] twice under
    the name [frictionloss], and the value of [friction] nowhere. *)
Theorem add_joint_friction_lookup (joint : Joint) (self : ExporterMuJoCo) :
  properties joint !! "friction" ≠ None →
  (properties joint !! "frictionloss" = None →
   fst (add_joint joint self) = Raise (KeyError "frictionloss"))
  ∧ (∀ v, properties joint !! "frictionloss" = Some v →
       ∃ before after self',
         add_joint joint self = (Ok tt, self')
         ∧ last (xml self')
           = Some (before
                   +:+ "frictionloss=" +:+ quoted (py_str v) +:+ " "
                   +:+ "frictionloss=" +:+ quoted (py_str v) +:+ " "
                   +:+ after)).
Proof.
  intros Hf. unfold add_joint.
  erewrite bind_Ok by apply append_run.
  set (self1 := set_xml _ self).
  assert (∃ jx self2,
    (match joint_type joint with
     | REVOLUTE => ret (("<joint " +:+ "name=" +:+ quoted (joint_name joint) +:+ " ")
                        +:+ "type=" +:+ quoted "hinge" +:+ " ")
     | PRISMATIC => ret (("<joint " +:+ "name=" +:+ quoted (joint_name joint) +:+ " ")
                         +:+ "type=" +:+ quoted "slide" +:+ " ")
     | FIXED =>
         print (warning "Joint type is not supported in MuJoCo: fixed") >>
         ret (("<joint " +:+ "name=" +:+ quoted (joint_name joint) +:+ " ")
              +:+ "type=" +:+ quoted "free" +:+ " ")
     end) self1 = (Ok jx, self2)) as (jx & self2 & E).
  { destruct (joint_type joint); eexists _, _; reflexivity. }
  erewrite bind_Ok by exact E.
  unfold lift, joint_keys. cbn [joint_attrs bind].
  rewrite joint_attr_friction, !joint_attr_plain by reflexivity.
  destruct (properties joint !! "friction") as [vf|]; [|done].
  split.
  - intros ->. reflexivity.
  - intros v ->.
    match goal with
    | |- context [append (((((((?j +:+ ?c) +:+ ?f1) +:+ ?f2) +:+ ?a) +:+ ?d) +:+ ?s)
                          +:+ " />")] =>
        exists (j +:+ c), (a +:+ d +:+ s +:+ " />")
    end.
    eexists. split; [reflexivity|].
    cbn [xml set_xml]. rewrite last_snoc. f_equal.
    by autorewrite with str.
Qed.

(** X1. The joint element. For a joint whose property lookups succeed,
    [add_joint] returns and writes a comment and one joint element whose type
    is [hinge] for a revolute joint, [slide] for a prismatic joint and [free]
    for a fixed joint, for which it also prints a warning; the element
    carries the pass-through properties in the order of the loop, a
    [friction] property being written as one more [frictionloss]. *)
Theorem add_joint_node (joint : Joint) (self : ExporterMuJoCo) :
  joint_lookups_ok joint →
  let kind :=
    match joint_type joint with
    | REVOLUTE => "hinge" | PRISMATIC => "slide" | FIXED => "free"
    end in
  let warnings :=
    match joint_type joint with
    | FIXED => [warning "Joint type is not supported in MuJoCo: fixed"]
    | _ => []
    end in
  let attr key :=
    match properties joint !! key with
    | Some v => key +:+ "=" +:+ quoted (py_str v) +:+ " "
    | None => ""
    end in
  let friction :=
    match properties joint !! "friction" with
    | Some _ => attr "frictionloss"
    | None => ""
    end in
  ∃ self',
    add_joint joint self = (Ok tt, self')
    ∧ stdout self' = (stdout self ++ warnings)%list
    ∧ xml self'
      = (xml self
         ++ [ "<!-- Joint from " +:+ link_name (parent joint) +:+ " to "
              +:+ link_name (child joint) +:+ " -->";
              "<joint name=" +:+ quoted (joint_name joint) +:+ " type="
              +:+ quoted kind +:+ " " +:+ attr "class" +:+ friction
              +:+ attr "frictionloss" +:+ attr "armature" +:+ attr "damping"
              +:+ attr "stiffness" +:+ " />" ])%list.
Proof.
  intros Hok kind warnings attr friction. unfold add_joint.
  erewrite bind_Ok by apply append_run.
  assert (joint_attrs (properties joint) joint_keys
            (("<joint " +:+ "name=" +:+ quoted (joint_name joint) +:+ " ")
             +:+ "type=" +:+ quoted kind +:+ " ")
          = Ok ("<joint name=" +:+ quoted (joint_name joint) +:+ " type="
                +:+ quoted kind +:+ " " +:+ attr "class" +:+ friction
                +:+ attr "frictionloss" +:+ attr "armature" +:+ attr "damping"
                +:+ attr "stiffness")) as Ha.
  { unfold joint_keys. cbn [joint_attrs].
    rewrite joint_attr_friction, !joint_attr_plain by reflexivity.
    unfold friction, attr. unfold joint_lookups_ok in Hok.
    destruct (properties joint !! "friction") as [vf|].
    - destruct (properties joint !! "frictionloss") as [vl|]; [|by destruct Hok].
      f_equal. by autorewrite with str.
    - f_equal. by autorewrite with str. }
  unfold kind, warnings in *. destruct (joint_type joint).
  - erewrite bind_Ok by reflexivity. unfold lift. rewrite Ha. cbn [bind].
    rewrite append_run. eexists. split; [reflexivity|].
    cbn [xml stdout set_xml]. split; [by rewrite app_nil_r|].
    rewrite <- app_assoc. cbn [app]. do 3 f_equal. by rewrite !append_assoc.
  - erewrite bind_Ok by reflexivity. unfold lift. rewrite Ha. cbn [bind].
    rewrite append_run. eexists. split; [reflexivity|].
    cbn [xml stdout set_xml]. split; [by rewrite app_nil_r|].
    rewrite <- app_assoc. cbn [app]. do 3 f_equal. by rewrite !append_assoc.
  - erewrite bind_Ok by reflexivity. unfold lift. rewrite Ha. cbn [bind].
    rewrite append_run. eexists. split; [reflexivity|].
    cbn [xml stdout set_xml set_stdout]. split; [done|].
    rewrite <- app_assoc. cbn [app]. do 3 f_equal. by rewrite !append_assoc.
Qed.

(** ** Materials: a dict with last-write-wins *)

(** Assigning to a key that is already there replaces its value and keeps
    its place; a new key goes to the end; the other entries stay, and keys
    stay distinct. *)
Lemma dict_set_last_write_wins {V} (k : string) (v : V) (d : list (string * V)) :
  NoDup d.*1 →
  NoDup (dict_set k v d).*1
  ∧ (dict_set k v d).*1 = (if decide (k ∈ d.*1) then d.*1 else d.*1 ++ [k])%list
  ∧ (k, v) ∈ dict_set k v d
  ∧ ∀ k' v', k' ≠ k → ((k', v') ∈ dict_set k v d ↔ (k', v') ∈ d).
Proof.
  intros Hd.
  assert ((dict_set k v d).*1 = (if decide (k ∈ d.*1) then d.*1 else d.*1 ++ [k])%list)
    as Hkeys.
  { clear Hd. induction d as [|[k1 v1] d IH]; [done|]. cbn [dict_set].
    destruct (String.eqb_spec k1 k) as [->|Hne].
    - cbn. rewrite decide_True; [done | by left].
    - cbn. rewrite IH. destruct (decide (k ∈ d.*1)) as [Hin|Hin].
      + rewrite decide_True; [done | by right].
      + rewrite decide_False; [done|].
        intros [E|?]%elem_of_cons; [by subst | done]. }
  split; [|split; [done|split]].
  - rewrite Hkeys. destruct (decide _) as [|Hin]; [done|].
    apply NoDup_app. split; [done|]. split; [|apply NoDup_singleton].
    intros x Hx ->%list_elem_of_singleton. done.
  - clear. induction d as [|[k1 v1] d IH]; [by left|]. cbn [dict_set].
    destruct (String.eqb k1 k); [by left | by right].
  - intros k' v' Hne. clear Hd Hkeys.
    induction d as [|[k1 v1] d IH]; cbn [dict_set].
    + rewrite list_elem_of_singleton. split; [by intros [= -> ->] | by intros ?%elem_of_nil].
    + destruct (String.eqb_spec k1 k) as [->|Hne1].
      * rewrite !elem_of_cons. split; (intros [[= ? ?]|?]; [by subst | by right]).
      * rewrite !elem_of_cons, IH. done.
Qed.
(** ** Geometry of a part in shapes-only mode *)

Lemma add_geometries_collision_none part T class_ self :
  collision_shapes_only self = true →
  shapes part = None ∨ shapes part = Some [] →
  add_geometries part T class_ "collision" self = (Ok tt, self).
Proof.
  intros Hso [Hs|Hs]; unfold add_geometries, add_shapes; rewrite step_get_self, Hs.
  - rewrite Hso. cbn. by destruct (has_mesh part).
  - reflexivity.
Qed.

Lemma add_geometries_visual_mesh part T class_ self :
  has_mesh part = true →
  add_geometries part T class_ "visual" self = add_mesh part class_ T self.
Proof.
  intros Hm. unfold add_geometries. rewrite step_get_self, Hm. reflexivity.
Qed.

(** C1, as the code has it. In shapes-only mode a part with a mesh file and
    no primitive shape gets no geometry node of class [collision]; its
    visual geometry is still the one mesh node of class [visual], unless
    collisions are drawn in place of the visual geometry, in which case the
    part gets no geometry node at all. *)
Theorem add_part_shapes_only (part : Part) (T_world_link : mat4) (path : string)
    (self : ExporterMuJoCo) :
  collision_shapes_only self = true →
  mesh_file part = Some path → path ≠ "" →
  shapes part = None ∨ shapes part = Some [] →
  let mesh_node :=
    "<geom type=" +:+ quoted "mesh" +:+ " class=" +:+ quoted "visual" +:+ " "
    +:+ pos_quat (matmul (np_linalg_inv T_world_link) (T_world_part part))
    +:+ " mesh=" +:+ quoted (xml_escape (strip_ext (basename path)))
    +:+ " material="
    +:+ quoted (xml_escape (strip_ext (basename path) +:+ "_material")) +:+ "  />" in
  ∃ self' out,
    add_part part T_world_link self = (Ok tt, self')
    ∧ xml self' = (xml self ++ out)%list
    ∧ List.filter (is_geom_of_class "collision") out = []
    ∧ List.filter (is_geom_of_class "visual") out
      = if draw_collisions self then [] else [mesh_node].
Proof.
  intros Hso Hm Hp Hs mesh_node.
  assert (has_mesh part = true) as Hhas.
  { unfold has_mesh. rewrite Hm. apply negb_true_iff, String.eqb_neq. done. }
  unfold add_part. erewrite bind_Ok by apply append_run.
  rewrite step_get_self. cbn [draw_collisions set_xml].
  destruct (draw_collisions self).
  - erewrite bind_Ok by (by apply add_geometries_collision_none).
    rewrite add_geometries_collision_none by done.
    eexists _, _. split; [reflexivity|]. split; [reflexivity|]. done.
  - rewrite (bind_Ok _ _ _ tt
      (set_materials
         (dict_set (strip_ext (basename path) +:+ "_material") (color part)
                   (materials self))
         (set_meshes (meshes self ++ [basename path])
            (set_xml (xml self
                      ++ [ "<!-- Part " +:+ part_name part +:+ " -->";
                           "<!-- Mesh " +:+ part_name part +:+ " -->";
                           mesh_node ]) self)))).
    + rewrite add_geometries_collision_none by done.
      eexists _, _. split; [reflexivity|]. split; [reflexivity|].
      split; reflexivity.
    + rewrite add_geometries_visual_mesh by done.
      unfold add_mesh. rewrite Hm. unfold mesh_node.
      cbn [bind append modify xml set_xml meshes set_meshes materials set_materials].
      rewrite append_run. f_equal. unfold set_xml, set_meshes, set_materials.
      cbn [config draw_collisions no_dynamics additional_xml meshes materials
           collision_shapes_only xml stdout].
      f_equal. rewrite <- !app_assoc. cbn [app]. do 3 f_equal.
      unfold quoted, dq. by autorewrite with str.
Qed.
End Properties.

(** * More properties *)

Section MoreProperties.
Context `{Env}.

(** ** The exporter only grows *)

Lemma extends_refl self : extends self self.
Proof. by repeat split. Qed.

Lemma extends_trans s1 s2 s3 : extends s1 s2 → extends s2 s3 → extends s1 s3.
Proof.
  intros (c1 & d1 & n1 & a1 & o1 & x1 & m1 & k1 & p1)
         (c2 & d2 & n2 & a2 & o2 & x2 & m2 & k2 & p2).
  repeat split; try congruence; by etrans.
Qed.

Lemma dict_set_keys {V} k (v : V) d : d.*1 `prefix_of` (dict_set k v d).*1.
Proof.
  induction d as [|[k1 v1] d IH]; cbn [dict_set].
  - apply prefix_nil.
  - destruct (String.eqb_spec k1 k) as [->|Hne]; [done|].
    cbn. by apply prefix_cons.
Qed.

Lemma extending_ret {A} (a : A) : extending (ret a).
Proof. intros self. apply extends_refl. Qed.

Lemma extending_raise {A} e : extending (raise (A:=A) e).
Proof. intros self. apply extends_refl. Qed.

Lemma extending_lift {A} (o : outcome A) : extending (lift o).
Proof. intros self. apply extends_refl. Qed.

Lemma extending_get_self : extending get_self.
Proof. intros self. apply extends_refl. Qed.

Lemma extending_append line : extending (append line).
Proof. intros self. repeat split; try done. by apply prefix_app_r. Qed.

Lemma extending_print line : extending (print line).
Proof. intros self. repeat split; try done. by apply prefix_app_r. Qed.

Lemma extending_bind {A B} (m : M A) (k : A → M B) :
  extending m → (∀ a, extending (k a)) → extending (bind m k).
Proof.
  intros Hm Hk self. specialize (Hm self). unfold bind.
  destruct (m self) as [[a|e] self1]; cbn in *; [|done].
  eapply extends_trans; [exact Hm | apply Hk].
Qed.

Lemma extending_for_each {A} (l : list A) (body : A → M unit) :
  (∀ x, x ∈ l → extending (body x)) → extending (for_each l body).
Proof.
  induction l as [|x l IH]; intros Hb; cbn [for_each].
  - apply extending_ret.
  - apply extending_bind.
    + apply Hb. by left.
    + intros _. apply IH. intros y Hy. apply Hb. by right.
Qed.

Lemma extending_add_mesh part class_ T : extending (add_mesh part class_ T).
Proof.
  unfold add_mesh. destruct (mesh_file part); [|apply extending_raise].
  apply extending_bind; [apply extending_append|]. intros _.
  apply extending_bind.
  { intros self. repeat split; try done. by apply prefix_app_r. }
  intros _. apply extending_bind; [|intros; apply extending_append].
  intros self. repeat split; try done. apply dict_set_keys.
Qed.

Lemma extending_add_shape part class_ T shape :
  extending (add_shape part class_ T shape).
Proof.
  unfold add_shape. destruct (String.eqb class_ "visual"); [|apply extending_append].
  apply extending_bind; [|intros; apply extending_append].
  intros self. repeat split; try done. apply dict_set_keys.
Qed.

Lemma extending_add_geometries part T class_ what :
  extending (add_geometries part T class_ what).
Proof.
  unfold add_geometries. apply extending_bind; [apply extending_get_self|].
  intros self. destruct (_ && _).
  - unfold add_shapes. destruct (shapes part); [|apply extending_raise].
    apply extending_for_each. intros. apply extending_add_shape.
  - destruct (_ && _); [apply extending_add_mesh | apply extending_ret].
Qed.

Lemma extending_add_part part T : extending (add_part part T).
Proof.
  unfold add_part. apply extending_bind; [apply extending_append|]. intros _.
  apply extending_bind; [apply extending_get_self|]. intros self.
  apply extending_bind; [apply extending_add_geometries|]. intros _.
  apply extending_add_geometries.
Qed.

Lemma extending_add_joint joint : extending (add_joint joint).
Proof.
  unfold add_joint. apply extending_bind; [apply extending_append|]. intros _.
  apply extending_bind.
  - destruct (joint_type joint); try apply extending_ret.
    apply extending_bind; [apply extending_print|]. intros _. apply extending_ret.
  - intros a. apply extending_bind; [apply extending_lift|]. intros x.
    apply extending_append.
Qed.

Lemma extending_add_inertial mass com inertia :
  extending (add_inertial mass com inertia).
Proof. unfold add_inertial. destruct com as [[cx cy] cz]. apply extending_append. Qed.

Lemma extending_add_frame link frame T Tf : extending (add_frame link frame T Tf).
Proof.
  unfold add_frame. apply extending_bind; [apply extending_append|]. intros _.
  apply extending_append.
Qed.

Lemma extending_add_link n robot link pj Twp :
  extending (add_link n robot link pj Twp).
Proof.
  revert link pj Twp. induction n as [|n IH]; intros link pj Twp.
  - apply extending_raise.
  - cbn [add_link].
    apply extending_bind; [apply extending_append|]. intros _.
    apply extending_bind; [apply extending_append|]. intros _.
    apply extending_bind.
    { destruct pj; [apply extending_add_joint | apply extending_append]. }
    intros _. destruct (get_dynamics link _) as [[mass com] inertia].
    apply extending_bind; [apply extending_add_inertial|]. intros _.
    apply extending_bind.
    { apply extending_for_each. intros. apply extending_add_part. }
    intros _. apply extending_bind.
    { apply extending_for_each. intros [frame Tf] _. apply extending_add_frame. }
    intros _. apply extending_bind; [|intros; apply extending_append].
    apply extending_for_each. intros j _. apply IH.
Qed.

(** X3. Whatever the robot, the recursion limit and the outcome, [build]
    leaves the configuration of the exporter as it was, starts the document
    afresh (the lines begin with the header and [<worldbody>], and what
    [self.xml] held before has no effect at all), and keeps everything that
    was registered before: the mesh files, the material names and the console
    output of the exporter are the beginning of those after the call. *)
Theorem build_extends (n : nat) (robot : Robot) (self : ExporterMuJoCo) :
  config (snd (build n robot self)) = config self
  ∧ draw_collisions (snd (build n robot self)) = draw_collisions self
  ∧ collision_shapes_only (snd (build n robot self)) = collision_shapes_only self
  ∧ additional_xml (snd (build n robot self)) = additional_xml self
  ∧ (header robot self ++ ["<worldbody>"])%list `prefix_of` xml (snd (build n robot self))
  ∧ meshes self `prefix_of` meshes (snd (build n robot self))
  ∧ (materials self).*1 `prefix_of` (materials (snd (build n robot self))).*1
  ∧ stdout self `prefix_of` stdout (snd (build n robot self))
  ∧ ∀ lines, build n robot (set_xml lines self) = build n robot self.
Proof.
  rewrite build_unfold.
  pose proof (extending_add_link n robot (get_base_link robot) None np_eye4
                (set_xml (header robot self ++ ["<worldbody>"]) self))
    as (c & d & _ & a & o & x & m & k & p).
  split; [|split; [|split; [|split; [|split; [|split; [|split; [|split]]]]]]].
  9: { intros lines. by rewrite !build_unfold. }
  all: destruct (add_link _ _ _ _ _ _) as [[[]|e] self2]; cbn in *; try done.
  etrans; [exact x|]. by apply prefix_app_r.
Qed.

(** ** Exceptions of the traversal on any robot *)

Lemma raises_add_link_any robot n link pj Twp :
  (∀ j, pj = Some j → j ∈ joints robot) →
  raises_only
    (λ e, e = RecursionError
          ∨ (e = KeyError "frictionloss"
             ∧ ∃ j, j ∈ joints robot ∧ ¬ joint_lookups_ok j))
    (add_link n robot link pj Twp).
Proof.
  revert link pj Twp. induction n as [|n IH]; intros link pj Twp Hpj.
  - intros self e self' [= <- _]. by left.
  - cbn [add_link].
    apply raises_bind; [apply raises_append|]. intros _.
    apply raises_bind; [apply raises_append|]. intros _.
    apply raises_bind.
    { destruct pj as [j|]; [|apply raises_append].
      eapply raises_weaken; [|apply raises_add_joint].
      intros e [-> Hno]. right. split; [done|]. exists j. split; [by apply Hpj | done]. }
    intros _. destruct (get_dynamics link _) as [[mass com] inertia].
    apply raises_bind; [apply raises_add_inertial|]. intros _.
    apply raises_bind.
    { apply raises_for_each. intros. apply raises_add_part. }
    intros _. apply raises_bind.
    { apply raises_for_each. intros [frame Tf] _. apply raises_add_frame. }
    intros _. apply raises_bind; [|intros; apply raises_append].
    apply raises_for_each. intros j Hj.
    apply IH. intros ? [= <-]. unfold get_link_joints in Hj.
    by apply list_elem_of_filter in Hj as [_ Hj].
Qed.

(** X4. The only exceptions of [build], for any robot (the helpers
    imported from other modules, the fields of [Env], being total):
    [RecursionError]
    when the nesting of [add_link] reaches the recursion limit, and
    [KeyError('frictionloss')] for a robot with a joint that has a [friction]
    property and no [frictionloss] property.  In particular a part with no
    mesh file or no shape list never makes the export fail. *)
Theorem build_raises (n : nat) (robot : Robot) (self : ExporterMuJoCo) (e : exn) :
  fst (build n robot self) = Raise e →
  e = RecursionError
  ∨ (e = KeyError "frictionloss"
     ∧ ∃ j, j ∈ joints robot
            ∧ properties j !! "friction" ≠ None
            ∧ properties j !! "frictionloss" = None).
Proof.
  rewrite build_unfold.
  destruct (add_link _ _ _ _ _ _) as [[[]|e'] self2] eqn:E; [done|].
  intros [= ->].
  apply raises_add_link_any in E as [->|[-> (j & Hj & Hno)]]; [by left | | done].
  right. split; [done|]. exists j. split; [done|].
  unfold joint_lookups_ok in Hno.
  destruct (properties j !! "friction") as [vf|]; [|by destruct Hno].
  destruct (properties j !! "frictionloss") as [vl|]; [by destruct Hno|]. done.
Qed.

(** ** Robots with a cycle *)

Lemma add_link_cycle robot (P : nat → Prop) n link pj Twp self self' :
  (∀ l, P (link_id l) →
        ∃ j, j ∈ joints robot ∧ link_id (parent j) = link_id l
             ∧ P (link_id (child j))) →
  P (link_id link) →
  add_link n robot link pj Twp self ≠ (Ok tt, self').
Proof.
  intros Hcyc. revert link pj Twp self self'.
  induction n as [|n IH]; intros link pj Twp self self' HP; [done|].
  cbn [add_link]. intros E.
  apply bind_Ok_inv in E as ([] & s1 & _ & E).
  apply bind_Ok_inv in E as ([] & s2 & _ & E).
  apply bind_Ok_inv in E as ([] & s3 & _ & E).
  destruct (get_dynamics link _) as [[mass com] inertia].
  apply bind_Ok_inv in E as ([] & s4 & _ & E).
  apply bind_Ok_inv in E as ([] & s5 & _ & E).
  apply bind_Ok_inv in E as ([] & s6 & _ & E).
  apply bind_Ok_inv in E as ([] & s7 & E & _).
  destruct (Hcyc link HP) as (j & Hj & Hp & HPc).
  assert (j ∈ get_link_joints robot link) as Hin.
  { unfold get_link_joints. by apply list_elem_of_filter. }
  clear -E Hin HPc IH. revert s6 E.
  induction (get_link_joints robot link) as [|j' js IHjs]; intros s6 E.
  - by apply elem_of_nil in Hin.
  - cbn [for_each] in E. apply bind_Ok_inv in E as ([] & s & E1 & E2).
    apply elem_of_cons in Hin as [->|Hin].
    + by apply IH in E1.
    + by apply (IHjs Hin s).
Qed.

(** X5. A robot whose links reachable from the base link include a cycle
    of joints: [P] holds of the base link, and every link of which [P] holds
    is the parent of a joint to a link of which [P] holds.  Then [build]
    never returns a document, whatever the recursion limit; when the property
    lookups of the joints succeed it ends in [RecursionError]. *)
Theorem build_cycle (robot : Robot) (P : nat → Prop) (n : nat) (self : ExporterMuJoCo) :
  (∀ l, P (link_id l) →
        ∃ j, j ∈ joints robot ∧ link_id (parent j) = link_id l
             ∧ P (link_id (child j))) →
  P (link_id (get_base_link robot)) →
  (∀ doc, fst (build n robot self) ≠ Ok doc)
  ∧ ((∀ j, j ∈ joints robot → joint_lookups_ok j) →
     fst (build n robot self) = Raise RecursionError).
Proof.
  intros Hcyc HP. rewrite build_unfold.
  destruct (add_link _ _ _ _ _ _) as [[[]|e] self2] eqn:E.
  - by apply (add_link_cycle robot P) in E.
  - split; [done|]. intros Hok. cbn. f_equal.
    apply raises_add_link_any in E as [->|[_ (j & Hj & Hno)]]; [done | | done].
    destruct (Hno (Hok j Hj)).
Qed.

(** ** Nesting of the bodies, for any robot *)

Lemma nesting_app k a b :
  nesting k (a ++ b) = nesting k a ≫= λ k', nesting k' b.
Proof.
  revert k. induction a as [|line a IH]; intros k; cbn [app nesting]; [done|].
  destruct (is_body_open line); [apply IH|].
  destruct (is_body_close line); [|apply IH].
  destruct k; [done | apply IH].
Qed.

Lemma neutral_nesting k out : Forall neutral out → nesting k out = Some k.
Proof.
  induction 1 as [|line out [Ho Hc] _ IH]; cbn [nesting]; [done|].
  by rewrite Ho, Hc.
Qed.

Lemma add_link_children_nesting n robot T js :
  (∀ j self self', add_link n robot (child j) (Some j) T self = (Ok tt, self') →
     ∃ out, xml self' = (xml self ++ out)%list ∧ ∀ k, nesting k out = Some k) →
  ∀ self self',
    for_each js (λ j, add_link n robot (child j) (Some j) T) self = (Ok tt, self') →
    ∃ out, xml self' = (xml self ++ out)%list ∧ ∀ k, nesting k out = Some k.
Proof.
  intros IH. induction js as [|j js IHjs]; intros self self'; cbn [for_each].
  - intros [= <-]. exists []. by rewrite app_nil_r.
  - intros E. apply bind_Ok_inv in E as ([] & self1 & E1 & E2).
    apply IH in E1 as (out1 & X1 & L1).
    apply IHjs in E2 as (out2 & X2 & L2).
    exists (out1 ++ out2)%list. split; [by rewrite X2, X1, app_assoc|].
    intros k. by rewrite nesting_app, L1; cbn; rewrite L2.
Qed.

Lemma add_link_nesting n robot link pj Twp self self' :
  add_link n robot link pj Twp self = (Ok tt, self') →
  ∃ out, xml self' = (xml self ++ out)%list ∧ ∀ k, nesting k out = Some k.
Proof.
  revert link pj Twp self self'.
  induction n as [|n IH]; intros link pj Twp self self'; [done|].
  cbn [add_link]. intros E.
  apply bind_Ok_inv in E as ([] & s1 & E1 & E). rewrite append_run in E1.
  apply bind_Ok_inv in E as ([] & s2 & E2 & E). rewrite append_run in E2.
  apply bind_Ok_inv in E as ([] & s3 & E3 & E).
  destruct (get_dynamics link _) as [[mass com] inertia].
  apply bind_Ok_inv in E as ([] & s4 & E4 & E).
  apply bind_Ok_inv in E as ([] & s5 & E5 & E).
  apply bind_Ok_inv in E as ([] & s6 & E6 & E).
  apply bind_Ok_inv in E as ([] & s7 & E7 & E). rewrite append_run in E.
  injection E1 as <-. injection E2 as <-. injection E as <-.
  assert (quiet (match pj with
                 | None => append ("<freejoint name=" +:+ quoted "root" +:+ " />")
                 | Some j => add_joint j
                 end)) as Q3.
  { destruct pj; [apply quiet_add_joint | apply quiet_append; by split]. }
  destruct (quiet_Ok _ _ _ _ Q3 E3) as (o3 & X3 & N3).
  destruct (quiet_Ok _ _ _ _ (quiet_add_inertial _ _ _) E4) as (o4 & X4 & N4).
  assert (quiet (for_each (parts link)
                   (λ part, add_part part (T_world_of pj)))) as Q5.
  { apply quiet_for_each. intros. apply quiet_add_part. }
  destruct (quiet_Ok _ _ _ _ Q5 E5) as (o5 & X5 & N5).
  assert (quiet (for_each (frames link)
                   (λ '(frame, T_world_frame),
                      add_frame link frame (T_world_of pj) T_world_frame))) as Q6.
  { apply quiet_for_each. intros [frame Tf] _. apply quiet_add_frame. }
  destruct (quiet_Ok _ _ _ _ Q6 E6) as (o6 & X6 & N6).
  apply (add_link_children_nesting n robot (T_world_of pj)) in E7
    as (o7 & X7 & L7); [|exact (λ j, IH (child j) (Some j) (T_world_of pj))].
  exists ([ "<!-- Link " +:+ link_name link +:+ " -->";
            body_open link (matmul (np_linalg_inv Twp) (T_world_of pj)) ]
          ++ (o3 ++ o4 ++ o5 ++ o6) ++ o7 ++ ["</body>"])%list.
  split.
  - cbn [xml set_xml]. rewrite X7, X6, X5, X4, X3. cbn [xml set_xml].
    rewrite <- !app_assoc. reflexivity.
  - assert (N : Forall neutral (o3 ++ o4 ++ o5 ++ o6)%list)
      by (rewrite !Forall_app; done).
    intros k. cbn [app nesting].
    rewrite is_body_open_body_open.
    change (is_body_open ("<!-- Link " +:+ link_name link +:+ " -->")) with false.
    change (is_body_close ("<!-- Link " +:+ link_name link +:+ " -->")) with false.
    cbn iota.
    rewrite nesting_app, (neutral_nesting _ _ N). cbn [mbind option_bind].
    rewrite nesting_app, L7. reflexivity.
Qed.

(** X6. For any robot, whenever [build] returns a document, the lines
    between [<worldbody>] and [</worldbody>] are well nested (every body that
    is opened is closed, none is closed before it is opened), and they open
    one body for each call of [add_link], in the order and at the depth of the
    calls: a link that several joints lead to is written once for each. *)
Theorem build_well_nested (n : nat) (robot : Robot) (self : ExporterMuJoCo)
    (doc : string) :
  fst (build n robot self) = Ok doc →
  ∃ out,
    xml (snd (build n robot self))
    = (header robot self ++ "<worldbody>" :: out
       ++ "</worldbody>" :: footer robot (snd (build n robot self)))%list
    ∧ nesting 0 out = Some 0
    ∧ body_depths 0 out
      = (λ v, (visit_body v, v_depth v))
          <$> visits n robot (get_base_link robot) None np_eye4 0.
Proof.
  rewrite build_unfold.
  destruct (add_link _ _ _ _ _ _) as [[[]|e] self2] eqn:E; [|done].
  intros _. cbn [fst snd xml set_xml].
  destruct (add_link_nesting _ _ _ _ _ _ _ E) as (out & X & N).
  destruct (add_link_lines _ _ _ _ _ _ _ E) as (out' & X' & L).
  assert (out' = out) as -> by (rewrite X in X'; by apply app_inv_head in X').
  exists out. split; [|split; [apply N | apply L]].
  rewrite X. cbn [xml set_xml]. rewrite <- !app_assoc. reflexivity.
Qed.

(** ** What a mesh geometry refers to is declared *)

Lemma prefix_elem_of {A} (l1 l2 : list A) x : l1 `prefix_of` l2 → x ∈ l1 → x ∈ l2.
Proof. intros [k ->] Hx. apply elem_of_app. by left. Qed.



Lemma dict_set_key {V} k (v : V) d : k ∈ (dict_set k v d).*1.
Proof.
  induction d as [|[k1 v1] d IH]; cbn [dict_set].
  - cbn. by left.
  - destruct (String.eqb_spec k1 k) as [->|Hne]; cbn; [by left | by right].
Qed.







(** ** The names [add_mesh] derives from the mesh file *)

Lemma split_on_nonempty c s : split_on c s ≠ [].
Proof.
  destruct s as [|a s]; cbn [split_on]; [done|].
  destruct (Ascii.eqb a c); [done|]. by destruct (split_on c s).
Qed.

Lemma split_on_without c s : without c s = true → split_on c s = [s].
Proof.
  induction s as [|a s IH]; cbn [split_on without]; [done|].
  intros [Ha Hs]%andb_prop. apply negb_true_iff in Ha. rewrite Ha, IH; done.
Qed.

(** [(a + c + b).split(c) = a.split(c) + b.split(c)] *)
Lemma split_on_sep c a b :
  split_on c (a +:+ String c b) = (split_on c a ++ split_on c b)%list.
Proof.
  induction a as [|x a IH].
  - rewrite append_nil_l. cbn [split_on]. by rewrite Ascii.eqb_refl.
  - rewrite append_cons. cbn [split_on]. rewrite IH.
    destruct (Ascii.eqb x c); [done|].
    pose proof (split_on_nonempty c a). by destruct (split_on c a).
Qed.

(** [c.join(s.split(c)) = s] *)
Lemma concat_split_on c s : String.concat (String c "") (split_on c s) = s.
Proof.
  induction s as [|a s IH]; [done|].
  cbn [split_on]. pose proof (split_on_nonempty c s) as Hne.
  destruct (split_on c s) as [|w ws] eqn:E; [done|].
  destruct (Ascii.eqb_spec a c) as [->|_].
  - change (String.concat (String c "") ("" :: w :: ws))
      with ("" +:+ String c "" +:+ String.concat (String c "") (w :: ws)).
    rewrite IH. by autorewrite with str.
  - destruct ws as [|w' ws].
    + change (w = s) in IH. by subst.
    + change (w +:+ String c "" +:+ String.concat (String c "") (w' :: ws) = s) in IH.
      change (String.concat (String c "") (String a w :: w' :: ws))
        with (String a w +:+ String c "" +:+ String.concat (String c "") (w' :: ws)).
      rewrite <- IH. by autorewrite with str.
Qed.

Lemma last_app_nonempty {A} (l1 l2 : list A) d :
  l2 ≠ [] → List.last (l1 ++ l2) d = List.last l2 d.
Proof.
  intros Hne. induction l1 as [|x l1 IH]; [done|].
  cbn [app]. cbn [List.last]. destruct (l1 ++ l2)%list eqn:E; [|exact IH].
  apply app_eq_nil in E as [_ ->]. done.
Qed.

Lemma basename_join dir file :
  without "/" file = true → basename (dir +:+ "/" +:+ file) = file.
Proof.
  intros Hf. unfold basename.
  change ("/" +:+ file) with (String "/" file).
  rewrite split_on_sep, last_app_nonempty by apply split_on_nonempty.
  by rewrite split_on_without.
Qed.

Lemma basename_plain file : without "/" file = true → basename file = file.
Proof. intros Hf. unfold basename. by rewrite split_on_without. Qed.

Lemma strip_ext_ext name ext :
  without "." ext = true → strip_ext (name +:+ "." +:+ ext) = name.
Proof.
  intros He. unfold strip_ext.
  change ("." +:+ ext) with (String "." ext).
  rewrite split_on_sep, (split_on_without _ ext He), removelast_last.
  apply concat_split_on.
Qed.

Lemma strip_ext_none file : without "." file = true → strip_ext file = "".
Proof. intros Hf. unfold strip_ext. by rewrite split_on_without. Qed.

Lemma add_mesh_lines part class_ T path self :
  mesh_file part = Some path →
  add_mesh part class_ T self
  = (Ok tt,
     set_xml (xml self ++ ["<!-- Mesh " +:+ part_name part +:+ " -->";
                           mesh_geom part path class_ T])
       (set_materials
          (dict_set (strip_ext (basename path) +:+ "_material") (color part)
                    (materials self))
          (set_meshes (meshes self ++ [basename path]) self))).
Proof.
  intros Hp. unfold add_mesh. rewrite Hp.
  cbn [bind append modify xml set_xml meshes set_meshes materials set_materials].
  rewrite append_run. f_equal. unfold set_xml, set_meshes, set_materials.
  cbn [config draw_collisions no_dynamics additional_xml meshes materials
       collision_shapes_only xml stdout].
  f_equal. rewrite <- !app_assoc. cbn [app]. do 3 f_equal.
  unfold mesh_geom, quoted, dq. by autorewrite with str.
Qed.

(** X8. The names [add_mesh] derives from a mesh file [name.ext] (the
    extension [ext] has no dot, [name] may have some), given with or without
    a directory: the file registered for the asset section is [name.ext], the
    directory being dropped, the mesh name of the geometry node is [name] and
    the material registered with the color of the part is [name_material]. *)
Theorem add_mesh_names (part : Part) (class_ : string) (T_world_link : mat4)
    (dir name ext : string) (self : ExporterMuJoCo) :
  mesh_file part = Some (name +:+ "." +:+ ext)
  ∨ mesh_file part = Some (dir +:+ "/" +:+ name +:+ "." +:+ ext) →
  without "/" name = true →
  without "/" ext = true →
  without "." ext = true →
  ∃ self',
    add_mesh part class_ T_world_link self = (Ok tt, self')
    ∧ meshes self' = (meshes self ++ [name +:+ "." +:+ ext])%list
    ∧ materials self' = dict_set (name +:+ "_material") (color part) (materials self)
    ∧ xml self'
      = (xml self
         ++ [ "<!-- Mesh " +:+ part_name part +:+ " -->";
              "<geom type=" +:+ quoted "mesh" +:+ " class=" +:+ quoted class_ +:+ " "
              +:+ pos_quat (matmul (np_linalg_inv T_world_link) (T_world_part part))
              +:+ " " +:+ "mesh=" +:+ quoted (xml_escape name) +:+ " "
              +:+ "material=" +:+ quoted (xml_escape (name +:+ "_material")) +:+ " "
              +:+ " />" ])%list.
Proof.
  intros Hp Hn He Hd.
  assert (without "/" (name +:+ "." +:+ ext) = true) as Hf.
  { clear Hp. induction name as [|a name IH].
    - rewrite append_nil_l. change ("." +:+ ext) with (String "." ext).
      cbn [without]. by rewrite He.
    - rewrite append_cons. cbn [without] in *.
      apply andb_prop in Hn as [-> Hn]. by rewrite IH. }
  assert (∃ path, mesh_file part = Some path
                  ∧ basename path = name +:+ "." +:+ ext) as (path & Hpath & Hb).
  { destruct Hp as [Hp|Hp]; eexists; (split; [exact Hp|]).
    - by apply basename_plain.
    - by apply basename_join. }
  eexists. split; [by apply add_mesh_lines|].
  cbn [meshes materials xml set_xml set_meshes set_materials].
  unfold mesh_geom. rewrite Hb, strip_ext_ext by done. done.
Qed.

(** X9. A mesh file without extension (no dot in its base name) gets
    the empty mesh name and the material name [_material]: the parts with
    such mesh files all share one material, whose color is that of the part
    added last. *)
Theorem add_mesh_no_extension (part : Part) (class_ : string) (T_world_link : mat4)
    (path : string) (self : ExporterMuJoCo) :
  mesh_file part = Some path →
  without "." (basename path) = true →
  ∃ self',
    add_mesh part class_ T_world_link self = (Ok tt, self')
    ∧ meshes self' = (meshes self ++ [basename path])%list
    ∧ materials self' = dict_set "_material" (color part) (materials self)
    ∧ xml self'
      = (xml self
         ++ [ "<!-- Mesh " +:+ part_name part +:+ " -->";
              "<geom type=" +:+ quoted "mesh" +:+ " class=" +:+ quoted class_ +:+ " "
              +:+ pos_quat (matmul (np_linalg_inv T_world_link) (T_world_part part))
              +:+ " " +:+ "mesh=" +:+ quoted (xml_escape "") +:+ " "
              +:+ "material=" +:+ quoted (xml_escape "_material") +:+ " "
              +:+ " />" ])%list.
Proof.
  intros Hp Hd. eexists. split; [by apply add_mesh_lines|].
  cbn [meshes materials xml set_xml set_meshes set_materials].
  unfold mesh_geom. rewrite strip_ext_none by done. done.
Qed.

(** ** The geometry of a part with a shape list *)

Lemma add_shape_line part class_ T shape self :
  ∃ self' rest,
    add_shape part class_ T shape self = (Ok tt, self')
    ∧ xml self' = (xml self ++ ["<geom class=" +:+ quoted class_ +:+ " " +:+ rest])%list
    ∧ meshes self' = meshes self
    ∧ draw_collisions self' = draw_collisions self
    ∧ collision_shapes_only self' = collision_shapes_only self.
Proof.
  unfold add_shape. destruct (String.eqb class_ "visual").
  - eexists _,
           (pos_quat (matmul (matmul (np_linalg_inv T) (T_world_part part))
                             (T_part_shape shape)) +:+ " "
            +:+ shape_type_size shape
            +:+ "material=" +:+ quoted (xml_escape (part_name part +:+ "_material"))
            +:+ " " +:+ " />").
    split; [reflexivity|]. cbn [xml meshes draw_collisions collision_shapes_only
                                set_xml set_materials].
    split; [|done]. do 2 f_equal. by rewrite !append_assoc.
  - eexists _,
           (pos_quat (matmul (matmul (np_linalg_inv T) (T_world_part part))
                             (T_part_shape shape)) +:+ " "
            +:+ shape_type_size shape +:+ " />").
    split; [reflexivity|]. cbn [xml meshes draw_collisions collision_shapes_only set_xml].
    split; [|done]. do 2 f_equal. by rewrite !append_assoc.
Qed.

Lemma add_shapes_lines part class_ T l self :
  ∃ self' rests,
    for_each l (add_shape part class_ T) self = (Ok tt, self')
    ∧ xml self'
      = (xml self ++ ((λ r, "<geom class=" +:+ quoted class_ +:+ " " +:+ r) <$> rests))%list
    ∧ length rests = length l
    ∧ meshes self' = meshes self
    ∧ draw_collisions self' = draw_collisions self
    ∧ collision_shapes_only self' = collision_shapes_only self.
Proof.
  revert self. induction l as [|shape l IH]; intros self; cbn [for_each].
  - exists self, []. by rewrite app_nil_r.
  - destruct (add_shape_line part class_ T shape self) as (s1 & r & E1 & X1 & M1 & D1 & O1).
    destruct (IH s1) as (s2 & rs & E2 & X2 & L2 & M2 & D2 & O2).
    exists s2, (r :: rs). erewrite bind_Ok by exact E1.
    split; [done|]. rewrite X2, X1, <- app_assoc. cbn. repeat split; congruence.
Qed.

Lemma filter_fmap_const {A B} (p : B → bool) (f : A → B) (l : list A) b :
  (∀ a, p (f a) = b) →
  length (List.filter p (f <$> l)) = if b then length l else 0.
Proof.
  intros Hp. induction l as [|a l IH]; cbn; [by destruct b|].
  rewrite Hp. destruct b; cbn; by rewrite IH.
Qed.

(** X10. The geometry of a part with a shape list [l] (possibly empty),
    whatever the shapes-only mode: [add_part] returns; the part gets as many
    geometry nodes of class [collision] as it has shapes; it gets one node
    of class [visual] when collisions are not drawn and the part has a mesh
    file, as many as it has shapes when collisions are drawn, none
    otherwise; and its mesh file is appended to [self.meshes] exactly when
    collisions are not drawn and the part has a mesh file. *)
Theorem add_part_with_shapes (part : Part) (T_world_link : mat4) (l : list Shape)
    (self : ExporterMuJoCo) :
  shapes part = Some l →
  ∃ self' out,
    add_part part T_world_link self = (Ok tt, self')
    ∧ xml self' = (xml self ++ out)%list
    ∧ length (List.filter (is_geom_of_class "collision") out) = length l
    ∧ length (List.filter (is_geom_of_class "visual") out)
      = (if draw_collisions self then length l
         else if has_mesh part then 1 else 0)
    ∧ meshes self'
      = (meshes self
         ++ if has_mesh part && negb (draw_collisions self)
            then option_list (basename <$> mesh_file part) else [])%list.
Proof.
  intros Hl. unfold add_part.
  rewrite (bind_Ok _ _ _ _ _ (append_run _ self)), step_get_self.
  change (draw_collisions (set_xml ?v self)) with (draw_collisions self).
  set (s0 := set_xml (xml self ++ ["<!-- Part " +:+ part_name part +:+ " -->"]) self).
  assert (∀ s, add_geometries part T_world_link "collision" "collision" s
               = for_each l (add_shape part "collision" T_world_link) s) as Hcol.
  { intros s. unfold add_geometries, add_shapes. rewrite step_get_self, Hl. reflexivity. }
  assert (∀ rs : list string,
    length (List.filter (is_geom_of_class "collision")
              ((λ r, "<geom class=" +:+ quoted "collision" +:+ " " +:+ r) <$> rs))
    = length rs) as Fcc.
  { intros rs. by rewrite (filter_fmap_const _ _ _ true). }
  assert (∀ rs : list string,
    length (List.filter (is_geom_of_class "visual")
              ((λ r, "<geom class=" +:+ quoted "collision" +:+ " " +:+ r) <$> rs))
    = 0) as Fvc.
  { intros rs. by rewrite (filter_fmap_const _ _ _ false). }
  assert (∀ rs : list string,
    length (List.filter (is_geom_of_class "visual")
              ((λ r, "<geom class=" +:+ quoted "visual" +:+ " " +:+ r) <$> rs))
    = length rs) as Fvv.
  { intros rs. by rewrite (filter_fmap_const _ _ _ true). }
  assert (∀ rs : list string,
    length (List.filter (is_geom_of_class "collision")
              ((λ r, "<geom class=" +:+ quoted "visual" +:+ " " +:+ r) <$> rs))
    = 0) as Fcv.
  { intros rs. by rewrite (filter_fmap_const _ _ _ false). }
  assert (∀ c name, is_geom_of_class c ("<!-- Part " +:+ name) = false) as Hpc
    by reflexivity.
  assert (∀ c name, is_geom_of_class c ("<!-- Mesh " +:+ name) = false) as Hmc
    by reflexivity.
  assert (∀ path, is_geom_of_class "visual" (mesh_geom part path "visual" T_world_link)
                  = true) as Hgv by reflexivity.
  assert (∀ path, is_geom_of_class "collision"
                    (mesh_geom part path "visual" T_world_link) = false) as Hgc
    by reflexivity.
  destruct (draw_collisions self) eqn:Hd.
  - assert (add_geometries part T_world_link "visual" "collision" s0
            = for_each l (add_shape part "visual" T_world_link) s0) as Hvis.
    { unfold add_geometries, add_shapes. rewrite step_get_self, Hl. reflexivity. }
    destruct (add_shapes_lines part "visual" T_world_link l s0)
      as (s1 & rv & E1 & X1 & L1 & M1 & _).
    destruct (add_shapes_lines part "collision" T_world_link l s1)
      as (s2 & rc & E2 & X2 & L2 & M2 & _).
    rewrite <- Hvis in E1. rewrite <- Hcol in E2.
    eexists s2, _. erewrite bind_Ok by exact E1. split; [exact E2|].
    split; [rewrite X2, X1; unfold s0; cbn [xml set_xml];
            rewrite <- !app_assoc; reflexivity|].
    rewrite !List.filter_app, !length_app, Fcc, Fcv, Fvv, Fvc.
    rewrite andb_false_r, app_nil_r, M2, M1. cbn [List.filter app length].
    rewrite !Hpc. cbn. repeat split; lia.
  - destruct (has_mesh part) eqn:Hm.
    + destruct (mesh_file part) as [path|] eqn:Hp;
        [|by unfold has_mesh in Hm; rewrite Hp in Hm].
      pose proof (add_mesh_lines part "visual" T_world_link path s0 Hp) as E1.
      rewrite <- (add_geometries_visual_mesh _ _ _ _ Hm) in E1.
      match type of E1 with _ = (_, ?s) => set (s1 := s) in * end.
      destruct (add_shapes_lines part "collision" T_world_link l s1)
        as (s2 & rc & E2 & X2 & L2 & M2 & _).
      rewrite <- Hcol in E2.
      eexists s2, _. erewrite bind_Ok by exact E1. split; [exact E2|].
      split; [rewrite X2; unfold s1, s0; cbn [xml set_xml];
              rewrite <- !app_assoc; reflexivity|].
      rewrite !List.filter_app, !length_app, Fcc, Fvc, M2. cbn [List.filter app length].
      rewrite !Hpc, !Hmc, Hgv, Hgc. cbn. repeat split; lia.
    + assert (add_geometries part T_world_link "visual" "visual" s0 = (Ok tt, s0)) as E1.
      { unfold add_geometries. rewrite step_get_self, Hm. reflexivity. }
      destruct (add_shapes_lines part "collision" T_world_link l s0)
        as (s2 & rc & E2 & X2 & L2 & M2 & _).
      rewrite <- Hcol in E2.
      eexists s2, _. erewrite bind_Ok by exact E1. split; [exact E2|].
      split; [rewrite X2; unfold s0; cbn [xml set_xml];
              rewrite <- !app_assoc; reflexivity|].
      rewrite !List.filter_app, !length_app, Fcc, Fvc, M2, app_nil_r.
      cbn [List.filter app length]. rewrite !Hpc. cbn. repeat split; lia.
Qed.

(** ** The elements of a body *)

Lemma writes_ret {A} Q (a : A) : writes Q (ret a).
Proof. intros self. exists []. by rewrite app_nil_r. Qed.

Lemma writes_raise {A} Q e : writes Q (raise (A:=A) e).
Proof. intros self. exists []. by rewrite app_nil_r. Qed.

Lemma writes_get_self Q : writes Q get_self.
Proof. intros self. exists []. by rewrite app_nil_r. Qed.

Lemma writes_modify Q f : (∀ self, xml (f self) = xml self) → writes Q (modify f).
Proof. intros Hf self. exists []. cbn. by rewrite Hf, app_nil_r. Qed.

Lemma writes_append (Q : string → Prop) line : Q line → writes Q (append line).
Proof. intros Hq self. exists [line]. split; [done|]. by constructor. Qed.

Lemma writes_bind {A B} Q (m : M A) (k : A → M B) :
  writes Q m → (∀ a, writes Q (k a)) → writes Q (bind m k).
Proof.
  intros Hm Hk self. destruct (Hm self) as (out1 & X1 & N1).
  unfold bind. destruct (m self) as [[a|e] self1]; simpl in *.
  - destruct (Hk a self1) as (out2 & X2 & N2). exists (out1 ++ out2)%list.
    split; [by rewrite X2, X1, app_assoc | by apply Forall_app].
  - by exists out1.
Qed.

Lemma writes_for_each {A} Q (l : list A) (body : A → M unit) :
  (∀ x, writes Q (body x)) → writes Q (for_each l body).
Proof.
  intros Hb. induction l as [|x l IH]; simpl.
  - apply writes_ret.
  - apply writes_bind; [apply Hb | intros _; apply IH].
Qed.

Lemma writes_run {A} Q (m : M A) self o self' :
  writes Q m → m self = (o, self') →
  ∃ out, xml self' = (xml self ++ out)%list ∧ Forall Q out.
Proof. intros Hm E. specialize (Hm self). by rewrite E in Hm. Qed.

(** The lines of a part are comments and geometry nodes. *)
Lemma writes_add_part part T :
  writes (λ line, tag line = "<!--" ∨ tag line = "<geom") (add_part part T).
Proof.
  assert (∀ class_ what,
    writes (λ line, tag line = "<!--" ∨ tag line = "<geom")
           (add_geometries part T class_ what)) as Hg.
  { intros class_ what. unfold add_geometries.
    apply writes_bind; [apply writes_get_self|]. intros self.
    destruct (_ && _).
    - unfold add_shapes. destruct (shapes part); [|apply writes_raise].
      apply writes_for_each. intros shape. unfold add_shape.
      destruct (String.eqb class_ "visual").
      + apply writes_bind; [by apply writes_modify|]. intros _.
        apply writes_append. right. rewrite <- !append_assoc. reflexivity.
      + apply writes_append. right. rewrite <- !append_assoc. reflexivity.
    - destruct (_ && _); [|apply writes_ret].
      unfold add_mesh. destruct (mesh_file part); [|apply writes_raise].
      apply writes_bind; [apply writes_append; by left|]. intros _.
      apply writes_bind; [by apply writes_modify|]. intros _.
      apply writes_bind; [by apply writes_modify|]. intros _.
      apply writes_append. right. rewrite <- !append_assoc. reflexivity. }
  unfold add_part. apply writes_bind; [apply writes_append; by left|]. intros _.
  apply writes_bind; [apply writes_get_self|]. intros self.
  apply writes_bind; [apply Hg|]. intros _. apply Hg.
Qed.

Lemma count_tag_app t a b : count_tag t (a ++ b) = count_tag t a + count_tag t b.
Proof. unfold count_tag. by rewrite List.filter_app, length_app. Qed.

Lemma count_tag_none t (Q : string → Prop) out :
  (∀ line, Q line → tag line ≠ t) → Forall Q out → count_tag t out = 0.
Proof.
  intros Hq. induction 1 as [|line out Hl _ IH]; [done|].
  unfold count_tag in *. cbn [List.filter].
  destruct (String.eqb_spec (tag line) t) as [E|_]; [by apply Hq in E | exact IH].
Qed.

Lemma add_joint_tags joint self self' :
  add_joint joint self = (Ok tt, self') →
  ∃ c l, xml self' = (xml self ++ [c; l])%list ∧ tag c = "<!--" ∧ tag l = "<joint".
Proof.
  unfold add_joint. rewrite (bind_Ok _ _ _ _ _ (append_run _ self)). intros E.
  apply bind_Ok_inv in E as (a & s1 & E1 & E).
  apply bind_Ok_inv in E as (x & s2 & E2 & E).
  assert (xml s1 = xml (set_xml (xml self ++
            ["<!-- Joint from " +:+ link_name (parent joint) +:+ " to "
             +:+ link_name (child joint) +:+ " -->"]) self)
          ∧ ∃ rest, a = "<joint " +:+ rest) as [X1 (rest & ->)].
  { destruct (joint_type joint); cbn in E1; injection E1 as <- <-;
      (split; [done|]); eexists; by rewrite !append_assoc. }
  unfold lift in E2.
  pose proof (f_equal fst E2) as Ea. cbn [fst] in Ea.
  pose proof (f_equal snd E2) as Es. cbn [snd] in Es. subst s2. clear E2.
  apply joint_attrs_prefix in Ea as (suffix & ->).
  rewrite append_run in E. injection E as <-.
  eexists _, _. cbn [xml set_xml]. rewrite X1. cbn [xml set_xml].
  rewrite <- app_assoc. split; [reflexivity|]. split; [reflexivity|].
  rewrite !append_assoc. reflexivity.
Qed.

Lemma add_frame_tags link frame T Tf self :
  ∃ c l, add_frame link frame T Tf self = (Ok tt, set_xml (xml self ++ [c; l]) self)
         ∧ tag c = "<!--" ∧ tag l = "<site".
Proof.
  eexists _, _. split.
  - unfold add_frame. rewrite (bind_Ok _ _ _ _ _ (append_run _ self)), append_run.
    cbn [xml set_xml]. rewrite set_xml_twice, <- app_assoc. reflexivity.
  - split; [reflexivity|]. rewrite !append_assoc. reflexivity.
Qed.

Lemma add_inertial_tags mass com inertia self :
  ∃ l, add_inertial mass com inertia self = (Ok tt, set_xml (xml self ++ [l]) self)
       ∧ tag l = "<inertial".
Proof.
  destruct com as [[cx cy] cz]. eexists. split; [apply append_run|].
  rewrite !append_assoc. reflexivity.
Qed.

Lemma add_frames_tags link T l self :
  ∃ out,
    for_each l (λ '(frame, T_world_frame), add_frame link frame T T_world_frame) self
    = (Ok tt, set_xml (xml self ++ out) self)
    ∧ count_tag "<site" out = length l
    ∧ count_tag "<inertial" out = 0
    ∧ count_tag "<joint" out = 0
    ∧ count_tag "<freejoint" out = 0
    ∧ count_tag "<body" out = 0.
Proof.
  revert self. induction l as [|[frame Tf] l IH]; intros self; cbn [for_each].
  - exists []. by rewrite app_nil_r, set_xml_same.
  - destruct (add_frame_tags link frame T Tf self) as (c & s & E1 & Hc & Hs).
    destruct (IH (set_xml (xml self ++ [c; s]) self)) as (out & E2 & C).
    exists ([c; s] ++ out)%list. erewrite bind_Ok by exact E1.
    split; [rewrite E2; cbn [xml set_xml]; by rewrite set_xml_twice, <- app_assoc|].
    rewrite !count_tag_app. unfold count_tag at 1 3 5 7 9. cbn [List.filter].
    rewrite Hc, Hs. cbn. destruct C as (-> & -> & -> & -> & ->). done.
Qed.

Lemma count_tag_cons t line lines :
  count_tag t (line :: lines)
  = (if String.eqb (tag line) t then 1 else 0) + count_tag t lines.
Proof. unfold count_tag. cbn [List.filter]. by destruct (String.eqb (tag line) t). Qed.

Lemma count_tag_nil t : count_tag t [] = 0.
Proof. reflexivity. Qed.

Lemma add_link_children_census n robot T k js :
  (∀ j self self', add_link n robot (child j) (Some j) T self = (Ok tt, self') →
     ∃ out, xml self' = (xml self ++ out)%list
       ∧ count_tag "<body" out
         = length (visits n robot (child j) (Some j) T k)
       ∧ count_tag "<inertial" out
         = length (visits n robot (child j) (Some j) T k)
       ∧ count_tag "<freejoint" out = 0
       ∧ count_tag "<joint" out
         = length (visits n robot (child j) (Some j) T k)
       ∧ count_tag "<site" out
         = sum_list_with (λ v, length (frames (v_link v)))
                         (visits n robot (child j) (Some j) T k)) →
  ∀ self self',
    for_each js (λ j, add_link n robot (child j) (Some j) T) self = (Ok tt, self') →
    ∃ out, xml self' = (xml self ++ out)%list
      ∧ count_tag "<body" out
        = length (js ≫= λ j, visits n robot (child j) (Some j) T k)
      ∧ count_tag "<inertial" out
        = length (js ≫= λ j, visits n robot (child j) (Some j) T k)
      ∧ count_tag "<freejoint" out = 0
      ∧ count_tag "<joint" out
        = length (js ≫= λ j, visits n robot (child j) (Some j) T k)
      ∧ count_tag "<site" out
        = sum_list_with (λ v, length (frames (v_link v)))
                        (js ≫= λ j, visits n robot (child j) (Some j) T k).
Proof.
  intros IH. induction js as [|j js IHjs]; intros self self'; cbn [for_each].
  - intros [= <-]. exists []. by rewrite app_nil_r.
  - intros E. apply bind_Ok_inv in E as ([] & self1 & E1 & E2).
    apply IH in E1 as (out1 & X1 & B1 & I1 & F1 & J1 & S1).
    apply IHjs in E2 as (out2 & X2 & B2 & I2 & F2 & J2 & S2).
    exists (out1 ++ out2)%list. split; [by rewrite X2, X1, app_assoc|].
    rewrite bind_cons, !count_tag_app, length_app, sum_list_with_app.
    rewrite B1, B2, I1, I2, F1, F2, J1, J2, S1, S2. done.
Qed.

Lemma add_link_census n robot link pj Twp k self self' :
  add_link n robot link pj Twp self = (Ok tt, self') →
  ∃ out, xml self' = (xml self ++ out)%list
    ∧ count_tag "<body" out = length (visits n robot link pj Twp k)
    ∧ count_tag "<inertial" out = length (visits n robot link pj Twp k)
    ∧ count_tag "<freejoint" out = match pj with Some _ => 0 | None => 1 end
    ∧ count_tag "<joint" out + count_tag "<freejoint" out
      = length (visits n robot link pj Twp k)
    ∧ count_tag "<site" out
      = sum_list_with (λ v, length (frames (v_link v)))
                      (visits n robot link pj Twp k).
Proof.
  revert link pj Twp k self self'.
  induction n as [|n IH]; intros link pj Twp k self self'; [done|].
  cbn [add_link visits]. intros E.
  apply bind_Ok_inv in E as ([] & s1 & E1 & E). rewrite append_run in E1.
  apply bind_Ok_inv in E as ([] & s2 & E2 & E). rewrite append_run in E2.
  apply bind_Ok_inv in E as ([] & s3 & E3 & E).
  destruct (get_dynamics link _) as [[mass com] inertia].
  apply bind_Ok_inv in E as ([] & s4 & E4 & E).
  apply bind_Ok_inv in E as ([] & s5 & E5 & E).
  apply bind_Ok_inv in E as ([] & s6 & E6 & E).
  apply bind_Ok_inv in E as ([] & s7 & E7 & E). rewrite append_run in E.
  injection E1 as <-. injection E2 as <-. injection E as <-.
  (* the joint of the body *)
  assert (∃ o3, xml s3
                = ((xml self ++ ["<!-- Link " +:+ link_name link +:+ " -->"])
                   ++ [body_open link (matmul (np_linalg_inv Twp) (T_world_of pj))])
                  ++ o3
              ∧ count_tag "<body" o3 = 0
              ∧ count_tag "<inertial" o3 = 0
              ∧ count_tag "<freejoint" o3 = match pj with Some _ => 0 | None => 1 end
              ∧ count_tag "<joint" o3 = match pj with Some _ => 1 | None => 0 end
              ∧ count_tag "<site" o3 = 0)%list as (o3 & X3 & B3 & I3 & F3 & J3 & S3).
  { destruct pj as [j|].
    - apply add_joint_tags in E3 as (c & l & X & Hc & Hl).
      exists [c; l]. split; [exact X|].
      rewrite !count_tag_cons, !count_tag_nil, Hc, Hl. done.
    - rewrite append_run in E3. injection E3 as <-. eexists [_].
      split; [reflexivity|]. done. }
  (* the inertial element *)
  destruct (add_inertial_tags mass com inertia s3) as (li & Ei & Hi).
  rewrite Ei in E4. injection E4 as <-.
  (* the parts *)
  destruct (writes_run _ _ _ _ _
              (writes_for_each _ (parts link) _
                 (λ part, writes_add_part part (T_world_of pj))) E5)
    as (o5 & X5 & Q5).
  assert (∀ t, t = "<body" ∨ t = "<inertial" ∨ t = "<freejoint" ∨ t = "<joint"
               ∨ t = "<site" →
               count_tag t o5 = 0) as C5.
  { intros t Ht. eapply count_tag_none; [|exact Q5].
    intros line [-> | ->]; intros <-; by destruct Ht as [|[|[|[|]]]]. }
  (* the frames *)
  destruct (add_frames_tags link (T_world_of pj) (frames link) s5)
    as (o6 & E6' & S6 & I6 & J6 & F6 & B6).
  assert (s6 = set_xml (xml s5 ++ o6) s5) as ->.
  { pose proof (eq_trans (eq_sym E6) E6') as Eq. by injection Eq. }
  (* the children *)
  apply (add_link_children_census n robot (T_world_of pj) (S k)) in E7
    as (o7 & X7 & B7 & I7 & F7 & J7 & S7).
  2: { intros j s s' Ej.
       destruct (IH (child j) (Some j) (T_world_of pj) (S k) s s' Ej)
         as (out & X & B & I & F & J & S).
       exists out. rewrite F, Nat.add_0_r in J. done. }
  exists ([ "<!-- Link " +:+ link_name link +:+ " -->";
            body_open link (matmul (np_linalg_inv Twp) (T_world_of pj)) ]
          ++ o3 ++ [li] ++ o5 ++ o6 ++ o7 ++ ["</body>"])%list.
  split.
  - cbn [xml set_xml]. rewrite X7. cbn [xml set_xml]. rewrite X5. cbn [xml set_xml].
    rewrite X3. rewrite <- !app_assoc. reflexivity.
  - assert (tag (body_open link (matmul (np_linalg_inv Twp) (T_world_of pj)))
            = "<body") as Hb by reflexivity.
    assert (tag ("<!-- Link " +:+ link_name link +:+ " -->") = "<!--") as Hc
      by reflexivity.
    rewrite !count_tag_app, !count_tag_cons, !count_tag_nil, Hb, Hc, Hi.
    rewrite !C5 by tauto.
    rewrite B3, I3, F3, J3, S3, S6, I6, J6, F6, B6, B7, I7, F7, J7, S7.
    cbn [length sum_list_with v_link String.eqb Ascii.eqb Bool.eqb].
    destruct pj; cbn; repeat split; lia.
Qed.

(** X11. The elements of the bodies, for any robot and whatever the
    configuration (the [no_dynamics] setting included): in a document that
    [build] returns, the lines between [<worldbody>] and [</worldbody>] have
    one [<inertial>] element for each body written, exactly one
    [<freejoint>] element, one [<joint>] element for each body but the first,
    and one [<site>] element for each frame of each body written. *)
Theorem build_body_elements (n : nat) (robot : Robot) (self : ExporterMuJoCo)
    (doc : string) :
  fst (build n robot self) = Ok doc →
  ∃ out,
    xml (snd (build n robot self))
    = (header robot self ++ "<worldbody>" :: out
       ++ "</worldbody>" :: footer robot (snd (build n robot self)))%list
    ∧ let vs := visits n robot (get_base_link robot) None np_eye4 0 in
      count_tag "<body" out = length vs
      ∧ count_tag "<inertial" out = length vs
      ∧ count_tag "<freejoint" out = 1
      ∧ count_tag "<joint" out + 1 = length vs
      ∧ count_tag "<site" out
        = sum_list_with (λ v, length (frames (v_link v))) vs.
Proof.
  rewrite build_unfold.
  destruct (add_link _ _ _ _ _ _) as [[[]|e] self2] eqn:E; [|done].
  intros _. cbn [fst snd xml set_xml].
  destruct (add_link_census _ _ _ _ _ 0 _ _ E) as (out & X & B & I & F & J & S).
  exists out. split; [|].
  { rewrite X. cbn [xml set_xml]. rewrite <- !app_assoc. reflexivity. }
  cbv zeta. rewrite F in J. done.
Qed.

(** ** The scene file of [write_xml] *)

Lemma upto_last_without c s : without c s = true → upto_last c s = "".
Proof.
  induction s as [|a s IH]; cbn [upto_last without]; [done|].
  intros [Ha Hs]%andb_prop. apply negb_true_iff in Ha. by rewrite IH, Ha.
Qed.

Lemma upto_last_sep c a b :
  without c b = true → upto_last c (a +:+ String c b) = a +:+ String c "".
Proof.
  intros Hb. induction a as [|x a IH].
  - rewrite !append_nil_l. cbn [upto_last].
    by rewrite upto_last_without, Ascii.eqb_refl.
  - rewrite !append_cons. cbn [upto_last]. rewrite IH.
    destruct a; reflexivity.
Qed.

Lemma rstrip_sep c s : rstrip c (s +:+ String c "") = rstrip c s.
Proof.
  induction s as [|a s IH].
  - rewrite append_nil_l. cbn. by rewrite Ascii.eqb_refl.
  - rewrite append_cons. cbn [rstrip]. by rewrite IH.
Qed.

Lemma rstrip_times c n : rstrip c (times c n) = "".
Proof. induction n as [|n IH]; cbn; [done|]. by rewrite IH, Ascii.eqb_refl. Qed.

Lemma dirname_plain filename : without "/" filename = true → dirname filename = "".
Proof. intros Hf. unfold dirname. by rewrite upto_last_without. Qed.

Lemma dirname_join dir file :
  without "/" file = true → dir ≠ "" → rstrip "/" dir = dir →
  dirname (dir +:+ "/" +:+ file) = dir.
Proof.
  intros Hf Hne Hd. unfold dirname.
  change ("/" +:+ file) with (String "/" file).
  rewrite upto_last_sep by done.
  destruct (String.eqb_spec (dir +:+ String "/" "") "") as [E|_].
  { destruct dir; [done|]. by rewrite append_cons in E. }
  destruct (String.eqb_spec (dir +:+ String "/" "")
              (times "/" (String.length (dir +:+ String "/" "")))) as [E|_].
  { apply (f_equal (rstrip "/")) in E. rewrite rstrip_sep, rstrip_times, Hd in E. done. }
  cbn. by rewrite rstrip_sep.
Qed.

Section WriteXmlProperties.
Variable module_dir : string.
Variable success : string → string.
Variable super_exn : Type.
Variable super_write_xml : Robot → string → World → option super_exn * World.
Variable can_write : World → string → bool.

(** X12. When [write_xml] returns, the scene template was there before
    the call, the base class has written its files without raising, and the
    files are those it left with one more: [scene.xml] in the directory of
    [filename], holding the template as it was read before the base class
    ran.  For a [filename] with no directory the scene is written to
    [/scene.xml], at the root of the file system, not to the current
    directory; for [dir/file] it is written to [dir/scene.xml]. *)
Theorem write_xml_scene (robot : Robot) (filename : string) (w w' : World) :
  write_xml module_dir success super_exn super_write_xml can_write robot filename w
  = (None, w') →
  ∃ scene w1,
    files w !! (module_dir +:+ "/assets/scene.xml") = Some scene
    ∧ super_write_xml robot filename w = (None, w1)
    ∧ files w' = <[dirname filename +:+ "/scene.xml" := scene]> (files w1)
    ∧ (without "/" filename = true → files w' !! "/scene.xml" = Some scene)
    ∧ (∀ dir file,
         filename = dir +:+ "/" +:+ file →
         without "/" file = true → dir ≠ "" → rstrip "/" dir = dir →
         files w' !! (dir +:+ "/scene.xml") = Some scene).
Proof.
  unfold write_xml.
  destruct (files w !! _) as [scene|] eqn:Et; [|done].
  destruct (super_write_xml robot filename w) as [[e|] w1] eqn:Es; [done|].
  destruct (can_write w1 _); [|done].
  intros [= <-]. exists scene, w1. cbn [files].
  split; [done|]. split; [done|]. split; [done|]. split.
  - intros Hf. rewrite dirname_plain by done. rewrite append_nil_l.
    apply lookup_insert_eq.
  - intros dir file -> Hf Hne Hd. rewrite dirname_join by done.
    apply lookup_insert_eq.
Qed.

End WriteXmlProperties.

(** ** The effect of a call does not depend on what was registered before *)

Lemma apply_effect_nil self : apply_effect (mkEffect [] [] [] []) self = self.
Proof. destruct self. unfold apply_effect. cbn. by rewrite !app_nil_r. Qed.

Lemma apply_effect_comp e1 e2 self :
  apply_effect e2 (apply_effect e1 self)
  = apply_effect (mkEffect (e_lines e1 ++ e_lines e2) (e_meshes e1 ++ e_meshes e2)
                           (e_materials e1 ++ e_materials e2)
                           (e_prints e1 ++ e_prints e2)) self.
Proof.
  unfold apply_effect, write_materials. cbn. by rewrite !app_assoc, foldl_app.
Qed.

Lemma uniform_ret {A} d o (a : A) : uniform d o (ret a).
Proof. exists (Ok a), (mkEffect [] [] [] []). intros. by rewrite apply_effect_nil. Qed.

Lemma uniform_raise {A} d o e : uniform d o (raise (A:=A) e).
Proof. exists (Raise e), (mkEffect [] [] [] []). intros. by rewrite apply_effect_nil. Qed.

Lemma uniform_lift {A} d o (r : outcome A) : uniform d o (lift r).
Proof. exists r, (mkEffect [] [] [] []). intros. by rewrite apply_effect_nil. Qed.

Lemma uniform_append d o line : uniform d o (append line).
Proof.
  exists (Ok tt), (mkEffect [line] [] [] []). intros self _ _.
  destruct self. unfold apply_effect. cbn. by rewrite !app_nil_r.
Qed.

Lemma uniform_print d o line : uniform d o (print line).
Proof.
  exists (Ok tt), (mkEffect [] [] [] [line]). intros self _ _.
  destruct self. unfold apply_effect. cbn. by rewrite !app_nil_r.
Qed.

Lemma uniform_add_mesh_file d o file :
  uniform d o (modify (λ self, set_meshes (meshes self ++ [file])%list self)).
Proof.
  exists (Ok tt), (mkEffect [] [file] [] []). intros self _ _.
  destruct self. unfold apply_effect. cbn. by rewrite !app_nil_r.
Qed.

Lemma uniform_set_material d o name color :
  uniform d o (modify (λ self, set_materials (dict_set name color (materials self)) self)).
Proof.
  exists (Ok tt), (mkEffect [] [] [(name, color)] []). intros self _ _.
  destruct self. unfold apply_effect. cbn. by rewrite !app_nil_r.
Qed.

Lemma uniform_bind {A B} d o (m : M A) (k : A → M B) :
  uniform d o m → (∀ a, uniform d o (k a)) → uniform d o (bind m k).
Proof.
  intros ([a|e] & e1 & H1) Hk.
  - destruct (Hk a) as (res & e2 & H2).
    eexists res, _. intros self Hd Ho. unfold bind. rewrite (H1 self Hd Ho).
    rewrite H2 by done. by rewrite apply_effect_comp.
  - exists (Raise e), e1. intros self Hd Ho. unfold bind. by rewrite (H1 self Hd Ho).
Qed.

Lemma uniform_for_each {A} d o (l : list A) (body : A → M unit) :
  (∀ x, uniform d o (body x)) → uniform d o (for_each l body).
Proof.
  intros Hb. induction l as [|x l IH]; cbn [for_each].
  - apply uniform_ret.
  - apply uniform_bind; [apply Hb | intros _; apply IH].
Qed.

Lemma uniform_ext {A} d o (m m' : M A) :
  (∀ self, draw_collisions self = d → collision_shapes_only self = o →
           m self = m' self) →
  uniform d o m' → uniform d o m.
Proof.
  intros Hext (res & ef & Hm). exists res, ef. intros self Hd Ho.
  rewrite Hext by done. by apply Hm.
Qed.

Lemma uniform_add_mesh d o part class_ T : uniform d o (add_mesh part class_ T).
Proof.
  unfold add_mesh. destruct (mesh_file part); [|apply uniform_raise].
  apply uniform_bind; [apply uniform_append|]. intros _.
  apply uniform_bind; [apply uniform_add_mesh_file|]. intros _.
  apply uniform_bind; [apply uniform_set_material|]. intros _.
  apply uniform_append.
Qed.

Lemma uniform_add_shapes d o part class_ T : uniform d o (add_shapes part class_ T).
Proof.
  unfold add_shapes. destruct (shapes part); [|apply uniform_raise].
  apply uniform_for_each. intros shape. unfold add_shape.
  destruct (String.eqb class_ "visual").
  - apply uniform_bind; [apply uniform_set_material|]. intros _. apply uniform_append.
  - apply uniform_append.
Qed.

Lemma uniform_add_geometries d o part T class_ what :
  uniform d o (add_geometries part T class_ what).
Proof.
  apply (uniform_ext d o _
    (if String.eqb what "collision" && bool_decide (shapes part ≠ None)
     then add_shapes part class_ T
     else if has_mesh part && (String.eqb what "visual" || negb o)
          then add_mesh part class_ T else ret tt)).
  { intros self _ <-. reflexivity. }
  destruct (_ && _); [apply uniform_add_shapes|].
  destruct (_ && _); [apply uniform_add_mesh | apply uniform_ret].
Qed.

Lemma uniform_add_part d o part T : uniform d o (add_part part T).
Proof.
  apply (uniform_ext d o _
    (append ("<!-- Part " +:+ part_name part +:+ " -->") >>
     add_geometries part T "visual" (if d then "collision" else "visual") >>
     add_geometries part T "collision" "collision")).
  { intros self <- _. reflexivity. }
  apply uniform_bind; [apply uniform_append|]. intros _.
  apply uniform_bind; [apply uniform_add_geometries|]. intros _.
  apply uniform_add_geometries.
Qed.

Lemma uniform_add_joint d o joint : uniform d o (add_joint joint).
Proof.
  unfold add_joint. apply uniform_bind; [apply uniform_append|]. intros _.
  apply uniform_bind.
  { destruct (joint_type joint); try apply uniform_ret.
    apply uniform_bind; [apply uniform_print|]. intros _. apply uniform_ret. }
  intros a. apply uniform_bind; [apply uniform_lift|]. intros x. apply uniform_append.
Qed.

Lemma uniform_add_link d o n robot link pj Twp :
  uniform d o (add_link n robot link pj Twp).
Proof.
  revert link pj Twp. induction n as [|n IH]; intros link pj Twp; cbn [add_link].
  { apply uniform_raise. }
  apply uniform_bind; [apply uniform_append|]. intros _.
  apply uniform_bind; [apply uniform_append|]. intros _.
  apply uniform_bind.
  { destruct pj; [apply uniform_add_joint | apply uniform_append]. }
  intros _. destruct (get_dynamics link _) as [[mass com] inertia].
  apply uniform_bind.
  { unfold add_inertial. destruct com as [[cx cy] cz]. apply uniform_append. }
  intros _. apply uniform_bind.
  { apply uniform_for_each. intros part. apply uniform_add_part. }
  intros _. apply uniform_bind.
  { apply uniform_for_each. intros [frame Tf]. unfold add_frame.
    apply uniform_bind; [apply uniform_append|]. intros _. apply uniform_append. }
  intros _. apply uniform_bind; [|intros _; apply uniform_append].
  apply uniform_for_each. intros j. apply IH.
Qed.

(** X13. What [build] does depends on the exporter only through its
    settings.  For a robot, a recursion limit and values of the settings
    [drawCollisions] and [collision_shapes_only], there are one outcome, one
    list of body lines, one list of mesh files, one list of material
    assignments and one list of printed lines such that, on every exporter
    with these settings, whatever it has registered or printed before,
    [build] appends these mesh files to [self.meshes], makes these
    assignments to [self.materials], prints these lines, and either raises
    the exception of the outcome after writing the header and these body
    lines, or returns the header, these body lines and the asset and actuator
    sections. *)
Theorem build_effect (n : nat) (robot : Robot) (d o : bool) :
  ∃ (res : option exn) (bodies ms : list string) (ops : list (string * vec3))
    (ps : list string),
    ∀ self : ExporterMuJoCo,
      draw_collisions self = d → collision_shapes_only self = o →
      meshes (snd (build n robot self)) = (meshes self ++ ms)%list
      ∧ materials (snd (build n robot self)) = write_materials ops (materials self)
      ∧ stdout (snd (build n robot self)) = (stdout self ++ ps)%list
      ∧ match res with
        | None =>
            fst (build n robot self)
            = Ok (String.concat "" (xml (snd (build n robot self))))
            ∧ xml (snd (build n robot self))
              = (header robot self ++ "<worldbody>" :: bodies
                 ++ "</worldbody>" :: footer robot (snd (build n robot self)))%list
        | Some e =>
            fst (build n robot self) = Raise e
            ∧ xml (snd (build n robot self))
              = (header robot self ++ "<worldbody>" :: bodies)%list
        end.
Proof.
  destruct (uniform_add_link d o n robot (get_base_link robot) None np_eye4)
    as (res & ef & Hu).
  exists (match res with Ok _ => None | Raise e => Some e end),
         (e_lines ef), (e_meshes ef), (e_materials ef), (e_prints ef).
  intros self Hd Ho. rewrite build_unfold.
  rewrite (Hu (set_xml (header robot self ++ ["<worldbody>"]) self) Hd Ho).
  destruct res as [[]|e]; cbn [fst snd xml meshes materials stdout set_xml apply_effect];
    rewrite <- ?app_assoc; done.
Qed.

(** ** Building the same robot again *)

Lemma dict_set_overwrite {V} k (v v' : V) d :
  dict_set k v' (dict_set k v d) = dict_set k v' d.
Proof.
  induction d as [|[a b] d IH]; cbn [dict_set].
  - by rewrite String.eqb_refl.
  - destruct (String.eqb_spec a k) as [->|Hne]; cbn [dict_set].
    + by rewrite String.eqb_refl.
    + destruct (String.eqb_spec a k); [done|]. by rewrite IH.
Qed.

Lemma dict_set_comm {V} k k' (v v' : V) d :
  k ≠ k' → k' ∈ d.*1 →
  dict_set k' v' (dict_set k v d) = dict_set k v (dict_set k' v' d).
Proof.
  intros Hne. induction d as [|[a b] d IH]; [by intros ?%elem_of_nil|].
  cbn [fmap list_fmap fst]. intros Hin. cbn [dict_set].
  destruct (String.eqb_spec a k) as [->|Hak]; cbn [dict_set].
  - destruct (String.eqb_spec k k') as [|_]; [done|]. cbn [dict_set].
    by rewrite String.eqb_refl.
  - destruct (String.eqb_spec a k') as [->|Hak']; cbn [dict_set].
    + destruct (String.eqb_spec k' k); [by subst|]. done.
    + destruct (String.eqb_spec a k); [done|]. rewrite IH; [done|].
      apply elem_of_cons in Hin as [->|Hin]; done.
Qed.

Lemma dict_set_keys_in {V} k k' (v : V) d : k' ∈ d.*1 → k' ∈ (dict_set k v d).*1.
Proof. apply prefix_elem_of, dict_set_keys. Qed.

Lemma write_materials_snoc ops k c d :
  write_materials (ops ++ [(k, c)]) d = dict_set k c (write_materials ops d).
Proof. unfold write_materials. by rewrite foldl_app. Qed.

Lemma write_materials_cons ops k c d :
  write_materials ((k, c) :: ops) d = write_materials ops (dict_set k c d).
Proof. reflexivity. Qed.

Lemma write_materials_keys_in ops d k : k ∈ d.*1 → k ∈ (write_materials ops d).*1.
Proof.
  revert d. induction ops as [|[k' c] ops IH]; intros d Hk; [done|].
  rewrite write_materials_cons. by apply IH, dict_set_keys_in.
Qed.

Lemma write_materials_keys ops d k : k ∈ ops.*1 → k ∈ (write_materials ops d).*1.
Proof.
  revert d. induction ops as [|[k' c] ops IH]; intros d; [by intros ?%elem_of_nil|].
  cbn [fmap list_fmap fst]. rewrite write_materials_cons.
  intros [->|Hk]%elem_of_cons; [|by apply IH].
  apply write_materials_keys_in, dict_set_key.
Qed.

Lemma write_materials_absorb ops k c d :
  (∀ k', k' ∈ ops.*1 → k' ∈ d.*1) →
  dict_set k c (write_materials ops (dict_set k c d))
  = dict_set k c (write_materials ops d).
Proof.
  revert d. induction ops as [|[k' c'] ops IH]; intros d Hk.
  - apply dict_set_overwrite.
  - rewrite !write_materials_cons.
    assert (∀ k'', k'' ∈ ops.*1 → k'' ∈ (dict_set k' c' d).*1) as Hk'.
    { intros k'' Hin. apply dict_set_keys_in, Hk. cbn. by right. }
    destruct (decide (k = k')) as [<-|Hne].
    + by rewrite dict_set_overwrite.
    + rewrite dict_set_comm; [by apply IH | done |].
      apply Hk. cbn. by left.
Qed.

(** Making the same assignments again changes nothing. *)
Lemma write_materials_idem ops d :
  write_materials ops (write_materials ops d) = write_materials ops d.
Proof.
  revert d. induction ops as [|[k c] ops IH] using rev_ind; intros d; [done|].
  rewrite !write_materials_snoc, write_materials_absorb, IH; [done|].
  intros k'. apply write_materials_keys.
Qed.

(** X14. Building the same robot again with the same exporter gives the
    same document up to the order of the mesh declarations.  When [build]
    returns a document, a second call for the same robot returns too; its
    document has the same header and the same body lines; the materials of
    the exporter, hence the material declarations and their order, are
    those of the first call; the mesh files declared are the same; and the
    lines of the asset and actuator sections are those of the first
    document, up to their order. *)
Theorem build_again (n : nat) (robot : Robot) (self : ExporterMuJoCo) (doc : string) :
  fst (build n robot self) = Ok doc →
  ∃ bodies,
    xml (snd (build n robot self))
    = (header robot self ++ "<worldbody>" :: bodies
       ++ "</worldbody>" :: footer robot (snd (build n robot self)))%list
    ∧ fst (build n robot (snd (build n robot self)))
      = Ok (String.concat "" (xml (snd (build n robot (snd (build n robot self))))))
    ∧ xml (snd (build n robot (snd (build n robot self))))
      = (header robot self ++ "<worldbody>" :: bodies
         ++ "</worldbody>"
            :: footer robot (snd (build n robot (snd (build n robot self)))))%list
    ∧ materials (snd (build n robot (snd (build n robot self))))
      = materials (snd (build n robot self))
    ∧ set_iter (meshes (snd (build n robot (snd (build n robot self)))))
      ≡ₚ set_iter (meshes (snd (build n robot self)))
    ∧ footer robot (snd (build n robot (snd (build n robot self))))
      ≡ₚ footer robot (snd (build n robot self)).
Proof.
  destruct (uniform_add_link (draw_collisions self) (collision_shapes_only self)
              n robot (get_base_link robot) None np_eye4) as (res & ef & Hu).
  rewrite build_unfold.
  rewrite (Hu (set_xml (header robot self ++ ["<worldbody>"]) self) eq_refl eq_refl).
  destruct res as [[]|e]; [|done]. intros _. cbn [fst snd].
  set (self1 := set_xml _ (apply_effect ef _)).
  rewrite build_unfold.
  rewrite (Hu (set_xml (header robot self1 ++ ["<worldbody>"]) self1) eq_refl eq_refl).
  cbn [fst snd].
  set (self2 := set_xml _ (apply_effect ef _)).
  assert (materials self2 = materials self1) as Hmat.
  { unfold self2, self1. cbn [materials set_xml apply_effect].
    apply write_materials_idem. }
  assert (set_iter (meshes self2) ≡ₚ set_iter (meshes self1)) as Hmesh.
  { apply NoDup_Permutation; [apply set_iter_NoDup..|].
    intros x. rewrite !set_iter_elem. unfold self2, self1.
    cbn [meshes set_xml apply_effect]. rewrite !elem_of_app. tauto. }
  exists (e_lines ef). split; [|split; [|split; [|split; [|split]]]]; try done.
  - unfold self1. cbn [xml set_xml apply_effect]. by rewrite <- !app_assoc.
  - unfold self2. cbn [xml set_xml apply_effect]. by rewrite <- !app_assoc.
  - unfold footer. rewrite Hmat. apply Permutation_skip.
    apply Permutation_app_tail. by apply fmap_Permutation.
Qed.

(** ** The joints that the actuators refer to *)




(** ** Materials registered twice *)

Lemma dict_set_split {V} k (v : V) d :
  NoDup d.*1 →
  ∃ before after,
    dict_set k v d = (before ++ (k, v) :: after)%list
    ∧ (k ∉ before.*1)
    ∧ (k ∉ after.*1)
    ∧ ((d = before ∧ after = []) ∨ ∃ v0, d = (before ++ (k, v0) :: after)%list).
Proof.
  induction d as [|[k1 v1] d IH]; intros Hd.
  - exists [], []. split; [done|]. split; [apply not_elem_of_nil|].
    split; [apply not_elem_of_nil|]. by left.
  - cbn [fmap list_fmap fst] in Hd. apply NoDup_cons in Hd as [Hk1 Hd].
    cbn [dict_set]. destruct (String.eqb_spec k1 k) as [->|Hne].
    + exists [], d. split; [done|]. split; [apply not_elem_of_nil|].
      split; [done|]. right. by exists v1.
    + destruct (IH Hd) as (b & a & E & Hb & Ha & Hold).
      exists ((k1, v1) :: b), a. rewrite E. split; [done|].
      split; [cbn; apply not_elem_of_cons; by split|]. split; [done|].
      destruct Hold as [[-> ->]|[v0 ->]]; [by left | right; by exists v0].
Qed.

Lemma add_shapes_visual_run part T l self :
  ∃ self',
    for_each l (add_shape part "visual" T) self = (Ok tt, self')
    ∧ meshes self' = meshes self
    ∧ materials self'
      = match l with
        | [] => materials self
        | _ => dict_set (part_name part +:+ "_material") (color part) (materials self)
        end.
Proof.
  revert self. induction l as [|shape l IH]; intros self; cbn [for_each].
  - by exists self.
  - assert (∃ s1, add_shape part "visual" T shape self = (Ok tt, s1)
                  ∧ meshes s1 = meshes self
                  ∧ materials s1
                    = dict_set (part_name part +:+ "_material") (color part)
                               (materials self)) as (s1 & E1 & M1 & K1).
    { unfold add_shape. change (String.eqb "visual" "visual") with true. cbv iota.
      eexists. split; [reflexivity|]. done. }
    destruct (IH s1) as (s2 & E2 & M2 & K2).
    exists s2. erewrite bind_Ok by exact E1. split; [exact E2|].
    split; [congruence|]. rewrite K2, K1.
    destruct l; [done|]. apply dict_set_overwrite.
Qed.

(** X2. Registering a material is last-write-wins, and the asset section
    declares each material once.  On an exporter whose material names are
    distinct, after [add_mesh] for a part with a mesh file, or [add_shapes]
    of class [visual] for a part with at least one shape, the material name
    of the part (derived from the mesh file, or from the name of the part)
    is in [self.materials] exactly once, with the color of the part: at the
    place it had if the name was registered before, whatever its color was,
    and at the end otherwise; the other entries are as they were.  The asset
    section that [add_assets] then writes has the mesh declarations followed
    by one material declaration per entry, in that order: exactly one for the
    entry of that name, with the color of the part. *)
Theorem material_last_write_wins (part : Part) (T_world_link : mat4)
    (self : ExporterMuJoCo) :
  NoDup (materials self).*1 →
  let decl (m : string * vec3) :=
    let '(material_name, (r, g, b)) := m in
    "<material name=" +:+ quoted material_name +:+ " rgba="
    +:+ quoted (fmt_g20 r +:+ " " +:+ fmt_g20 g +:+ " " +:+ fmt_g20 b +:+ " 1")
    +:+ " />" in
  let registered (name : string) (self1 : ExporterMuJoCo) :=
    ∃ before after,
      materials self1 = (before ++ (name, color part) :: after)%list
      ∧ (name ∉ before.*1)
      ∧ (name ∉ after.*1)
      ∧ ((materials self = before ∧ after = [])
         ∨ ∃ c, materials self = (before ++ (name, c) :: after)%list)
      ∧ add_assets self1
        = (Ok tt,
           set_xml (xml self1
                    ++ "<asset>"
                       :: ((λ f, "<mesh file=" +:+ quoted f +:+ " />")
                             <$> set_iter (meshes self1))
                       ++ (decl <$> before)
                       ++ decl (name, color part) :: (decl <$> after)
                       ++ ["</asset>"]) self1) in
  (∀ class_ path,
     mesh_file part = Some path →
     ∃ self1, add_mesh part class_ T_world_link self = (Ok tt, self1)
              ∧ registered (strip_ext (basename path) +:+ "_material") self1)
  ∧ (∀ shape l,
       shapes part = Some (shape :: l) →
       ∃ self1, add_shapes part "visual" T_world_link self = (Ok tt, self1)
                ∧ registered (part_name part +:+ "_material") self1).
Proof.
  intros Hd decl registered.
  assert (∀ name self1,
    materials self1 = dict_set name (color part) (materials self) →
    registered name self1) as Hreg.
  { intros name self1 Hm.
    destruct (dict_set_split name (color part) (materials self) Hd)
      as (before & after & E & Hb & Ha & Hold).
    exists before, after. rewrite Hm. split; [exact E|].
    split; [done|]. split; [done|]. split; [done|].
    rewrite add_assets_run, Hm, E, fmap_app, fmap_cons, <- !app_assoc. reflexivity. }
  split.
  - intros class_ path Hp. eexists. split; [by apply add_mesh_lines|].
    apply Hreg. reflexivity.
  - intros shape l Hs. unfold add_shapes. rewrite Hs.
    destruct (add_shapes_visual_run part T_world_link (shape :: l) self)
      as (self1 & E & _ & K).
    exists self1. split; [exact E|]. by apply Hreg.
Qed.
End MoreProperties.

(** * Runs on concrete robots *)

Lemma robot2_is_tree : @is_tree run_env robot2 (@link_id run_env).
Proof.
  split.
  - apply (bool_decide_unpack _). reflexivity.
  - by left.
  - intros j ->%list_elem_of_singleton. by left.
  - intros j ->%list_elem_of_singleton. right. by left.
  - intros l [->|Hl]%elem_of_cons Hne; [done|].
    apply list_elem_of_singleton in Hl as ->. exists J1. split; [by left | done].
  - apply NoDup_singleton.
  - reflexivity.
  - intros j ->%list_elem_of_singleton. reflexivity.
Qed.

Lemma robot2_lookups j : j ∈ @joints run_env robot2 → @joint_lookups_ok run_env j.
Proof. intros ->%list_elem_of_singleton Hf. by destruct Hf. Qed.

(** The two bodies of [robot2], at depths 0 and 1. *)
Lemma build_tree_coverage_witness :
  ∃ doc out ls,
    fst (@build run_env 2 robot2 (@init run_env None)) = Ok doc
    ∧ xml (snd (@build run_env 2 robot2 (@init run_env None)))
      = (@header run_env robot2 (@init run_env None) ++ "<worldbody>" :: out
         ++ "</worldbody>"
            :: @footer run_env robot2
                 (snd (@build run_env 2 robot2 (@init run_env None))))%list
    ∧ ls ≡ₚ [L0; L1]
    ∧ length (body_depths 0 out) = 2
    ∧ Forall2 (λ l b,
                 (∃ attrs,
                    b.1 = "<body name=" +:+ quoted (@link_name run_env l) +:+ " "
                          +:+ attrs +:+ " >")
                 ∧ b.2 = @link_id run_env l)
              ls (body_depths 0 out).
Proof.
  destruct (@build_tree_coverage run_env robot2 (@link_id run_env) 2
              (@init run_env None) robot2_is_tree (le_n 2)) as (_ & Hok & Hdoc).
  destruct (Hok robot2_lookups) as [doc Hd].
  destruct (Hdoc doc Hd) as (out & ls & _ & X & P & L & F).
  by exists doc, out, ls.
Defined.

(** The poses of the two bodies of [robot2]. *)
Lemma build_body_poses_witness :
  ∃ doc out,
    fst (@build run_env 2 robot2 (@init run_env None)) = Ok doc
    ∧ xml (snd (@build run_env 2 robot2 (@init run_env None)))
      = (@header run_env robot2 (@init run_env None) ++ "<worldbody>" :: out
         ++ "</worldbody>"
            :: @footer run_env robot2
                 (snd (@build run_env 2 robot2 (@init run_env None))))%list
    ∧ (body_depths 0 out).*1
      = [ "<body name=" +:+ quoted "L0" +:+ " pos=" +:+ quoted "0 0 0" +:+ " quat="
          +:+ quoted "1 0 0 0" +:+ " >";
          "<body name=" +:+ quoted "L1" +:+ " pos=" +:+ quoted "0 0 1" +:+ " quat="
          +:+ quoted "1 0 0 0" +:+ " >" ].
Proof.
  pose proof (@build_body_poses run_env robot2 2 (@init run_env None)) as Hthm.
  cbv zeta in Hthm. destruct Hthm as (Hok & Hdoc).
  destruct (Hok (@link_id run_env) robot2_is_tree (le_n 2) robot2_lookups) as [doc Hd].
  destruct (Hdoc doc Hd) as (out & rest & X & B & _).
  exists doc, out. split; [exact Hd|]. split; [exact X|].
  rewrite B. vm_compute. reflexivity.
Defined.

(** The lines of the bodies of [robot2] as the exporter writes them. *)
Example robot2_bodies :
  List.filter is_body_open
    (xml (snd (@build run_env 2 robot2 (@init run_env None))))
  = [ "<body name=" +:+ quoted "L0" +:+ " pos=" +:+ quoted "0 0 0" +:+ " quat="
      +:+ quoted "1 0 0 0" +:+ " >";
      "<body name=" +:+ quoted "L1" +:+ " pos=" +:+ quoted "0 0 1" +:+ " quat="
      +:+ quoted "1 0 0 0" +:+ " >" ].
Proof. vm_compute. reflexivity. Qed.

(** C1, counterexample. In shapes-only mode, the document of a robot with a
    part that has a mesh file and no shapes has a geometry node of class
    [visual] for that part. *)
Lemma shapes_only_visual_mesh_emitted :
  collision_shapes_only (@init run_env (Some cfg_shapes_only)) = true
  ∧ @mesh_file run_env mesh_part = Some "assets/arm.stl"
  ∧ @shapes run_env mesh_part = None
  ∧ List.filter (is_geom_of_class "visual")
      (xml (snd (@build run_env 1 robot_mesh (@init run_env (Some cfg_shapes_only)))))
    = [ "<geom type=" +:+ quoted "mesh" +:+ " class=" +:+ quoted "visual"
        +:+ " pos=" +:+ quoted "0 0 1" +:+ " quat=" +:+ quoted "1 0 0 0"
        +:+ " mesh=" +:+ quoted "arm" +:+ " material=" +:+ quoted "arm_material"
        +:+ "  />" ].
Proof. repeat split; vm_compute; reflexivity. Qed.

(** In shapes-only mode, [mesh_part] gets its visual mesh node and no
    collision node. *)
Lemma add_part_shapes_only_witness :
  ∃ self' out,
    @add_part run_env mesh_part (0, 0, 0)%Z (@init run_env (Some cfg_shapes_only))
    = (Ok tt, self')
    ∧ xml self' = out
    ∧ List.filter (is_geom_of_class "collision") out = []
    ∧ length (List.filter (is_geom_of_class "visual") out) = 1.
Proof.
  destruct (@add_part_shapes_only run_env mesh_part (0, 0, 0)%Z "assets/arm.stl"
              (@init run_env (Some cfg_shapes_only)))
    as (self' & out & E & X & C & V).
  - reflexivity.
  - reflexivity.
  - discriminate.
  - left. reflexivity.
  - exists self', out. rewrite V. by repeat split.
Defined.

(** C2, at a failing input. The same exporter builds [robot_mesh] and then
    [robot_bare], which has no part: the document of the second build
    declares the mesh and the material registered by the first one, while
    the document of a fresh exporter for [robot_bare] declares neither. *)
Lemma build_twice_leaks_assets :
  @parts run_env (@get_base_link run_env robot_bare) = []
  ∧ count_line (@mesh_decl "arm.stl")
      (xml (snd (@build run_env 1 robot_bare (@init run_env None)))) = 0
  ∧ count_line (@mesh_decl "arm.stl")
      (xml (snd (@build run_env 1 robot_bare
                   (snd (@build run_env 1 robot_mesh (@init run_env None)))))) = 1
  ∧ @meshes run_env (snd (@build run_env 1 robot_bare
                            (snd (@build run_env 1 robot_mesh (@init run_env None)))))
    = ["arm.stl"; "arm.stl"]
  ∧ (@materials run_env (snd (@build run_env 1 robot_bare
                               (snd (@build run_env 1 robot_mesh (@init run_env None)))))).*1
    = ["arm_material"].
Proof. repeat split; vm_compute; reflexivity. Qed.

(** C3, at a failing input. A fixed joint whose only property is
    [friction]: the warning is printed, then [add_joint] ends in
    [KeyError('frictionloss')], and so does the export of a robot with that
    joint. *)
Lemma add_joint_fixed_friction_aborts :
  @joint_type run_env J_fixed_friction = FIXED
  ∧ fst (@add_joint run_env J_fixed_friction (@init run_env None))
    = Raise (KeyError "frictionloss")
  ∧ stdout (snd (@add_joint run_env J_fixed_friction (@init run_env None)))
    = ["WARNING: Joint type is not supported in MuJoCo: fixed"]
  ∧ fst (@build run_env 2 robot_fixed (@init run_env None))
    = Raise (KeyError "frictionloss").
Proof. repeat split; vm_compute; reflexivity. Qed.

(** A revolute joint whose only property is [friction]. *)
Lemma add_joint_friction_lookup_witness :
  fst (@add_joint run_env J_friction (@init run_env None))
  = Raise (KeyError "frictionloss").
Proof.
  apply (@add_joint_friction_lookup run_env J_friction (@init run_env None)).
  - discriminate.
  - reflexivity.
Defined.

(** Two parts register the mesh [arm.stl]: one declaration. *)
Lemma mesh_registration_idempotent_witness :
  ∃ self1 out,
    for_each [mesh_part; mesh_part2]
      (λ p, @add_mesh run_env p "visual" (0, 0, 0)%Z) (@init run_env None)
    = (Ok tt, self1)
    ∧ count_occ String.eq_dec (meshes self1) "arm.stl" = 2
    ∧ @add_assets run_env self1 = (Ok tt, set_xml (xml self1 ++ out) self1)
    ∧ count_line (@mesh_decl "arm.stl") out = 1.
Proof.
  destruct (@mesh_registration_idempotent run_env [mesh_part; mesh_part2] "visual"
              (0, 0, 0)%Z "arm.stl" (@init run_env None))
    as (self1 & out & E & N & A & C).
  - discriminate.
  - intros p [->|Hp]%elem_of_cons; [|apply list_elem_of_singleton in Hp as ->];
      eexists; (split; [reflexivity|]); vm_compute; reflexivity.
  - by exists self1, out.
Defined.

(** A box of size (2, 2, 2) gets the size attribute [1 1 1]. *)
Lemma add_shapes_sizes_witness :
  ∃ self',
    @add_shapes run_env box_part "collision" (0, 0, 1)%Z (@init run_env None)
    = (Ok tt, self')
    ∧ xml self'
      = [ "<geom class=" +:+ quoted "collision" +:+ " pos=" +:+ quoted "0 0 -1"
          +:+ " quat=" +:+ quoted "1 0 0 0" +:+ " type=" +:+ quoted "box"
          +:+ " size=" +:+ quoted "1 1 1" +:+ "  />" ].
Proof.
  destruct (@add_shapes_sizes run_env box_part "collision" (0, 0, 1)%Z
              [@Box run_env (2, 2, 2)%Z (0, 0, 0)%Z] (@init run_env None) eq_refl)
    as (self' & E & X).
  exists self'. split; [exact E|]. rewrite X. vm_compute. reflexivity.
Defined.

(** The actuators of [robot_actuated]: an effort of 10 gives the force range
    from -10 to 10, the motion limits give the control range, and the joint
    with [actuated] false gets no actuator. *)
Example add_actuators_effort_10 :
  xml (snd (@add_actuators run_env robot_actuated (@init run_env None)))
  = [ "<actuator>";
      "<position name=" +:+ quoted "J1" +:+ " joint=" +:+ quoted "J1"
      +:+ " forcerange=" +:+ quoted "-10 10" +:+ " ctrlrange=" +:+ quoted "-1.0 1.0"
      +:+ " />";
      "</actuator>" ].
Proof. vm_compute. reflexivity. Qed.

(** The same run, from the general statement. *)
Lemma add_actuators_elements_witness :
  xml (snd (@add_actuators run_env robot_actuated (@init run_env None)))
  = [ "<actuator>";
      "<position name=" +:+ quoted "J1" +:+ " joint=" +:+ quoted "J1"
      +:+ " forcerange=" +:+ quoted "-10 10" +:+ " ctrlrange=" +:+ quoted "-1.0 1.0"
      +:+ " />";
      "</actuator>" ].
Proof.
  pose proof (@add_actuators_elements run_env robot_actuated (@init run_env None))
    as Hthm.
  cbv zeta in Hthm. destruct Hthm as [E _]. rewrite E. vm_compute. reflexivity.
Defined.

(** C4, counterexample. For an effort of -5 the force range written is
    [--5 -5]: its lower bound is not the text of 5, and the range is not the
    symmetric one from 5 to -5 or from -5 to 5. *)
Lemma add_actuators_negative_effort :
  @properties run_env J_neg_effort !! "effort" = Some (@PInt run_env (-5))
  ∧ xml (snd (@add_actuators run_env robot_neg_effort (@init run_env None)))
    = [ "<actuator>";
        "<position name=" +:+ quoted "J1" +:+ " joint=" +:+ quoted "J1"
        +:+ " forcerange=" +:+ quoted "--5 -5" +:+ " />";
        "</actuator>" ]
  ∧ @py_str run_env (@PInt run_env 5) = "5"
  ∧ @py_str run_env (@PInt run_env (-5)) = "-5".
Proof. repeat split; vm_compute; reflexivity. Qed.

(** The six entries of a tensor with diagonal (1, 2, 3) and off-diagonal
    entries (4, 5, 6), in the order xx, yy, zz, xy, xz, yz. *)
Example add_inertial_123_456 :
  xml (snd (@add_inertial run_env 5%Z (0, 0, 1)%Z inertia_123_456 (@init run_env None)))
  = [ "<inertial pos=" +:+ quoted "0 0 1" +:+ " mass=" +:+ quoted "5"
      +:+ " fullinertia=" +:+ quoted "1 2 3 4 5 6" +:+ "  />" ].
Proof. vm_compute. reflexivity. Qed.

(** The hinge joint of [robot2]. *)
Lemma add_joint_node_witness :
  ∃ self',
    @add_joint run_env J1 (@init run_env None) = (Ok tt, self')
    ∧ stdout self' = []
    ∧ xml self'
      = [ "<!-- Joint from L0 to L1 -->";
          "<joint name=" +:+ quoted "J1" +:+ " type=" +:+ quoted "hinge" +:+ "  />" ].
Proof.
  destruct (@add_joint_node run_env J1 (@init run_env None)) as (self' & E & O & X).
  - intros Hf. by destruct Hf.
  - exists self'. split; [exact E|]. split; [exact O|]. rewrite X. vm_compute. reflexivity.
Defined.

(** The materials of an exporter after [add_mesh] for [mesh_part] and then
    for [mesh_part2], which share the mesh name [arm]. *)
Example materials_after_two_meshes :
  @materials run_env
    (snd (for_each [mesh_part; mesh_part2]
            (λ p, @add_mesh run_env p "visual" (0, 0, 0)%Z) (@init run_env None)))
  = [("arm_material", (0, 0, 1)%Z)].
Proof. vm_compute. reflexivity. Qed.

(** * More runs on concrete robots *)

(** [robot_fixed] has a joint with [friction] and no [frictionloss]. *)
Lemma build_raises_witness :
  fst (@build run_env 5 robot_fixed (@init run_env None))
  = Raise (KeyError "frictionloss")
  ∧ ∃ j, j ∈ @joints run_env robot_fixed
         ∧ @properties run_env j !! "friction" ≠ None
         ∧ @properties run_env j !! "frictionloss" = None.
Proof.
  assert (fst (@build run_env 5 robot_fixed (@init run_env None))
          = Raise (KeyError "frictionloss")) as E by (vm_compute; reflexivity).
  split; [exact E|].
  destruct (@build_raises run_env 5 robot_fixed (@init run_env None) _ E)
    as [D|[_ Hj]]; [discriminate D | exact Hj].
Defined.

(** The cycle [L0 -> L1 -> L0] ends in [RecursionError]. *)
Lemma build_cycle_witness :
  fst (@build run_env 20 robot_cycle (@init run_env None)) = Raise RecursionError.
Proof.
  apply (@build_cycle run_env robot_cycle (λ i, i = 0 ∨ i = 1) 20 (@init run_env None)).
  - intros l [E|E].
    + exists J1. rewrite E. split; [by left|]. split; [reflexivity | by right].
    + exists J_back. rewrite E. split; [right; by left|].
      split; [reflexivity | by left].
  - by left.
  - intros j Hj Hf. apply elem_of_cons in Hj as [->|Hj];
      [|apply list_elem_of_singleton in Hj as ->]; by destruct Hf.
Defined.

(** [L1] is written twice in [robot_double], once for each joint. *)
Lemma build_well_nested_witness :
  ∃ out,
    xml (snd (@build run_env 3 robot_double (@init run_env None)))
    = (@header run_env robot_double (@init run_env None) ++ "<worldbody>" :: out
       ++ "</worldbody>"
          :: @footer run_env robot_double
               (snd (@build run_env 3 robot_double (@init run_env None))))%list
    ∧ nesting 0 out = Some 0
    ∧ (body_depths 0 out).*2 = [0; 1; 1].
Proof.
  assert (fst (@build run_env 3 robot_double (@init run_env None))
          = Ok (String.concat ""
                  (xml (snd (@build run_env 3 robot_double (@init run_env None))))))
    as E by (vm_compute; reflexivity).
  destruct (@build_well_nested run_env 3 robot_double (@init run_env None) _ E)
    as (out & X & N & B).
  exists out. split; [exact X|]. split; [exact N|]. rewrite B. reflexivity.
Defined.


(** [assets/arm.stl] gives the file [arm.stl], the mesh [arm] and the
    material [arm_material]. *)
Lemma add_mesh_names_witness :
  ∃ self',
    @add_mesh run_env mesh_part "visual" (0, 0, 0)%Z (@init run_env None) = (Ok tt, self')
    ∧ meshes self' = ["arm.stl"]
    ∧ materials self' = [("arm_material", (1, 0, 0)%Z)].
Proof.
  destruct (@add_mesh_names run_env mesh_part "visual" (0, 0, 0)%Z "assets" "arm" "stl"
              (@init run_env None))
    as (self' & E & M & K & _);
    [right; reflexivity | reflexivity | reflexivity | reflexivity |].
  exists self'. split; [exact E|]. split; [exact M | exact K].
Defined.

(** [meshes/arm] gives the empty mesh name and the material [_material]. *)
Lemma add_mesh_no_extension_witness :
  ∃ self',
    @add_mesh run_env raw_part "visual" (0, 0, 0)%Z (@init run_env None) = (Ok tt, self')
    ∧ meshes self' = ["arm"]
    ∧ materials self' = [("_material", (0, 0, 1)%Z)].
Proof.
  destruct (@add_mesh_no_extension run_env raw_part "visual" (0, 0, 0)%Z "meshes/arm"
              (@init run_env None))
    as (self' & E & M & K & _); [reflexivity | reflexivity |].
  exists self'. split; [exact E|]. split; [exact M | exact K].
Defined.

(** [box_part] has one box and no mesh. *)
Lemma add_part_with_shapes_witness :
  ∃ self' out,
    @add_part run_env box_part (0, 0, 0)%Z (@init run_env None) = (Ok tt, self')
    ∧ xml self' = out
    ∧ length (List.filter (@is_geom_of_class "collision") out) = 1
    ∧ length (List.filter (@is_geom_of_class "visual") out) = 0
    ∧ meshes self' = [].
Proof.
  destruct (@add_part_with_shapes run_env box_part (0, 0, 0)%Z
              [@Box run_env (2, 2, 2)%Z (0, 0, 0)%Z] (@init run_env None) eq_refl)
    as (self' & out & E & X & C & V & M).
  exists self', out. split; [exact E|]. split; [exact X|].
  split; [exact C|]. split; [exact V | exact M].
Defined.

(** The two bodies and the two frames of [robot_frames]. *)
Lemma build_body_elements_witness :
  ∃ out,
    xml (snd (@build run_env 2 robot_frames (@init run_env None)))
    = (@header run_env robot_frames (@init run_env None) ++ "<worldbody>" :: out
       ++ "</worldbody>"
          :: @footer run_env robot_frames
               (snd (@build run_env 2 robot_frames (@init run_env None))))%list
    ∧ count_tag "<body" out = 2
    ∧ count_tag "<inertial" out = 2
    ∧ count_tag "<freejoint" out = 1
    ∧ count_tag "<joint" out + 1 = 2
    ∧ count_tag "<site" out = 2.
Proof.
  assert (fst (@build run_env 2 robot_frames (@init run_env None))
          = Ok (String.concat ""
                  (xml (snd (@build run_env 2 robot_frames (@init run_env None))))))
    as E by (vm_compute; reflexivity).
  destruct (@build_body_elements run_env 2 robot_frames (@init run_env None) _ E)
    as (out & X & C).
  exists out. split; [exact X | exact C].
Defined.

(** A robot file given without directory: the scene goes to [/scene.xml]. *)
Lemma write_xml_scene_witness :
  fst (@write_xml run_env "/pkg" (λ s, s) exn exporter_write_xml (λ _ _, true)
         robot_bare "robot.xml" world0) = None
  ∧ @files run_env
      (snd (@write_xml run_env "/pkg" (λ s, s) exn exporter_write_xml (λ _ _, true)
              robot_bare "robot.xml" world0)) !! "/scene.xml" = Some "<scene/>"
  ∧ @files run_env
      (snd (@write_xml run_env "/pkg" (λ s, s) exn exporter_write_xml (λ _ _, true)
              robot_bare "robot.xml" world0)) !! "scene.xml" = None.
Proof.
  assert (@write_xml run_env "/pkg" (λ s, s) exn exporter_write_xml (λ _ _, true)
            robot_bare "robot.xml" world0
          = (None,
             snd (@write_xml run_env "/pkg" (λ s, s) exn exporter_write_xml (λ _ _, true)
                    robot_bare "robot.xml" world0))) as E by (vm_compute; reflexivity).
  split; [vm_compute; reflexivity|].
  split; [|vm_compute; reflexivity].
  destruct (@write_xml_scene run_env "/pkg" (λ s, s) exn exporter_write_xml (λ _ _, true)
              robot_bare "robot.xml" world0 _ E)
    as (scene & w1 & Ht & _ & _ & Hroot & _).
  vm_compute in Ht. injection Ht as <-. apply Hroot. reflexivity.
Defined.

(** The mesh files that [build] registers for [robot_mesh] are the same on
    a new exporter and on one that has built the robot before. *)
Lemma build_effect_witness :
  ∃ ms,
    meshes (snd (@build run_env 1 robot_mesh (@init run_env None))) = ms
    ∧ meshes (snd (@build run_env 1 robot_mesh
                     (snd (@build run_env 1 robot_mesh (@init run_env None)))))
      = (meshes (snd (@build run_env 1 robot_mesh (@init run_env None))) ++ ms)%list.
Proof.
  destruct (@build_effect run_env 1 robot_mesh false false)
    as (res & bodies & ms & ops & ps & Hs).
  exists ms. split.
  - apply (Hs (@init run_env None) eq_refl eq_refl).
  - apply (Hs (snd (@build run_env 1 robot_mesh (@init run_env None))));
      vm_compute; reflexivity.
Defined.

(** [robot_mesh] built twice with one exporter. *)
Lemma build_again_witness :
  fst (@build run_env 1 robot_mesh
         (snd (@build run_env 1 robot_mesh (@init run_env None))))
  = Ok (String.concat ""
          (xml (snd (@build run_env 1 robot_mesh
                       (snd (@build run_env 1 robot_mesh (@init run_env None)))))))
  ∧ materials (snd (@build run_env 1 robot_mesh
                      (snd (@build run_env 1 robot_mesh (@init run_env None)))))
    = materials (snd (@build run_env 1 robot_mesh (@init run_env None))).
Proof.
  assert (fst (@build run_env 1 robot_mesh (@init run_env None))
          = Ok (String.concat ""
                  (xml (snd (@build run_env 1 robot_mesh (@init run_env None))))))
    as E by (vm_compute; reflexivity).
  destruct (@build_again run_env 1 robot_mesh (@init run_env None) _ E)
    as (bodies & _ & R & _ & M & _).
  split; [exact R | exact M].
Defined.


(** [mesh_part2] after [mesh_part]: both have the material [arm_material];
    the color of the second replaces that of the first. *)
Lemma material_last_write_wins_witness :
  ∃ self1 before after,
    @add_mesh run_env mesh_part2 "visual" (0, 0, 0)%Z
      (snd (@add_mesh run_env mesh_part "visual" (0, 0, 0)%Z (@init run_env None)))
    = (Ok tt, self1)
    ∧ materials self1 = (before ++ ("arm_material", (0, 0, 1)%Z) :: after)%list
    ∧ ("arm_material" ∉ before.*1)
    ∧ ("arm_material" ∉ after.*1).
Proof.
  pose proof (@material_last_write_wins run_env mesh_part2 (0, 0, 0)%Z
                (snd (@add_mesh run_env mesh_part "visual" (0, 0, 0)%Z
                        (@init run_env None)))) as Hthm.
  cbv zeta in Hthm. destruct Hthm as [Hmesh _].
  - vm_compute. apply NoDup_singleton.
  - destruct (Hmesh "visual" "other/arm.stl" eq_refl)
      as (self1 & E & before & after & M & Hb & Ha & _).
    exists self1, before, after. split; [exact E|]. split; [exact M|].
    split; [exact Hb | exact Ha].
Defined.
